(** * GUSMap: scaled forward-algorithm likelihoods of [src/likelihoods.c]

    A shallow embedding of the three C entry points

      - [ll_fs_scaled_err_c]       (phased, one recombination fraction per gap),
      - [ll_fs_ss_scaled_err_c]    (phased, sex-specific),
      - [ll_fs_up_ss_scaled_err_c] (unphased, sex-specific),

    followed by the properties of the specification that concern them.

    Conventions of the embedding.

      - A C [double] is an element of a carrier [T] equipped with the
        operations the file uses ([DoubleOps]).  The code is written once,
        over any such carrier; the algebraic properties are proved on the
        carrier [R] of exact real arithmetic, the IEEE-754 corner cases on
        the carrier [spec_float] of the Standard Library.
      - A pointer obtained with [REAL(x)] or [INTEGER(x)] is the function
        from offsets to the values stored there ([Z -> T], [Z -> Z]).
      - A C [int] is a [Z]: every integer of the file is a loop counter or an
        offset into an array that exists, which bounds it by the size of that
        array.
      - The local variables of a loop nest are a record that each loop
        iteration transforms; [for_loop] is the C [for] statement with a unit
        stride.
      - [probFun.h] (the functions [Qentry], [Qentry_up], [Tmat] and
        [Tmat_ss]) is an interface the file is compiled against
        ([ProbFun]); the functions are parameters of the embedding, and
        where a property is about them they are modelled from the
        specification.
      - An OpenMP loop is the sequential loop, the program without
        [_OPENMP]; [omp_parallel_for_reduction] is the loop shared out among
        threads, which leaves the same sum on exact reals.
      - The arrays [pKaa] and [pKbb] that two of the functions declare are
        functions from offsets to values, like the arrays behind a pointer;
        [automatic_arrays_fit] and the definitions named [_run] add what C
        and the platform make of their declaration, which is where a call
        can end without a value. *)

From Stdlib Require Import ZArith Reals Lra Lia List String Bool Permutation.
From Stdlib Require Import Floats.SpecFloat.
Import ListNotations.

Local Open Scope Z_scope.

(** ** The arithmetic of [double] *)

Class DoubleOps (T : Type) : Type := {
  ofZ : Z -> T;            (* conversion of an [int] to [double] *)
  dbl_quarter : T;         (* the literal [0.25] *)
  dbl_one : T;             (* the literal [1.0] *)
  dadd : T -> T -> T;
  dsub : T -> T -> T;
  dmul : T -> T -> T;
  ddiv : T -> T -> T;
  dlog : T -> T;           (* [log] of <math.h> *)
  dpow : T -> Z -> T;      (* [pow(x, n)] with [n] an [int] promoted to [double] *)
  indet : T                (* the content of a [double] that was never assigned *)
}.

(** ** The interface of [probFun.h] *)

Class ProbFun (T : Type) : Type := {
  Qentry : Z -> T -> T -> T -> Z -> T;      (* Qentry(OPGP, Kaa, Kab, Kbb, elem) *)
  Qentry_up : Z -> T -> T -> T -> Z -> T;   (* Qentry_up(config, Kaa, Kab, Kbb, elem) *)
  Tmat : Z -> Z -> T -> T;                  (* Tmat(s1, s2, rval) *)
  Tmat_ss : Z -> Z -> T -> T -> T           (* Tmat_ss(s1, s2, r_pat, r_mat) *)
}.

(** ** Loops and arrays *)

Fixpoint for_iter {S : Type} (n : nat) (i : Z) (body : Z -> S -> S) (st : S) : S :=
  match n with
  | O => st
  | Datatypes.S n' => for_iter n' (i + 1) body (body i st)
  end.

(** [for (i = lo; i < hi; i++) body] *)
Definition for_loop {S : Type} (lo hi : Z) (body : Z -> S -> S) (st : S) : S :=
  for_iter (Z.to_nat (hi - lo)) lo body st.

(** [a[i] = v] *)
Definition upd {V : Type} (a : Z -> V) (i : Z) (v : V) : Z -> V :=
  fun j => if Z.eqb j i then v else a j.

(** [#pragma omp parallel for num_threads(n)] over [for (i = lo; i < hi; i++)]:
    the iterations in the order of the sequential program, which is the
    program the file compiles to without [_OPENMP]. *)
Definition omp_parallel_for {S : Type} (num_threads : Z) (lo hi : Z)
    (body : Z -> S -> S) (st : S) : S :=
  for_loop lo hi body st.

(** ** Number of threads (lines 76-86 and 254-264) *)

Definition set_up_threads (nThreads maxThreads : Z) : Z :=
  let nThreads_c := nThreads in
  if nThreads_c <=? 0 then maxThreads
  else if nThreads_c >? maxThreads then maxThreads
  else nThreads_c.

(** The fallback of lines 29-31: without OpenMP there is one thread. *)
Definition omp_get_max_threads_fallback : Z := 1.

Section Code.

Context {T : Type} {ops : DoubleOps T} {pf : ProbFun T}.

(** ** Emission tables [pKaa], [pKbb] *)

Record tables : Type := mkTables {
  pKaa : Z -> T;
  pKbb : Z -> T
}.

Definition set_pKaa (a : Z -> T) (tb : tables) : tables := mkTables a (pKbb tb).
Definition set_pKbb (a : Z -> T) (tb : tables) : tables := mkTables (pKaa tb) a.

(** [double pKaa[n]; double pKbb[n];] *)
Definition tables_uninit : tables := mkTables (fun _ => indet) (fun _ => indet).

(** Lines 93-99: one error rate per marker. *)
Definition emission_tables (pep : Z -> T) (pref palt : Z -> Z) (pbcoef_mat : Z -> T)
    (nInd_c nSnps_c : Z) (tb : tables) : tables :=
  for_loop 0 nInd_c (fun ind tb =>
    for_loop 0 nSnps_c (fun snp tb =>
      let index := ind + snp * nInd_c in
      let tb := set_pKaa (upd (pKaa tb) index
                  (dmul (dmul (pbcoef_mat index)
                              (dpow (dsub dbl_one (pep snp)) (pref index)))
                        (dpow (pep snp) (palt index)))) tb in
      set_pKbb (upd (pKbb tb) index
                  (dmul (dmul (pbcoef_mat index)
                              (dpow (dsub dbl_one (pep snp)) (palt index)))
                        (dpow (pep snp) (pref index)))) tb) tb) tb.

(** Lines 267-274: one error rate [ep_c] for all markers, one loop over the
    flat index. *)
Definition emission_tables_up (ep_c : T) (pref palt : Z -> Z) (pbcoef_mat : Z -> T)
    (nThreads_c : Z) (nInd_c nSnps_c : Z) (tb : tables) : tables :=
  let size := nSnps_c * nInd_c in
  omp_parallel_for nThreads_c 0 size (fun i tb =>
    let tb := set_pKaa (upd (pKaa tb) i
                (dmul (dmul (pbcoef_mat i) (dpow (dsub dbl_one ep_c) (pref i)))
                      (dpow ep_c (palt i)))) tb in
    set_pKbb (upd (pKbb tb) i
                (dmul (dmul (pbcoef_mat i) (dpow (dsub dbl_one ep_c) (palt i)))
                      (dpow ep_c (pref i)))) tb) tb.

(** ** The likelihood loop *)

(** [llval] and the variables private to an iteration of the loop over
    individuals. *)
Record locals : Type := mkLocals {
  llval : T;
  sum : T;
  w_new : T;
  alphaTilde : Z -> T;
  alphaDot : Z -> T
}.

Definition set_llval (v : T) (st : locals) : locals :=
  mkLocals v (sum st) (w_new st) (alphaTilde st) (alphaDot st).
Definition set_sum (v : T) (st : locals) : locals :=
  mkLocals (llval st) v (w_new st) (alphaTilde st) (alphaDot st).
Definition set_w_new (v : T) (st : locals) : locals :=
  mkLocals (llval st) (sum st) v (alphaTilde st) (alphaDot st).
Definition set_alphaTilde (a : Z -> T) (st : locals) : locals :=
  mkLocals (llval st) (sum st) (w_new st) a (alphaDot st).
Definition set_alphaDot (a : Z -> T) (st : locals) : locals :=
  mkLocals (llval st) (sum st) (w_new st) (alphaTilde st) a.

(** [double llval = 0;] with the other variables declared and not assigned. *)
Definition locals_init : locals :=
  mkLocals (ofZ 0) indet indet (fun _ => indet) (fun _ => indet).

(** The three functions share the text of the loop over individuals up to
    the calls into [probFun.h]: [Q0 s1] stands for the emission call at the
    first marker, [Q snp s2] for the emission call at marker [snp], and
    [Tr snp s1 s2] for the transition call in front of marker [snp]. *)

(** "Compute forward probabilities at snp 1", "Scale forward probabilities",
    "add contribution to likelihood". *)
Definition forward_first (Q0 : Z -> T) (st : locals) : locals :=
  let st := set_sum (ofZ 0) st in
  let st := for_loop 0 4 (fun s1 st =>
              let st := set_alphaDot
                          (upd (alphaDot st) s1 (dmul dbl_quarter (Q0 s1))) st in
              set_sum (dadd (sum st) (alphaDot st s1)) st) st in
  let st := for_loop 0 4 (fun s1 st =>
              set_alphaTilde
                (upd (alphaTilde st) s1 (ddiv (alphaDot st s1) (sum st))) st) st in
  set_llval (dadd (llval st) (dlog (sum st))) st.

(** The body of "iterate over the remaining SNPs". *)
Definition forward_next (Q : Z -> Z -> T) (Tr : Z -> Z -> Z -> T)
    (snp : Z) (st : locals) : locals :=
  let st := for_loop 0 4 (fun s2 st =>
              let st := set_sum (ofZ 0) st in
              let st := for_loop 0 4 (fun s1 st =>
                          set_sum (dadd (sum st)
                                        (dmul (Tr snp s1 s2) (alphaTilde st s1))) st) st in
              set_alphaDot (upd (alphaDot st) s2 (dmul (Q snp s2) (sum st))) st) st in
  let st := set_w_new (ofZ 0) st in
  let st := for_loop 0 4 (fun s2 st =>
              set_w_new (dadd (w_new st) (alphaDot st s2)) st) st in
  let st := set_llval (dadd (llval st) (dlog (w_new st))) st in
  for_loop 0 4 (fun s2 st =>
    set_alphaTilde
      (upd (alphaTilde st) s2 (ddiv (alphaDot st s2) (w_new st))) st) st.

(** The body of the loop over individuals. *)
Definition forward_ind (Q0 : Z -> T) (Q : Z -> Z -> T) (Tr : Z -> Z -> Z -> T)
    (nSnps_c : Z) (st : locals) : locals :=
  for_loop 1 nSnps_c (forward_next Q Tr) (forward_first Q0 st).

(** *** likelihood 3 of the file: [ll_fs_scaled_err_c] (lines 53-152) *)

Definition fs_Q0 (pOPGP : Z -> Z) (tb : tables) (pKab : Z -> T) (ind : Z) : Z -> T :=
  fun s1 => Qentry (pOPGP 0) (pKaa tb ind) (pKab ind) (pKbb tb ind) (s1 + 1).

Definition fs_Q (pOPGP : Z -> Z) (tb : tables) (pKab : Z -> T) (nInd_c ind : Z)
    : Z -> Z -> T :=
  fun snp s2 => Qentry (pOPGP snp) (pKaa tb (ind + nInd_c * snp))
                       (pKab (ind + nInd_c * snp)) (pKbb tb (ind + nInd_c * snp))
                       (s2 + 1).

Definition fs_Tr (pr : Z -> T) : Z -> Z -> Z -> T :=
  fun snp s1 s2 => Tmat s1 s2 (pr (snp - 1)).

(** The body of the loop over individuals (lines 105-145). *)
Definition ll_fs_scaled_err_ind (pr : Z -> T) (tb : tables) (pKab : Z -> T)
    (pOPGP : Z -> Z) (nInd_c nSnps_c : Z) (ind : Z) (st : locals) : locals :=
  forward_ind (fs_Q0 pOPGP tb pKab ind) (fs_Q pOPGP tb pKab nInd_c ind)
              (fs_Tr pr) nSnps_c st.

Definition ll_fs_scaled_err_loop (pr : Z -> T) (tb : tables) (pKab : Z -> T)
    (pOPGP : Z -> Z) (nInd_c nSnps_c nThreads_c : Z) (st : locals) : locals :=
  omp_parallel_for nThreads_c 0 nInd_c
    (ll_fs_scaled_err_ind pr tb pKab pOPGP nInd_c nSnps_c) st.

Definition ll_fs_scaled_err_c (maxThreads : Z)
    (r ep : Z -> T) (ref alt : Z -> Z) (bcoef_mat Kab : Z -> T) (OPGP : Z -> Z)
    (nInd nSnps nThreads : Z) : T :=
  let nThreads_c := set_up_threads nThreads maxThreads in
  let tb := emission_tables ep ref alt bcoef_mat nInd nSnps tables_uninit in
  let st := ll_fs_scaled_err_loop r tb Kab OPGP nInd nSnps nThreads_c locals_init in
  dmul (ofZ (-1)) (llval st).

(** *** likelihood 2 of the file: [ll_fs_ss_scaled_err_c] (lines 158-225) *)

Definition ss_Tr (pr : Z -> T) (nSnps_c : Z) : Z -> Z -> Z -> T :=
  fun snp s1 s2 => Tmat_ss s1 s2 (pr (snp - 1)) (pr (snp - 1 + nSnps_c - 1)).

(** The body of the loop over individuals (lines 180-218). *)
Definition ll_fs_ss_scaled_err_ind (pr : Z -> T) (tb : tables) (pKab : Z -> T)
    (pOPGP : Z -> Z) (nInd_c nSnps_c : Z) (ind : Z) (st : locals) : locals :=
  forward_ind (fs_Q0 pOPGP tb pKab ind) (fs_Q pOPGP tb pKab nInd_c ind)
              (ss_Tr pr nSnps_c) nSnps_c st.

Definition ll_fs_ss_scaled_err_loop (pr : Z -> T) (tb : tables) (pKab : Z -> T)
    (pOPGP : Z -> Z) (nInd_c nSnps_c : Z) (st : locals) : locals :=
  for_loop 0 nInd_c (ll_fs_ss_scaled_err_ind pr tb pKab pOPGP nInd_c nSnps_c) st.

Definition ll_fs_ss_scaled_err_c
    (r Kaa Kab Kbb : Z -> T) (OPGP : Z -> Z) (nInd nSnps : Z) : T :=
  let st := ll_fs_ss_scaled_err_loop r (mkTables Kaa Kbb) Kab OPGP nInd nSnps
              locals_init in
  dmul (ofZ (-1)) (llval st).

(** *** likelihood for sex-specific unphased data:
        [ll_fs_up_ss_scaled_err_c] (lines 232-329) *)

Definition up_Q0 (pconfig : Z -> Z) (tb : tables) (pKab : Z -> T) (ind : Z) : Z -> T :=
  fun s1 => Qentry_up (pconfig 0) (pKaa tb ind) (pKab ind) (pKbb tb ind) (s1 + 1).

Definition up_Q (pconfig : Z -> Z) (tb : tables) (pKab : Z -> T) (nInd_c ind : Z)
    : Z -> Z -> T :=
  fun snp s2 => Qentry_up (pconfig snp) (pKaa tb (ind + nInd_c * snp))
                          (pKab (ind + nInd_c * snp)) (pKbb tb (ind + nInd_c * snp))
                          (s2 + 1).

(** The body of the loop over individuals (lines 279-322). *)
Definition ll_fs_up_ss_scaled_err_ind (pr : Z -> T) (tb : tables) (pKab : Z -> T)
    (pconfig : Z -> Z) (nInd_c nSnps_c : Z) (ind : Z) (st : locals) : locals :=
  forward_ind (up_Q0 pconfig tb pKab ind) (up_Q pconfig tb pKab nInd_c ind)
              (ss_Tr pr nSnps_c) nSnps_c st.

Definition ll_fs_up_ss_scaled_err_loop (pr : Z -> T) (tb : tables) (pKab : Z -> T)
    (pconfig : Z -> Z) (nInd_c nSnps_c nThreads_c : Z) (st : locals) : locals :=
  omp_parallel_for nThreads_c 0 nInd_c
    (ll_fs_up_ss_scaled_err_ind pr tb pKab pconfig nInd_c nSnps_c) st.

Definition ll_fs_up_ss_scaled_err_c (maxThreads : Z)
    (r bcoef_mat ep : Z -> T) (ref alt : Z -> Z) (Kab : Z -> T) (config : Z -> Z)
    (nInd nSnps nThreads : Z) : T :=
  let ep_c := ep 0 in
  let nThreads_c := set_up_threads nThreads maxThreads in
  let tb := emission_tables_up ep_c ref alt bcoef_mat nThreads_c nInd nSnps
              tables_uninit in
  let st := ll_fs_up_ss_scaled_err_loop r tb Kab config nInd nSnps nThreads_c
              locals_init in
  dmul (ofZ (-1)) (llval st).

(** ** What one marker leaves in the variables

    The values that the loops over the hidden states of [forward_first] and
    [forward_next] assign, written as expressions. *)

(** The sum of four terms the way the code accumulates it: from zero, in the
    order of the states. *)
Definition acc4 (f : Z -> T) : T :=
  dadd (dadd (dadd (dadd (ofZ 0) (f 0)) (f 1)) (f 2)) (f 3).

Definition first_dot (Q0 : Z -> T) (s : Z) : T := dmul dbl_quarter (Q0 s).

Definition next_dot (Q : Z -> Z -> T) (Tr : Z -> Z -> Z -> T) (snp : Z)
    (prev : Z -> T) (s2 : Z) : T :=
  dmul (Q snp s2) (acc4 (fun s1 => dmul (Tr snp s1 s2) (prev s1))).

(** ** What the emission loops store in a cell *)

Definition Kaa_cell (bcoef ep : T) (ref alt : Z) : T :=
  dmul (dmul bcoef (dpow (dsub dbl_one ep) ref)) (dpow ep alt).

Definition Kbb_cell (bcoef ep : T) (ref alt : Z) : T :=
  dmul (dmul bcoef (dpow (dsub dbl_one ep) alt)) (dpow ep ref).

(** ** The inputs of the recursion, variant by variant

    [emission l s] and [transition g s1 s2] of section 4.3 for the individual
    [ind]: markers [l] and gaps [g] count from 1, hidden states [s] from 0;
    the arrays are the ones the C functions receive. *)

Definition emission_phased (OPGP : Z -> Z) (Kaa Kab Kbb : Z -> T) (nInd ind : Z)
    (l s : Z) : T :=
  Qentry (OPGP (l - 1)) (Kaa (ind + (l - 1) * nInd)) (Kab (ind + (l - 1) * nInd))
         (Kbb (ind + (l - 1) * nInd)) (s + 1).

Definition emission_unphased (config : Z -> Z) (Kaa Kab Kbb : Z -> T) (nInd ind : Z)
    (l s : Z) : T :=
  Qentry_up (config (l - 1)) (Kaa (ind + (l - 1) * nInd)) (Kab (ind + (l - 1) * nInd))
            (Kbb (ind + (l - 1) * nInd)) (s + 1).

Definition transition_shared (r : Z -> T) (g s1 s2 : Z) : T :=
  Tmat s1 s2 (r (g - 1)).

Definition transition_sex_specific (r_pat r_mat : Z -> T) (g s1 s2 : Z) : T :=
  Tmat_ss s1 s2 (r_pat (g - 1)) (r_mat (g - 1)).

(** ** One individual

    What the body of the loop over individuals adds to [llval] when it runs
    for [ind] from the initial state, with the tables the function built. *)

Definition ll_fs_scaled_err_contribution
    (r ep : Z -> T) (ref alt : Z -> Z) (bcoef_mat Kab : Z -> T) (OPGP : Z -> Z)
    (nInd nSnps : Z) (ind : Z) : T :=
  let tb := emission_tables ep ref alt bcoef_mat nInd nSnps tables_uninit in
  llval (ll_fs_scaled_err_ind r tb Kab OPGP nInd nSnps ind locals_init).

Definition ll_fs_ss_scaled_err_contribution
    (r Kaa Kab Kbb : Z -> T) (OPGP : Z -> Z) (nInd nSnps : Z) (ind : Z) : T :=
  llval (ll_fs_ss_scaled_err_ind r (mkTables Kaa Kbb) Kab OPGP nInd nSnps ind
           locals_init).

Definition ll_fs_up_ss_scaled_err_contribution (maxThreads : Z)
    (r bcoef_mat ep : Z -> T) (ref alt : Z -> Z) (Kab : Z -> T) (config : Z -> Z)
    (nInd nSnps nThreads : Z) (ind : Z) : T :=
  let tb := emission_tables_up (ep 0) ref alt bcoef_mat
              (set_up_threads nThreads maxThreads) nInd nSnps tables_uninit in
  llval (ll_fs_up_ss_scaled_err_ind r tb Kab config nInd nSnps ind locals_init).

(** ** The variables after marker [snp]

    The body of the loop over individuals stopped when the iteration of the
    loop over markers for [snp] ends (for [snp = 0], when the block of the
    first marker ends). *)

Definition ll_fs_scaled_err_upto (pr : Z -> T) (tb : tables) (pKab : Z -> T)
    (pOPGP : Z -> Z) (nInd_c : Z) (ind snp : Z) (st : locals) : locals :=
  forward_ind (fs_Q0 pOPGP tb pKab ind) (fs_Q pOPGP tb pKab nInd_c ind)
              (fs_Tr pr) (snp + 1) st.

Definition ll_fs_ss_scaled_err_upto (pr : Z -> T) (tb : tables) (pKab : Z -> T)
    (pOPGP : Z -> Z) (nInd_c nSnps_c : Z) (ind snp : Z) (st : locals) : locals :=
  forward_ind (fs_Q0 pOPGP tb pKab ind) (fs_Q pOPGP tb pKab nInd_c ind)
              (ss_Tr pr nSnps_c) (snp + 1) st.

Definition ll_fs_up_ss_scaled_err_upto (pr : Z -> T) (tb : tables) (pKab : Z -> T)
    (pconfig : Z -> Z) (nInd_c nSnps_c : Z) (ind snp : Z) (st : locals) : locals :=
  forward_ind (up_Q0 pconfig tb pKab ind) (up_Q pconfig tb pKab nInd_c ind)
              (ss_Tr pr nSnps_c) (snp + 1) st.

(** ** Matrices addressed by (individual, marker) *)

(** The emission calls on the cell [(ind, snp)] of three matrices. *)
Definition phased_lookup (OPGP : Z -> Z) (Kaa Kab Kbb : Z -> Z -> T)
    (ind snp s : Z) : T :=
  Qentry (OPGP snp) (Kaa ind snp) (Kab ind snp) (Kbb ind snp) (s + 1).

Definition unphased_lookup (config : Z -> Z) (Kaa Kab Kbb : Z -> Z -> T)
    (ind snp s : Z) : T :=
  Qentry_up (config snp) (Kaa ind snp) (Kab ind snp) (Kbb ind snp) (s + 1).

(** The densities of the cell [(ind, snp)] from the counts and the
    coefficient of that cell and the error rate of the marker. *)
Definition Kaa_matrix (bcoef : Z -> Z -> T) (ep : Z -> T) (ref alt : Z -> Z -> Z)
    : Z -> Z -> T :=
  fun ind snp => Kaa_cell (bcoef ind snp) (ep snp) (ref ind snp) (alt ind snp).

Definition Kbb_matrix (bcoef : Z -> Z -> T) (ep : Z -> T) (ref alt : Z -> Z -> Z)
    : Z -> Z -> T :=
  fun ind snp => Kbb_cell (bcoef ind snp) (ep snp) (ref ind snp) (alt ind snp).

(** ** The loop over individuals under OpenMP

    [#pragma omp parallel for reduction(+:llval)]: the iterations are shared
    out among the threads, and [schedule] lists, thread by thread, the
    iterations a thread runs, in the order it runs them.  A thread works on
    copies of the variables that are its own, its [llval] started at zero;
    when the threads are done their [llval] are added to the original
    one. *)
Definition omp_thread (body : Z -> locals -> locals) (iterations : list Z) : locals :=
  fold_left (fun st i => body i st) iterations locals_init.

Definition omp_parallel_for_reduction (schedule : list (list Z))
    (body : Z -> locals -> locals) (st : locals) : locals :=
  set_llval
    (fold_left (fun a iterations => dadd a (llval (omp_thread body iterations)))
               schedule (llval st))
    st.

(** The two functions that carry the pragma (lines 102-103 and 277), as an
    OpenMP build runs them.  The clause [num_threads(nThreads_c)] makes the
    team, and [team n k] lists, thread by thread, the iterations among
    [0 .. k - 1] that a team of [n] threads gives to each of its threads;
    how a team shares them out is left to the implementation.  The loop of
    lines 271-274 assigns every cell once, whichever thread does it. *)
Definition ll_fs_scaled_err_c_omp (team : Z -> Z -> list (list Z)) (maxThreads : Z)
    (r ep : Z -> T) (ref alt : Z -> Z) (bcoef_mat Kab : Z -> T) (OPGP : Z -> Z)
    (nInd nSnps nThreads : Z) : T :=
  let nThreads_c := set_up_threads nThreads maxThreads in
  let tb := emission_tables ep ref alt bcoef_mat nInd nSnps tables_uninit in
  let st := omp_parallel_for_reduction (team nThreads_c nInd)
              (ll_fs_scaled_err_ind r tb Kab OPGP nInd nSnps) locals_init in
  dmul (ofZ (-1)) (llval st).

Definition ll_fs_up_ss_scaled_err_c_omp (team : Z -> Z -> list (list Z))
    (maxThreads : Z)
    (r bcoef_mat ep : Z -> T) (ref alt : Z -> Z) (Kab : Z -> T) (config : Z -> Z)
    (nInd nSnps nThreads : Z) : T :=
  let ep_c := ep 0 in
  let nThreads_c := set_up_threads nThreads maxThreads in
  let tb := emission_tables_up ep_c ref alt bcoef_mat nThreads_c nInd nSnps
              tables_uninit in
  let st := omp_parallel_for_reduction (team nThreads_c nInd)
              (ll_fs_up_ss_scaled_err_ind r tb Kab config nInd nSnps) locals_init in
  dmul (ofZ (-1)) (llval st).

(** ** The automatic arrays

    [pKaa] and [pKbb] of the first and of the third function are
    variable-length arrays (lines 90-91 and 267-269): [nSnps_c * nInd_c]
    doubles each, on the stack of the thread that calls the function.  C
    gives the declaration [double a[n]] a meaning only for a positive [n],
    and the system ends a process whose stack cannot hold what is declared
    there: in neither case does the call return a value.  [stack] is the
    room, in bytes, that the stack has for the two arrays.  The second
    function is handed its tables by the caller and declares no array whose
    size is an argument. *)
Definition sizeof_double : Z := 8.

Definition automatic_arrays_fit (stack n : Z) : bool :=
  (0 <? n) && (2 * (sizeof_double * n) <=? stack).

Definition ll_fs_scaled_err_c_run (stack maxThreads : Z)
    (r ep : Z -> T) (ref alt : Z -> Z) (bcoef_mat Kab : Z -> T) (OPGP : Z -> Z)
    (nInd nSnps nThreads : Z) : option T :=
  if automatic_arrays_fit stack (nSnps * nInd)
  then Some (ll_fs_scaled_err_c maxThreads r ep ref alt bcoef_mat Kab OPGP
               nInd nSnps nThreads)
  else None.

Definition ll_fs_ss_scaled_err_c_run
    (r Kaa Kab Kbb : Z -> T) (OPGP : Z -> Z) (nInd nSnps : Z) : option T :=
  Some (ll_fs_ss_scaled_err_c r Kaa Kab Kbb OPGP nInd nSnps).

Definition ll_fs_up_ss_scaled_err_c_run (stack maxThreads : Z)
    (r bcoef_mat ep : Z -> T) (ref alt : Z -> Z) (Kab : Z -> T) (config : Z -> Z)
    (nInd nSnps nThreads : Z) : option T :=
  let size := nSnps * nInd in
  if automatic_arrays_fit stack size
  then Some (ll_fs_up_ss_scaled_err_c maxThreads r bcoef_mat ep ref alt Kab config
               nInd nSnps nThreads)
  else None.

End Code.

(** A matrix [M ind snp] of [nInd] individuals laid out in one array with
    the individual index running fastest. *)
Definition flat {V : Type} (nInd : Z) (M : Z -> Z -> V) : Z -> V :=
  fun k => M (k mod nInd) (k / nInd).

(** Two sequences in one array, the first one in the cells [0 .. n - 1] and
    the second one behind it. *)
Definition two_blocks {V : Type} (n : Z) (first second : Z -> V) : Z -> V :=
  fun k => if k <? n then first k else second (k - n).

(** The row of individual [ind] in a matrix of [nInd] individuals stored with
    the individual index running fastest: a matrix of one individual. *)
Definition row {V : Type} (nInd ind : Z) (M : Z -> V) : Z -> V :=
  fun snp => M (ind + nInd * snp).

(** ** Carriers *)

(** Exact real arithmetic: [pow] on an integer exponent is [powerRZ], whose
    value at exponent [0] is [1] for every base. *)
#[export] Instance RealOps : DoubleOps R := {|
  ofZ := IZR;
  dbl_quarter := 0.25%R;
  dbl_one := 1%R;
  dadd := Rplus;
  dsub := Rminus;
  dmul := Rmult;
  ddiv := Rdiv;
  dlog := ln;
  dpow := powerRZ;
  indet := 0%R
|}.

(** IEEE-754 binary64, the [double] of the platforms of R, as the Standard
    Library specifies it: sums, differences, products and quotients are
    rounded to nearest, ties to even.  [log] and [pow] come from the C
    library, and what an unassigned variable holds is anyone's guess: the
    three are left open. *)
Definition Binary64Ops (log : spec_float -> spec_float)
    (pow : spec_float -> Z -> spec_float) (junk : spec_float)
    : DoubleOps spec_float := {|
  ofZ := fun z => binary_normalize 53 1024 z 0 false;
  dbl_quarter := binary_normalize 53 1024 1 (-2) false;
  dbl_one := binary_normalize 53 1024 1 0 false;
  dadd := SFadd 53 1024;
  dsub := SFsub 53 1024;
  dmul := SFmul 53 1024;
  ddiv := SFdiv 53 1024;
  dlog := log;
  dpow := pow;
  indet := junk
|}.

(** [x == 0.0], true of both zeros. *)
Definition is_zero (x : spec_float) : bool :=
  match x with
  | S754_zero _ => true
  | _ => false
  end.

(** An infinity or a NaN. *)
Definition non_finite (x : spec_float) : bool :=
  match x with
  | S754_infinity _ | S754_nan => true
  | _ => false
  end.

(** ** [probFun.h] as the specification describes it *)

(** Modelled from the spec: the three emission classes of section 3, which
    the missing [probFun.h] selects among. *)
Inductive emission_class : Type := RefLike | Het | AltLike.

Section SpecProbFun.

Context {T : Type} {ops : DoubleOps T}.

(** Modelled from the spec: [probFun.h] is not part of the sources.  Section
    4.2: the hidden state decomposes as (paternal-origin bit, maternal-origin
    bit).  The state [s] in [0..3] is read as [2 * paternal + maternal]; the
    sums of the transition probabilities do not depend on that reading. *)
Definition pat_bit (s : Z) : bool := Z.testbit s 1.

(** Modelled from the spec: the maternal-origin bit of a hidden state, see
    [pat_bit]. *)
Definition mat_bit (s : Z) : bool := Z.testbit s 0.

(** Modelled from the spec: section 4.2, each bit flips with probability [r]
    and stays with probability [1 - r]. *)
Definition bit_prob (b1 b2 : bool) (r : T) : T :=
  if Bool.eqb b1 b2 then dsub dbl_one r else r.

(** Modelled from the spec: the transition model of section 4.2 for one
    recombination fraction per gap ([Tmat] of the missing [probFun.h]). *)
Definition Tmat_spec (s1 s2 : Z) (r : T) : T :=
  dmul (bit_prob (pat_bit s1) (pat_bit s2) r) (bit_prob (mat_bit s1) (mat_bit s2) r).

(** Modelled from the spec: the sex-specific transition model of section 4.2
    ([Tmat_ss] of the missing [probFun.h]): [r_pat] governs the
    paternal-origin bit and [r_mat] the maternal-origin bit. *)
Definition Tmat_ss_spec (s1 s2 : Z) (r_pat r_mat : T) : T :=
  dmul (bit_prob (pat_bit s1) (pat_bit s2) r_pat)
       (bit_prob (mat_bit s1) (mat_bit s2) r_mat).

(** Modelled from the spec: the emission lookup of section 3 ([Qentry] and
    [Qentry_up] of the missing [probFun.h]) selects one of the three
    densities through an opaque table [emissionClass(code, hiddenState)]. *)
Definition Qentry_spec (emissionClass : Z -> Z -> emission_class)
    (code : Z) (Kaa Kab Kbb : T) (elem : Z) : T :=
  match emissionClass code elem with
  | RefLike => Kaa
  | Het => Kab
  | AltLike => Kbb
  end.

(** Modelled from the spec: [probFun.h] as a whole, given the two opaque
    tables of the phased and of the unphased lookup. *)
Definition SpecProbFun (emissionClass emissionClass_unphased : Z -> Z -> emission_class)
    : ProbFun T := {|
  Qentry := Qentry_spec emissionClass;
  Qentry_up := Qentry_spec emissionClass_unphased;
  Tmat := Tmat_spec;
  Tmat_ss := Tmat_ss_spec
|}.

End SpecProbFun.

(** Modelled from the spec: the table of [probFun.h] is not part of the
    sources and the specification keeps it opaque; the examples below use
    this one, in which the first state is reference-like, the last one
    alternate-like and the two in between heterozygous, for every code. *)
Definition emissionClass_example (code elem : Z) : emission_class :=
  if elem =? 1 then RefLike else if elem =? 4 then AltLike else Het.

(** Modelled from the spec: [probFun.h] with that table, on the reals. *)
Definition ExampleProbFun : ProbFun R :=
  SpecProbFun emissionClass_example emissionClass_example.

(** ** Sums *)

Local Open Scope R_scope.

(** [f 0 + ... + f (n - 1)] *)
Fixpoint Rsum_upto (f : Z -> R) (n : nat) : R :=
  match n with
  | O => 0
  | Datatypes.S k => Rsum_upto f k + f (Z.of_nat k)
  end.

(** The sum of [f] over a list of indices. *)
Definition Rsum_list (f : Z -> R) (l : list Z) : R :=
  fold_right (fun i a => f i + a) 0 l.

(** The sum over the four hidden states. *)
Definition sum_states (f : Z -> R) : R := f 0%Z + f 1%Z + f 2%Z + f 3%Z.

(** ** The likelihood without rescaling

    The file computes "scaled versions of the likelihood to deal with
    overflow issues" (line 45).  The likelihood itself is the sum over the
    hidden states of the forward probabilities of the last marker: a
    quarter of the emission at the first marker, then, marker after marker,
    the emission times the sum over the states of the transition times the
    forward probability before, with no division in between.
    [forward_unscaled Q0 Q Tr k s] is the forward probability of the state
    [s] at the marker of index [k], for the emission calls [Q0], [Q] and the
    transition calls [Tr] of a loop body. *)
Fixpoint forward_unscaled (Q0 : Z -> R) (Q : Z -> Z -> R) (Tr : Z -> Z -> Z -> R)
    (k : nat) (s2 : Z) : R :=
  match k with
  | O => 0.25 * Q0 s2
  | Datatypes.S k' =>
      Q (Z.of_nat k' + 1)%Z s2
      * sum_states (fun s1 => Tr (Z.of_nat k' + 1)%Z s1 s2
                              * forward_unscaled Q0 Q Tr k' s1)
  end.

(** ** The scaled forward recursion in the words of the specification
       (section 4.3, steps 1 to 3) *)

Section ScaledForwardSpec.

(** [emission l s]: marker [l] (from 1), hidden state [s].
    [transition g s1 s2]: from [s1] to [s2] across gap [g] (from 1), the gap
    between the markers [g] and [g + 1]. *)
Variable emission : Z -> Z -> R.
Variable transition : Z -> Z -> Z -> R.

Record forward : Type := mkForward {
  acc : R;                    (* the accumulator *)
  alphaTilde_spec : Z -> R    (* the rescaled forward vector *)
}.

Definition alphaDot_first (s : Z) : R := 0.25 * emission 1 s.

Definition forward_spec_first : forward :=
  let w := sum_states alphaDot_first in
  mkForward (ln w) (fun s => alphaDot_first s / w).

Definition alphaDot_at (l : Z) (prev : Z -> R) (s2 : Z) : R :=
  emission l s2 * sum_states (fun s1 => transition (l - 1) s1 s2 * prev s1).

Definition forward_spec_next (l : Z) (f : forward) : forward :=
  let w_new := sum_states (alphaDot_at l (alphaTilde_spec f)) in
  mkForward (acc f + ln w_new)
            (fun s2 => alphaDot_at l (alphaTilde_spec f) s2 / w_new).

(** The recursion after the markers [1 .. k + 1]. *)
Fixpoint forward_spec_upto (k : nat) : forward :=
  match k with
  | O => forward_spec_first
  | Datatypes.S k' => forward_spec_next (Z.of_nat k' + 2) (forward_spec_upto k')
  end.

Definition forward_spec (nMarkers : Z) : forward :=
  forward_spec_upto (Z.to_nat (nMarkers - 1)).

End ScaledForwardSpec.

Local Close Scope R_scope.

(** ** The signatures

    Every parameter of the three functions is an [SEXP]; the way the
    function reads it tells what it holds: a vector of doubles read through
    [REAL], a vector of ints read through [INTEGER], or one int
    ([INTEGER(x)[0]], [asInteger(x)]).  [signature] lists the parameters of
    a function in the order of its declaration (lines 53-54, 158 and 232),
    and [entry] is the embedded function at that signature: its type is the
    one the list spells out, an argument for each parameter and no other. *)

Inductive likelihood_function : Type :=
  | fs_scaled_err        (* phased, not sex-specific *)
  | fs_ss_scaled_err     (* phased, sex-specific *)
  | fs_up_ss_scaled_err. (* unphased, sex-specific *)

Inductive sexp_kind : Type :=
  | real_vector      (* read through [REAL] *)
  | integer_vector   (* read through [INTEGER] *)
  | integer_scalar.  (* one [int] *)

Definition sexp_value (T : Type) (k : sexp_kind) : Type :=
  match k with
  | real_vector => Z -> T
  | integer_vector => Z -> Z
  | integer_scalar => Z
  end.

Fixpoint c_function (T : Type) (sig : list (string * sexp_kind)) : Type :=
  match sig with
  | [] => T
  | (_, k) :: sig' => sexp_value T k -> c_function T sig'
  end.

Definition signature (f : likelihood_function) : list (string * sexp_kind) :=
  match f with
  | fs_scaled_err =>
      [("r", real_vector); ("ep", real_vector); ("ref", integer_vector);
       ("alt", integer_vector); ("bcoef_mat", real_vector); ("Kab", real_vector);
       ("OPGP", integer_vector); ("nInd", integer_scalar);
       ("nSnps", integer_scalar); ("nThreads", integer_scalar)]
  | fs_ss_scaled_err =>
      [("r", real_vector); ("Kaa", real_vector); ("Kab", real_vector);
       ("Kbb", real_vector); ("OPGP", integer_vector); ("nInd", integer_scalar);
       ("nSnps", integer_scalar)]
  | fs_up_ss_scaled_err =>
      [("r", real_vector); ("bcoef_mat", real_vector); ("ep", real_vector);
       ("ref", integer_vector); ("alt", integer_vector); ("Kab", real_vector);
       ("config", integer_vector); ("nInd", integer_scalar);
       ("nSnps", integer_scalar); ("nThreads", integer_scalar)]
  end%string.

Definition entry {T : Type} {ops : DoubleOps T} {pf : ProbFun T} (maxThreads : Z)
    (f : likelihood_function) : c_function T (signature f) :=
  match f return c_function T (signature f) with
  | fs_scaled_err => ll_fs_scaled_err_c maxThreads
  | fs_ss_scaled_err => ll_fs_ss_scaled_err_c
  | fs_up_ss_scaled_err => ll_fs_up_ss_scaled_err_c maxThreads
  end.

Definition parameters (f : likelihood_function) : list string :=
  map fst (signature f).

Definition has_parameter (name : string) (f : likelihood_function) : bool :=
  existsb (String.eqb name) (parameters f).

(** ** Data for the examples *)

(** An array given by its first cells. *)
Fixpoint cells {V : Type} (l : list V) (d : V) (i : Z) : V :=
  match l with
  | [] => d
  | x :: l' => if i =? 0 then x else cells l' d (i - 1)
  end.

(** Two individuals at two markers, individual index running fastest. *)
Definition ex_ref : Z -> Z := cells [10; 0; 9; 1] 0.
Definition ex_alt : Z -> Z := cells [0; 10; 1; 9] 0.
Definition ex_bcoef : Z -> R := cells [1; 1; 10; 10]%R 0%R.
Definition ex_Kab : Z -> R := cells [/ 1024; / 1024; 10 / 1024; 10 / 1024]%R 0%R.
Definition ex_ep : Z -> R := fun _ => (/ 100)%R.
Definition ex_r : Z -> R := fun _ => (/ 10)%R.
Definition ex_code : Z -> Z := fun _ => 1.

(** Densities given directly, as the phased sex-specific function receives
    them, and the same by (individual, marker). *)
Definition ex_Kaa : Z -> R := cells [1; / 1000; 9 / 10; / 100]%R 0%R.
Definition ex_Kbb : Z -> R := cells [/ 1000; 1; / 100; 9 / 10]%R 0%R.
Definition ex_tables : @tables R := mkTables ex_Kaa ex_Kbb.

Definition ex_Kaa2 : Z -> Z -> R := fun ind snp => ex_Kaa (ind + snp * 2).
Definition ex_Kab2 : Z -> Z -> R := fun ind snp => ex_Kab (ind + snp * 2).
Definition ex_Kbb2 : Z -> Z -> R := fun ind snp => ex_Kbb (ind + snp * 2).

(** Fractions of one gap, the paternal one and the maternal one, and an
    array that agrees with their two cells and differs behind them. *)
Definition ex_r_pat : Z -> R := fun _ => (/ 10)%R.
Definition ex_r_mat : Z -> R := fun _ => (/ 5)%R.
Definition ex_r_longer : Z -> R :=
  fun k => if k <? 2 then two_blocks 1 ex_r_pat ex_r_mat k else 7%R.

(** Arrays that agree with [ex_r] on the one gap of two markers and with
    [ex_Kab] on the four cells of two individuals at two markers, and differ
    from them behind; tables and variables holding leftovers. *)
Definition ex_r_other : Z -> R := fun k => if k <? 1 then ex_r k else 7%R.
Definition ex_Kab_other : Z -> R := fun i => if i <? 4 then ex_Kab i else 5%R.
Definition ex_tables_leftover : @tables R := mkTables (fun _ => 5%R) (fun _ => 6%R).
Definition ex_locals_leftover : @locals R :=
  mkLocals 0%R 1%R 2%R (fun _ => 3%R) (fun _ => 4%R).

(** The two individuals in the other order. *)
Definition ex_swap : Z -> Z := fun i => 1 - i.

(** Stand-ins for the C library in the examples on binary64.  The logarithm
    is right where Annex F of the C standard fixes the result: minus
    infinity at the zeros, zero at 1, plus infinity at plus infinity, NaN at
    a NaN, at minus infinity and at a negative number.  The power is right
    for the exponents 0 and 1: [pow(x, 0)] is 1 and [pow(x, 1)] is [x] for
    every [x].  At the arguments that are left, which the examples do not
    reach, both answer NaN. *)
Definition ex_log (x : spec_float) : spec_float :=
  match x with
  | S754_zero _ => S754_infinity true
  | S754_infinity false => S754_infinity false
  | S754_finite false _ _ =>
      if SFeqb x (binary_normalize 53 1024 1 0 false) then S754_zero false
      else S754_nan
  | _ => S754_nan
  end.

Definition ex_pow (x : spec_float) (n : Z) : spec_float :=
  if n =? 0 then binary_normalize 53 1024 1 0 false
  else if n =? 1 then x
  else S754_nan.

Definition ExampleBinary64 : DoubleOps spec_float :=
  Binary64Ops ex_log ex_pow S754_nan.

(** Modelled from the spec: [probFun.h] with the table of the examples, on
    binary64. *)
Definition ExampleProbFun64 : ProbFun spec_float :=
  SpecProbFun (ops := ExampleBinary64) emissionClass_example emissionClass_example.

(** One individual at two markers, one read of each allele at both, and an
    error rate of zero: no genotype class explains the reads. *)
Definition ex64_zero : Z -> spec_float := fun _ => S754_zero false.
Definition ex64_one : Z -> spec_float := fun _ => binary_normalize 53 1024 1 0 false.
Definition ex64_r : Z -> spec_float := fun _ => binary_normalize 53 1024 1 (-3) false.
Definition ex64_counts : Z -> Z := fun _ => 1.

(** One individual at two markers, no read at either; the coefficient and
    the heterozygote density are 1 at the first marker and 0 at the second,
    so that the three densities are: the first step has weight 1, the
    second one weight 0. *)
Definition ex64_no_counts : Z -> Z := fun _ => 0.
Definition ex64_first_only : Z -> spec_float :=
  cells [binary_normalize 53 1024 1 0 false] (S754_zero false).

(** * Properties *)

(** ** Loops *)

Section Loops.

Context {S : Type}.
Implicit Types (body : Z -> S -> S) (st : S).

Lemma for_iter_last n i body st :
  for_iter (Datatypes.S n) i body st = body (i + Z.of_nat n) (for_iter n i body st).
Proof.
  revert i st.
  induction n as [|n IH]; intros i st.
  - simpl. now rewrite Z.add_0_r.
  - change (for_iter (Datatypes.S (Datatypes.S n)) i body st)
      with (for_iter (Datatypes.S n) (i + 1) body (body i st)).
    rewrite IH. simpl for_iter at 2.
    f_equal. lia.
Qed.

Lemma for_loop_empty lo hi body st :
  hi <= lo -> for_loop lo hi body st = st.
Proof.
  intros H. unfold for_loop.
  replace (Z.to_nat (hi - lo)) with O by lia. reflexivity.
Qed.

Lemma for_loop_last lo hi body st :
  lo < hi ->
  for_loop lo hi body st = body (hi - 1) (for_loop lo (hi - 1) body st).
Proof.
  intros H. unfold for_loop.
  replace (Z.to_nat (hi - lo)) with (Datatypes.S (Z.to_nat (hi - 1 - lo))) by lia.
  rewrite for_iter_last. f_equal. lia.
Qed.

(** A loop that runs from [lo] establishes at [hi] whatever each iteration
    carries one index further. *)
Lemma for_loop_invariant (P : Z -> S -> Prop) lo hi body st :
  lo <= hi ->
  P lo st ->
  (forall i s, lo <= i < hi -> P i s -> P (i + 1) (body i s)) ->
  P hi (for_loop lo hi body st).
Proof.
  intros Hle H0 Hstep.
  assert (G : forall n, P (lo + Z.of_nat n) (for_loop lo (lo + Z.of_nat n) body st)
                        \/ hi < lo + Z.of_nat n).
  { induction n as [|n IH].
    - left. rewrite Z.add_0_r, for_loop_empty by lia. exact H0.
    - destruct (Z_lt_le_dec hi (lo + Z.of_nat (Datatypes.S n))) as [Hgt|Hin];
        [now right|left].
      destruct IH as [IH|IH]; [|lia].
      rewrite for_loop_last by lia.
      replace (lo + Z.of_nat (Datatypes.S n) - 1) with (lo + Z.of_nat n) by lia.
      replace (lo + Z.of_nat (Datatypes.S n)) with (lo + Z.of_nat n + 1) by lia.
      apply Hstep; [lia|exact IH]. }
  destruct (G (Z.to_nat (hi - lo))) as [G'|G']; [|lia].
  now replace (lo + Z.of_nat (Z.to_nat (hi - lo))) with hi in G' by lia.
Qed.

(** Two bodies that agree on the range of the loop give the same loop. *)
Lemma for_loop_ext lo hi body body' st :
  (forall i s, lo <= i < hi -> body i s = body' i s) ->
  for_loop lo hi body st = for_loop lo hi body' st.
Proof.
  intros Hb.
  destruct (Z_lt_le_dec hi lo) as [Hlt|Hle].
  - now rewrite !for_loop_empty by lia.
  - apply for_loop_invariant
      with (P := fun i s => for_loop lo i body st = s) (body := body'); auto.
    + now rewrite for_loop_empty by lia.
    + intros i s Hi <-.
      rewrite for_loop_last by lia.
      replace (i + 1 - 1) with i by lia. now apply Hb.
Qed.

Lemma for_loop_split lo mid hi body st :
  lo <= mid <= hi ->
  for_loop lo hi body st = for_loop mid hi body (for_loop lo mid body st).
Proof.
  intros [H1 H2].
  apply for_loop_invariant
    with (P := fun i s => for_loop lo i body st = s) (lo := mid); auto.
  intros i s Hi <-.
  rewrite for_loop_last by lia.
  now replace (i + 1 - 1) with i by lia.
Qed.

End Loops.

Lemma hidden_state_cases (s : Z) :
  0 <= s < 4 -> s = 0 \/ s = 1 \/ s = 2 \/ s = 3.
Proof. lia. Qed.

Ltac each_state s H :=
  destruct (hidden_state_cases s H) as [->|[->|[->| ->]]].

(** ** One marker of the forward pass, on any carrier *)

Section ForwardSteps.

Context {T : Type} {ops : DoubleOps T}.
Implicit Types (st : @locals T).

Lemma forward_first_llval Q0 st :
  llval (forward_first Q0 st) = dadd (llval st) (dlog (acc4 (first_dot Q0))).
Proof. reflexivity. Qed.

Lemma forward_first_alphaDot Q0 st s :
  0 <= s < 4 -> alphaDot (forward_first Q0 st) s = first_dot Q0 s.
Proof. intros H. each_state s H; reflexivity. Qed.

Lemma forward_first_alphaTilde Q0 st s :
  0 <= s < 4 ->
  alphaTilde (forward_first Q0 st) s = ddiv (first_dot Q0 s) (acc4 (first_dot Q0)).
Proof. intros H. each_state s H; reflexivity. Qed.

Lemma forward_next_llval Q Tr snp st :
  llval (forward_next Q Tr snp st)
  = dadd (llval st) (dlog (acc4 (next_dot Q Tr snp (alphaTilde st)))).
Proof. reflexivity. Qed.

Lemma forward_next_alphaDot Q Tr snp st s :
  0 <= s < 4 ->
  alphaDot (forward_next Q Tr snp st) s = next_dot Q Tr snp (alphaTilde st) s.
Proof. intros H. each_state s H; reflexivity. Qed.

Lemma forward_next_alphaTilde Q Tr snp st s :
  0 <= s < 4 ->
  alphaTilde (forward_next Q Tr snp st) s
  = ddiv (next_dot Q Tr snp (alphaTilde st) s)
         (acc4 (next_dot Q Tr snp (alphaTilde st))).
Proof. intros H. each_state s H; reflexivity. Qed.

End ForwardSteps.

(** ** The forward pass only looks at the four states and at the markers of
       its range *)

Section ForwardExt.

Context {T : Type} {ops : DoubleOps T}.
Implicit Types (st : @locals T).

Lemma forward_first_ext Q0 Q0' st :
  (forall s, 0 <= s < 4 -> Q0 s = Q0' s) ->
  forward_first Q0 st = forward_first Q0' st.
Proof.
  intros H. unfold forward_first.
  assert (E : forall st0,
    for_loop 0 4 (fun s1 st =>
      let st := set_alphaDot (upd (alphaDot st) s1 (dmul dbl_quarter (Q0 s1))) st in
      set_sum (dadd (sum st) (alphaDot st s1)) st) st0
    = for_loop 0 4 (fun s1 st =>
      let st := set_alphaDot (upd (alphaDot st) s1 (dmul dbl_quarter (Q0' s1))) st in
      set_sum (dadd (sum st) (alphaDot st s1)) st) st0).
  { intros st0. apply for_loop_ext. intros s1 s Hs1. now rewrite H. }
  cbv zeta. now rewrite E.
Qed.

Lemma forward_next_ext Q Q' Tr Tr' snp st :
  (forall s, 0 <= s < 4 -> Q snp s = Q' snp s) ->
  (forall s1 s2, 0 <= s1 < 4 -> 0 <= s2 < 4 -> Tr snp s1 s2 = Tr' snp s1 s2) ->
  forward_next Q Tr snp st = forward_next Q' Tr' snp st.
Proof.
  intros HQ HT. unfold forward_next.
  assert (E : forall st0,
    for_loop 0 4 (fun s2 st =>
      let st := set_sum (ofZ 0) st in
      let st := for_loop 0 4 (fun s1 st =>
                  set_sum (dadd (sum st) (dmul (Tr snp s1 s2) (alphaTilde st s1))) st) st in
      set_alphaDot (upd (alphaDot st) s2 (dmul (Q snp s2) (sum st))) st) st0
    = for_loop 0 4 (fun s2 st =>
      let st := set_sum (ofZ 0) st in
      let st := for_loop 0 4 (fun s1 st =>
                  set_sum (dadd (sum st) (dmul (Tr' snp s1 s2) (alphaTilde st s1))) st) st in
      set_alphaDot (upd (alphaDot st) s2 (dmul (Q' snp s2) (sum st))) st) st0).
  { intros st0. apply for_loop_ext. intros s2 s Hs2. cbv zeta.
    rewrite HQ by exact Hs2.
    rewrite (for_loop_ext 0 4
               (fun s1 st => set_sum (dadd (sum st)
                               (dmul (Tr snp s1 s2) (alphaTilde st s1))) st)
               (fun s1 st => set_sum (dadd (sum st)
                               (dmul (Tr' snp s1 s2) (alphaTilde st s1))) st)).
    - reflexivity.
    - intros s1 s' Hs1. now rewrite HT. }
  cbv zeta. now rewrite E.
Qed.

Lemma forward_ind_ext Q0 Q0' Q Q' Tr Tr' nSnps_c st :
  (forall s, 0 <= s < 4 -> Q0 s = Q0' s) ->
  (forall snp s, 1 <= snp < nSnps_c -> 0 <= s < 4 -> Q snp s = Q' snp s) ->
  (forall snp s1 s2, 1 <= snp < nSnps_c -> 0 <= s1 < 4 -> 0 <= s2 < 4 ->
     Tr snp s1 s2 = Tr' snp s1 s2) ->
  forward_ind Q0 Q Tr nSnps_c st = forward_ind Q0' Q' Tr' nSnps_c st.
Proof.
  intros H0 HQ HT. unfold forward_ind.
  rewrite (forward_first_ext Q0 Q0') by exact H0.
  apply for_loop_ext. intros snp s Hsnp.
  apply forward_next_ext; intros; [apply HQ|apply HT]; assumption.
Qed.

(** The pass over the markers [0 .. k] is the pass over [0 .. k - 1]
    followed by marker [k]. *)
Lemma forward_ind_last Q0 Q Tr k st :
  1 <= k ->
  forward_ind Q0 Q Tr (k + 1) st = forward_next Q Tr k (forward_ind Q0 Q Tr k st).
Proof.
  intros H. unfold forward_ind.
  rewrite for_loop_last by lia.
  now replace (k + 1 - 1) with k by lia.
Qed.

Lemma forward_ind_one Q0 Q Tr k st :
  k <= 1 -> forward_ind Q0 Q Tr k st = forward_first Q0 st.
Proof. intros H. unfold forward_ind. now rewrite for_loop_empty. Qed.

(** A full pass goes through the state that the pass over a prefix of the
    markers leaves. *)
Lemma forward_ind_prefix Q0 Q Tr k nSnps_c st :
  1 <= k <= nSnps_c ->
  forward_ind Q0 Q Tr nSnps_c st
  = for_loop k nSnps_c (forward_next Q Tr) (forward_ind Q0 Q Tr k st).
Proof. intros H. unfold forward_ind. now apply for_loop_split. Qed.

End ForwardExt.

(** ** The emission tables *)

Lemma flat_index_inj (nInd_c i s i' s' : Z) :
  0 <= i < nInd_c -> 0 <= i' < nInd_c ->
  i + s * nInd_c = i' + s' * nInd_c -> i = i' /\ s = s'.
Proof.
  intros Hi Hi' E.
  assert (Hs : s = s') by nia.
  subst s'. lia.
Qed.

Section Tables.

Context {T : Type} {ops : DoubleOps T}.
Implicit Types (tb : @tables T).

Lemma upd_same {V : Type} (a : Z -> V) i v : upd a i v i = v.
Proof. unfold upd. now rewrite Z.eqb_refl. Qed.

Lemma upd_other {V : Type} (a : Z -> V) i v j : j <> i -> upd a i v j = a j.
Proof. unfold upd. intros H. now apply Z.eqb_neq in H as ->. Qed.

(** After the loops of lines 93-99 every cell of the matrix holds the two
    densities of its own counts, whatever the arrays held before. *)
Lemma emission_tables_cell pep pref palt pbcoef_mat nInd_c nSnps_c tb ind snp :
  0 <= ind < nInd_c -> 0 <= snp < nSnps_c ->
  let index := ind + snp * nInd_c in
  let tb' := emission_tables pep pref palt pbcoef_mat nInd_c nSnps_c tb in
  pKaa tb' index
    = Kaa_cell (pbcoef_mat index) (pep snp) (pref index) (palt index) /\
  pKbb tb' index
    = Kbb_cell (pbcoef_mat index) (pep snp) (pref index) (palt index).
Proof.
  intros Hind Hsnp index tb'. subst index tb'.
  pose (ok := fun tb i s =>
    pKaa tb (i + s * nInd_c)
      = Kaa_cell (pbcoef_mat (i + s * nInd_c)) (pep s)
                 (pref (i + s * nInd_c)) (palt (i + s * nInd_c)) /\
    pKbb tb (i + s * nInd_c)
      = Kbb_cell (pbcoef_mat (i + s * nInd_c)) (pep s)
                 (pref (i + s * nInd_c)) (palt (i + s * nInd_c))).
  change (ok (emission_tables pep pref palt pbcoef_mat nInd_c nSnps_c tb) ind snp).
  assert (G : forall i s, 0 <= i < nInd_c -> 0 <= s < nSnps_c ->
            ok (emission_tables pep pref palt pbcoef_mat nInd_c nSnps_c tb) i s).
  { unfold emission_tables.
    apply for_loop_invariant
      with (P := fun k tb0 => forall i s, 0 <= i < k -> 0 <= s < nSnps_c -> ok tb0 i s).
    - lia.
    - intros; lia.
    - intros k tb0 Hk IHk. cbv beta.
      match goal with
      | |- forall i s, _ -> _ -> ok ?X i s =>
          assert (Inner : (forall i s, 0 <= i < k -> 0 <= s < nSnps_c -> ok X i s) /\
                          (forall s, 0 <= s < nSnps_c -> ok X k s))
      end.
      { destruct (Z_lt_le_dec nSnps_c 0) as [Hneg|Hpos].
        { rewrite for_loop_empty by lia. split; [exact IHk|intros; lia]. }
        apply for_loop_invariant
          with (P := fun m tb1 =>
                  (forall i s, 0 <= i < k -> 0 <= s < nSnps_c -> ok tb1 i s) /\
                  (forall s, 0 <= s < m -> ok tb1 k s)).
        + exact Hpos.
        + split; [exact IHk|intros; lia].
        + intros m tb1 Hm [IH1 IH2]. cbv zeta.
          split.
          * intros i s Hi Hs. unfold ok. cbn [pKaa pKbb set_pKaa set_pKbb].
            assert (i + s * nInd_c <> k + m * nInd_c).
            { intros E. apply flat_index_inj in E; lia. }
            rewrite !upd_other by assumption. now apply IH1.
          * intros s Hs. unfold ok. cbn [pKaa pKbb set_pKaa set_pKbb].
            destruct (Z.eq_dec s m) as [->|Hne].
            -- rewrite !upd_same. split; reflexivity.
            -- assert (k + s * nInd_c <> k + m * nInd_c).
               { intros E. apply flat_index_inj in E; lia. }
               rewrite !upd_other by assumption. apply IH2. lia. }
      destruct Inner as [IH1 IH2]. intros i s Hi Hs.
      destruct (Z.eq_dec i k) as [->|Hne]; [now apply IH2|apply IH1; lia]. }
  now apply G.
Qed.

(** After the loop of lines 271-274 every cell below [size] holds the two
    densities of its own counts. *)
Lemma emission_tables_up_cell ep_c pref palt pbcoef_mat nThreads_c nInd_c nSnps_c tb i :
  0 <= i < nSnps_c * nInd_c ->
  let tb' := emission_tables_up ep_c pref palt pbcoef_mat nThreads_c nInd_c nSnps_c tb in
  pKaa tb' i = Kaa_cell (pbcoef_mat i) ep_c (pref i) (palt i) /\
  pKbb tb' i = Kbb_cell (pbcoef_mat i) ep_c (pref i) (palt i).
Proof.
  intros Hi tb'. subst tb'.
  unfold emission_tables_up, omp_parallel_for. cbv zeta.
  assert (Hsize : 0 <= nSnps_c * nInd_c) by lia.
  revert i Hi.
  apply for_loop_invariant
    with (P := fun k tb0 => forall i, 0 <= i < k ->
            pKaa tb0 i = Kaa_cell (pbcoef_mat i) ep_c (pref i) (palt i) /\
            pKbb tb0 i = Kbb_cell (pbcoef_mat i) ep_c (pref i) (palt i)).
  - exact Hsize.
  - intros; lia.
  - intros k tb0 Hk IH i Hi. cbn [pKaa pKbb set_pKaa set_pKbb].
    destruct (Z.eq_dec i k) as [->|Hne].
    + rewrite !upd_same. split; reflexivity.
    + rewrite !upd_other by assumption. apply IH. lia.
Qed.

End Tables.

(** ** The forward pass on exact reals *)

Section RealForward.

Context {pf : ProbFun R}.
Implicit Types (st : @locals R).

Local Open Scope R_scope.

Lemma acc4_sum_states (f : Z -> R) : acc4 f = sum_states f.
Proof. unfold acc4, sum_states. cbn. ring. Qed.

Lemma sum_states_ext (f g : Z -> R) :
  (forall s, (0 <= s < 4)%Z -> f s = g s) -> sum_states f = sum_states g.
Proof.
  intros H. unfold sum_states.
  now rewrite (H 0%Z), (H 1%Z), (H 2%Z), (H 3%Z) by lia.
Qed.

(** The loops of the code compute the recursion of section 4.3: after the
    markers [0 .. k], [llval] has grown by the accumulator of the recursion
    and [alphaTilde] holds its rescaled forward vector. *)
Lemma forward_ind_refines (Q : Z -> Z -> R) (Tr : Z -> Z -> Z -> R) (k : nat) st :
  let st' := forward_ind (Q 0%Z) Q Tr (1 + Z.of_nat k) st in
  let f := forward_spec_upto (fun l s => Q (l - 1)%Z s) Tr k in
  llval st' = llval st + acc f /\
  (forall s, (0 <= s < 4)%Z -> alphaTilde st' s = alphaTilde_spec f s).
Proof.
  induction k as [|k [IHl IHa]]; cbv zeta.
  - rewrite forward_ind_one by (simpl; lia).
    split.
    + rewrite forward_first_llval, acc4_sum_states. reflexivity.
    + intros s Hs. rewrite forward_first_alphaTilde by exact Hs.
      rewrite acc4_sum_states. reflexivity.
  - replace (1 + Z.of_nat (Datatypes.S k))%Z with (1 + Z.of_nat k + 1)%Z by lia.
    rewrite forward_ind_last by lia.
    set (st' := forward_ind (Q 0%Z) Q Tr (1 + Z.of_nat k) st) in *.
    set (f := forward_spec_upto (fun l s => Q (l - 1)%Z s) Tr k) in *.
    assert (Edot : forall s2, next_dot Q Tr (1 + Z.of_nat k) (alphaTilde st') s2
                   = alphaDot_at (fun l s => Q (l - 1)%Z s) Tr (Z.of_nat k + 2)
                                 (alphaTilde_spec f) s2).
    { intros s2. unfold next_dot, alphaDot_at. rewrite acc4_sum_states.
      replace (Z.of_nat k + 2 - 1)%Z with (1 + Z.of_nat k)%Z by lia.
      cbn [dmul RealOps]. f_equal.
      apply sum_states_ext. intros s1 Hs1. cbv beta. now rewrite IHa. }
    assert (Ew : acc4 (next_dot Q Tr (1 + Z.of_nat k) (alphaTilde st'))
                 = sum_states (alphaDot_at (fun l s => Q (l - 1)%Z s) Tr
                                 (Z.of_nat k + 2) (alphaTilde_spec f))).
    { rewrite acc4_sum_states. apply sum_states_ext. intros; apply Edot. }
    split.
    + rewrite forward_next_llval, Ew, IHl.
      cbn [forward_spec_upto forward_spec_next acc dadd dlog RealOps]. fold f.
      ring.
    + intros s Hs. rewrite forward_next_alphaTilde by exact Hs.
      rewrite Ew, Edot. reflexivity.
Qed.

(** The same for any bound of the loop over markers: a bound below 2 leaves
    the first marker alone. *)
Lemma forward_ind_llval (Q : Z -> Z -> R) (Tr : Z -> Z -> Z -> R) (nSnps_c : Z) st :
  llval (forward_ind (Q 0%Z) Q Tr nSnps_c st)
  = llval st + acc (forward_spec (fun l s => Q (l - 1)%Z s) Tr nSnps_c).
Proof.
  unfold forward_spec.
  destruct (forward_ind_refines Q Tr (Z.to_nat (nSnps_c - 1)) st) as [E _].
  rewrite <- E. f_equal.
  destruct (Z_lt_le_dec nSnps_c 1) as [Hlt|Hge].
  - replace (Z.to_nat (nSnps_c - 1)) with O by lia.
    now rewrite !forward_ind_one by (simpl; lia).
  - f_equal. lia.
Qed.

(** The recursion only looks at the emissions of the four states at the
    markers below its bound, and at the transitions across the gaps between
    them. *)
Lemma forward_spec_upto_ext (em em' : Z -> Z -> R) (tr tr' : Z -> Z -> Z -> R) (k : nat) :
  (forall l s, (1 <= l <= Z.of_nat k + 1)%Z -> (0 <= s < 4)%Z -> em l s = em' l s) ->
  (forall g s1 s2, (1 <= g <= Z.of_nat k)%Z -> (0 <= s1 < 4)%Z -> (0 <= s2 < 4)%Z ->
     tr g s1 s2 = tr' g s1 s2) ->
  acc (forward_spec_upto em tr k) = acc (forward_spec_upto em' tr' k) /\
  (forall s, (0 <= s < 4)%Z ->
     alphaTilde_spec (forward_spec_upto em tr k) s
     = alphaTilde_spec (forward_spec_upto em' tr' k) s).
Proof.
  induction k as [|k IH]; intros Hem Htr.
  - assert (Edot : forall s, (0 <= s < 4)%Z ->
              alphaDot_first em s = alphaDot_first em' s).
    { intros s Hs. unfold alphaDot_first. rewrite Hem by (simpl; lia). reflexivity. }
    cbn [forward_spec_upto forward_spec_first acc alphaTilde_spec].
    rewrite (sum_states_ext _ _ Edot).
    split; [reflexivity|]. intros s Hs. now rewrite Edot.
  - destruct IH as [IHl IHa].
    { intros; apply Hem; lia. }
    { intros; apply Htr; lia. }
    assert (Edot : forall s2, (0 <= s2 < 4)%Z ->
              alphaDot_at em tr (Z.of_nat k + 2)
                (alphaTilde_spec (forward_spec_upto em tr k)) s2
              = alphaDot_at em' tr' (Z.of_nat k + 2)
                (alphaTilde_spec (forward_spec_upto em' tr' k)) s2).
    { intros s2 Hs2. unfold alphaDot_at. rewrite Hem by lia. f_equal.
      apply sum_states_ext. intros s1 Hs1. cbv beta.
      rewrite Htr, IHa by lia. reflexivity. }
    cbn [forward_spec_upto forward_spec_next acc alphaTilde_spec].
    rewrite (sum_states_ext _ _ Edot), IHl.
    split; [reflexivity|]. intros s Hs. now rewrite Edot.
Qed.

Lemma forward_spec_ext (em em' : Z -> Z -> R) (tr tr' : Z -> Z -> Z -> R) (n : Z) :
  (forall l s, (1 <= l <= Z.max 1 n)%Z -> (0 <= s < 4)%Z -> em l s = em' l s) ->
  (forall g s1 s2, (1 <= g < n)%Z -> (0 <= s1 < 4)%Z -> (0 <= s2 < 4)%Z ->
     tr g s1 s2 = tr' g s1 s2) ->
  acc (forward_spec em tr n) = acc (forward_spec em' tr' n).
Proof.
  intros Hem Htr. unfold forward_spec.
  apply forward_spec_upto_ext; intros; [apply Hem|apply Htr]; lia.
Qed.

(** A loop whose iterations each add something to [llval] adds the sum. *)
Lemma for_loop_llval (body : Z -> @locals R -> @locals R) (c : Z -> R) (n : Z) st :
  (forall i s, (0 <= i < n)%Z -> llval (body i s) = llval s + c i) ->
  llval (for_loop 0 n body st) = llval st + Rsum_upto c (Z.to_nat n).
Proof.
  intros Hb.
  destruct (Z_lt_le_dec n 0) as [Hneg|Hpos].
  { rewrite for_loop_empty by lia.
    replace (Z.to_nat n) with O by lia. simpl. ring. }
  apply for_loop_invariant
    with (P := fun i s => llval s = llval st + Rsum_upto c (Z.to_nat i)).
  - exact Hpos.
  - simpl. ring.
  - intros i s Hi IH. rewrite Hb by exact Hi. rewrite IH.
    replace (Z.to_nat (i + 1)) with (Datatypes.S (Z.to_nat i)) by lia.
    simpl. rewrite Z2Nat.id by lia. ring.
Qed.

End RealForward.

(** ** The recursion of each variant *)

Section RealVariants.

Context {pf : ProbFun R}.
Implicit Types (st : @locals R) (tb : @tables R).

Local Open Scope R_scope.

(** The general form of [forward_ind_llval]: the emission call of the first
    marker need not be the one of the other markers at index 0. *)
Lemma forward_ind_llval_gen (Q0 : Z -> R) (Q : Z -> Z -> R) (Tr : Z -> Z -> Z -> R)
    (nSnps_c : Z) st :
  llval (forward_ind Q0 Q Tr nSnps_c st)
  = llval st
    + acc (forward_spec (fun l s => if (l =? 1)%Z then Q0 s else Q (l - 1)%Z s)
                        Tr nSnps_c).
Proof.
  pose (Q' := fun snp s => if (snp =? 0)%Z then Q0 s else Q snp s).
  rewrite (forward_ind_ext Q0 (Q' 0%Z) Q Q' Tr Tr).
  - rewrite (forward_ind_llval Q' Tr nSnps_c st).
    f_equal. apply forward_spec_ext.
    + intros l s Hl Hs. unfold Q'.
      destruct (Z.eqb_spec l 1) as [->|Hne]; [reflexivity|].
      destruct (Z.eqb_spec (l - 1) 0); [lia|reflexivity].
    + reflexivity.
  - reflexivity.
  - intros snp s Hsnp Hs. unfold Q'. destruct (Z.eqb_spec snp 0); [lia|reflexivity].
  - reflexivity.
Qed.

(** The body of the loop over individuals adds to [llval] what it leaves
    there when it starts from the initial state. *)
Lemma forward_ind_adds (Q0 : Z -> R) (Q : Z -> Z -> R) (Tr : Z -> Z -> Z -> R)
    (nSnps_c : Z) st :
  llval (forward_ind Q0 Q Tr nSnps_c st)
  = llval st + llval (forward_ind Q0 Q Tr nSnps_c locals_init).
Proof.
  rewrite (forward_ind_llval_gen Q0 Q Tr nSnps_c st).
  rewrite (forward_ind_llval_gen Q0 Q Tr nSnps_c locals_init).
  cbn [llval locals_init ofZ RealOps]. ring.
Qed.

(** C1.  For every individual and in each of the three functions, the body
    of the loop over individuals adds to [llval] the accumulator of the
    scaled forward recursion of section 4.3: [alphaDot = 0.25 * emission] at
    the first marker, the accumulator started at the logarithm of the sum of
    the four values, [alphaTilde = alphaDot / sum]; then for each further
    marker [alphaDot[s2] = emission * sum over s1 of transition * alphaTilde],
    [w_new] their sum, [log w_new] added, [alphaTilde = alphaDot / w_new].
    The emissions are the calls of [Qentry] (of [Qentry_up] in the unphased
    function) on the cell of the individual at the marker, the transitions
    the calls of [Tmat] (of [Tmat_ss] in the sex-specific functions) on the
    recombination fraction(s) of the gap. *)
Theorem scaled_forward_recursion
    (r : Z -> R) tb (Kab : Z -> R) (OPGP config : Z -> Z) (nInd nSnps ind : Z) st :
  llval (ll_fs_scaled_err_ind r tb Kab OPGP nInd nSnps ind st)
  = llval st
    + acc (forward_spec (emission_phased OPGP (pKaa tb) Kab (pKbb tb) nInd ind)
                        (transition_shared r) nSnps)
  /\
  llval (ll_fs_ss_scaled_err_ind r tb Kab OPGP nInd nSnps ind st)
  = llval st
    + acc (forward_spec (emission_phased OPGP (pKaa tb) Kab (pKbb tb) nInd ind)
                        (transition_sex_specific r (fun k => r (k + (nSnps - 1))%Z))
                        nSnps)
  /\
  llval (ll_fs_up_ss_scaled_err_ind r tb Kab config nInd nSnps ind st)
  = llval st
    + acc (forward_spec (emission_unphased config (pKaa tb) Kab (pKbb tb) nInd ind)
                        (transition_sex_specific r (fun k => r (k + (nSnps - 1))%Z))
                        nSnps).
Proof.
  assert (Eidx : forall l, (ind + nInd * (l - 1))%Z = (ind + (l - 1) * nInd)%Z)
    by (intros; lia).
  assert (Hss : forall g s1 s2,
            ss_Tr r nSnps g s1 s2
            = transition_sex_specific r (fun k => r (k + (nSnps - 1))%Z) g s1 s2).
  { intros g s1 s2. unfold ss_Tr, transition_sex_specific.
    now replace (g - 1 + nSnps - 1)%Z with (g - 1 + (nSnps - 1))%Z by lia. }
  unfold ll_fs_scaled_err_ind, ll_fs_ss_scaled_err_ind, ll_fs_up_ss_scaled_err_ind.
  rewrite !forward_ind_llval_gen.
  repeat split; f_equal; apply forward_spec_ext;
    try (intros g s1 s2 _ _ _; first [apply Hss | reflexivity]).
  - intros l s Hl Hs. unfold emission_phased, fs_Q0, fs_Q.
    destruct (Z.eqb_spec l 1) as [->|Hne].
    + now rewrite Z.sub_diag, Z.mul_0_l, Z.add_0_r.
    + now rewrite Eidx.
  - intros l s Hl Hs. unfold emission_phased, fs_Q0, fs_Q.
    destruct (Z.eqb_spec l 1) as [->|Hne].
    + now rewrite Z.sub_diag, Z.mul_0_l, Z.add_0_r.
    + now rewrite Eidx.
  - intros l s Hl Hs. unfold emission_unphased, up_Q0, up_Q.
    destruct (Z.eqb_spec l 1) as [->|Hne].
    + now rewrite Z.sub_diag, Z.mul_0_l, Z.add_0_r.
    + now rewrite Eidx.
Qed.

End RealVariants.

(** ** One individual alone *)

Section Rows.

Context {T : Type} {ops : DoubleOps T} {pf : ProbFun T}.
Implicit Types (st : @locals T).

Lemma for_loop_0_1 {S : Type} (body : Z -> S -> S) (s : S) :
  for_loop 0 1 body s = body 0 s.
Proof. reflexivity. Qed.

(** The tables built from the row of [ind] hold at marker [snp] what the
    tables built from the whole matrices hold in the cell of [ind] at
    [snp]. *)
Lemma emission_tables_row pep pref palt pbcoef_mat nInd_c nSnps_c ind snp :
  0 <= ind < nInd_c -> 0 <= snp < nSnps_c ->
  let tb1 := emission_tables pep (row nInd_c ind pref) (row nInd_c ind palt)
               (row nInd_c ind pbcoef_mat) 1 nSnps_c tables_uninit in
  let tb := emission_tables pep pref palt pbcoef_mat nInd_c nSnps_c tables_uninit in
  pKaa tb1 snp = pKaa tb (ind + nInd_c * snp) /\
  pKbb tb1 snp = pKbb tb (ind + nInd_c * snp).
Proof.
  intros Hind Hsnp tb1 tb. subst tb1 tb.
  destruct (emission_tables_cell pep (row nInd_c ind pref) (row nInd_c ind palt)
              (row nInd_c ind pbcoef_mat) 1 nSnps_c tables_uninit 0 snp)
    as [A1 B1]; [lia|lia|].
  destruct (emission_tables_cell pep pref palt pbcoef_mat nInd_c nSnps_c
              tables_uninit ind snp) as [A B]; [lia|lia|].
  replace (0 + snp * 1) with snp in A1, B1 by lia.
  replace (ind + snp * nInd_c) with (ind + nInd_c * snp) in A, B by lia.
  rewrite A1, B1, A, B. unfold row. split; reflexivity.
Qed.

Lemma emission_tables_up_row ep_c pref palt pbcoef_mat nThreads_c nInd_c nSnps_c ind snp :
  0 <= ind < nInd_c -> 0 <= snp < nSnps_c ->
  let tb1 := emission_tables_up ep_c (row nInd_c ind pref) (row nInd_c ind palt)
               (row nInd_c ind pbcoef_mat) nThreads_c 1 nSnps_c tables_uninit in
  let tb := emission_tables_up ep_c pref palt pbcoef_mat nThreads_c nInd_c nSnps_c
              tables_uninit in
  pKaa tb1 snp = pKaa tb (ind + nInd_c * snp) /\
  pKbb tb1 snp = pKbb tb (ind + nInd_c * snp).
Proof.
  intros Hind Hsnp tb1 tb. subst tb1 tb.
  destruct (emission_tables_up_cell ep_c (row nInd_c ind pref) (row nInd_c ind palt)
              (row nInd_c ind pbcoef_mat) nThreads_c 1 nSnps_c tables_uninit snp)
    as [A1 B1]; [lia|].
  destruct (emission_tables_up_cell ep_c pref palt pbcoef_mat nThreads_c nInd_c nSnps_c
              tables_uninit (ind + nInd_c * snp)) as [A B]; [nia|].
  rewrite A1, B1, A, B. unfold row. split; reflexivity.
Qed.

(** The body of the loop over individuals, run on the rows of [ind] as a
    data set of one individual, is the body run for [ind] on the whole
    data. *)
Lemma ll_fs_scaled_err_ind_row pr pep pref palt pbcoef_mat pKab pOPGP nInd_c nSnps_c ind st :
  0 <= ind < nInd_c -> 0 < nSnps_c ->
  ll_fs_scaled_err_ind pr
    (emission_tables pep (row nInd_c ind pref) (row nInd_c ind palt)
       (row nInd_c ind pbcoef_mat) 1 nSnps_c tables_uninit)
    (row nInd_c ind pKab) pOPGP 1 nSnps_c 0 st
  = ll_fs_scaled_err_ind pr
      (emission_tables pep pref palt pbcoef_mat nInd_c nSnps_c tables_uninit)
      pKab pOPGP nInd_c nSnps_c ind st.
Proof.
  intros Hind Hsnps. unfold ll_fs_scaled_err_ind.
  apply forward_ind_ext.
  - intros s Hs. unfold fs_Q0.
    destruct (emission_tables_row pep pref palt pbcoef_mat nInd_c nSnps_c ind 0)
      as [A B]; [lia|lia|].
    rewrite A, B. unfold row.
    now replace (ind + nInd_c * 0) with ind by lia.
  - intros snp s Hsnp Hs. unfold fs_Q.
    destruct (emission_tables_row pep pref palt pbcoef_mat nInd_c nSnps_c ind snp)
      as [A B]; [lia|lia|].
    replace (0 + 1 * snp) with snp by lia.
    rewrite A, B. reflexivity.
  - reflexivity.
Qed.

Lemma ll_fs_ss_scaled_err_ind_row pr pKaa0 pKab pKbb0 pOPGP nInd_c nSnps_c ind st :
  ll_fs_ss_scaled_err_ind pr
    (mkTables (row nInd_c ind pKaa0) (row nInd_c ind pKbb0))
    (row nInd_c ind pKab) pOPGP 1 nSnps_c 0 st
  = ll_fs_ss_scaled_err_ind pr (mkTables pKaa0 pKbb0) pKab pOPGP nInd_c nSnps_c ind st.
Proof.
  unfold ll_fs_ss_scaled_err_ind.
  apply forward_ind_ext.
  - intros s Hs. unfold fs_Q0, row. cbn [pKaa pKbb].
    now replace (ind + nInd_c * 0) with ind by lia.
  - intros snp s Hsnp Hs. unfold fs_Q, row. cbn [pKaa pKbb].
    now replace (0 + 1 * snp) with snp by lia.
  - reflexivity.
Qed.

Lemma ll_fs_up_ss_scaled_err_ind_row pr ep_c pref palt pbcoef_mat pKab pconfig
    nThreads_c nInd_c nSnps_c ind st :
  0 <= ind < nInd_c -> 0 < nSnps_c ->
  ll_fs_up_ss_scaled_err_ind pr
    (emission_tables_up ep_c (row nInd_c ind pref) (row nInd_c ind palt)
       (row nInd_c ind pbcoef_mat) nThreads_c 1 nSnps_c tables_uninit)
    (row nInd_c ind pKab) pconfig 1 nSnps_c 0 st
  = ll_fs_up_ss_scaled_err_ind pr
      (emission_tables_up ep_c pref palt pbcoef_mat nThreads_c nInd_c nSnps_c
         tables_uninit)
      pKab pconfig nInd_c nSnps_c ind st.
Proof.
  intros Hind Hsnps. unfold ll_fs_up_ss_scaled_err_ind.
  apply forward_ind_ext.
  - intros s Hs. unfold up_Q0.
    destruct (emission_tables_up_row ep_c pref palt pbcoef_mat nThreads_c
                nInd_c nSnps_c ind 0) as [A B]; [lia|lia|].
    rewrite A, B. unfold row.
    now replace (ind + nInd_c * 0) with ind by lia.
  - intros snp s Hsnp Hs. unfold up_Q.
    destruct (emission_tables_up_row ep_c pref palt pbcoef_mat nThreads_c
                nInd_c nSnps_c ind snp) as [A B]; [lia|lia|].
    replace (0 + 1 * snp) with snp by lia.
    rewrite A, B. reflexivity.
  - reflexivity.
Qed.

End Rows.

(** ** The sum over the individuals *)

Section RealReduction.

Context {pf : ProbFun R}.

Local Open Scope R_scope.

(** C3.  In each of the three functions the value returned is the negation
    of the sum, over the individuals and with no weights, of what the body
    of the loop over individuals computes for each of them from the initial
    state; and that contribution is the one the same function computes, up
    to the sign, when it is called on this individual alone (its rows as the
    matrices of one individual) with the same recombination fractions, error
    rates and codes. *)
Theorem negated_sum_of_contributions (maxThreads : Z)
    (r ep : Z -> R) (ref alt : Z -> Z) (bcoef_mat Kaa Kab Kbb : Z -> R)
    (OPGP config : Z -> Z) (nInd nSnps nThreads : Z) :
  ll_fs_scaled_err_c maxThreads r ep ref alt bcoef_mat Kab OPGP nInd nSnps nThreads
  = - Rsum_upto (ll_fs_scaled_err_contribution r ep ref alt bcoef_mat Kab OPGP
                   nInd nSnps) (Z.to_nat nInd)
  /\
  ll_fs_ss_scaled_err_c r Kaa Kab Kbb OPGP nInd nSnps
  = - Rsum_upto (ll_fs_ss_scaled_err_contribution r Kaa Kab Kbb OPGP nInd nSnps)
                (Z.to_nat nInd)
  /\
  ll_fs_up_ss_scaled_err_c maxThreads r bcoef_mat ep ref alt Kab config
    nInd nSnps nThreads
  = - Rsum_upto (ll_fs_up_ss_scaled_err_contribution maxThreads r bcoef_mat ep
                   ref alt Kab config nInd nSnps nThreads) (Z.to_nat nInd)
  /\
  (forall ind, (0 <= ind < nInd)%Z -> (0 < nSnps)%Z ->
     ll_fs_scaled_err_c maxThreads r ep (row nInd ind ref) (row nInd ind alt)
       (row nInd ind bcoef_mat) (row nInd ind Kab) OPGP 1 nSnps nThreads
     = - ll_fs_scaled_err_contribution r ep ref alt bcoef_mat Kab OPGP nInd nSnps ind
     /\
     ll_fs_ss_scaled_err_c r (row nInd ind Kaa) (row nInd ind Kab) (row nInd ind Kbb)
       OPGP 1 nSnps
     = - ll_fs_ss_scaled_err_contribution r Kaa Kab Kbb OPGP nInd nSnps ind
     /\
     ll_fs_up_ss_scaled_err_c maxThreads r (row nInd ind bcoef_mat) ep
       (row nInd ind ref) (row nInd ind alt) (row nInd ind Kab) config
       1 nSnps nThreads
     = - ll_fs_up_ss_scaled_err_contribution maxThreads r bcoef_mat ep ref alt Kab
           config nInd nSnps nThreads ind).
Proof.
  assert (Hneg : forall x : R, dmul (ofZ (-1)) x = - x)
    by (intros x; cbn [dmul ofZ RealOps]; ring).
  assert (H0 : forall c : R, llval (@locals_init R _) + c = c)
    by (intros c; cbn [llval locals_init ofZ RealOps]; ring).
  split; [|split; [|split]].
  - unfold ll_fs_scaled_err_c, ll_fs_scaled_err_loop, omp_parallel_for. cbv zeta.
    rewrite Hneg. f_equal.
    rewrite for_loop_llval
      with (c := ll_fs_scaled_err_contribution r ep ref alt bcoef_mat Kab OPGP
                   nInd nSnps).
    + apply H0.
    + intros i s _. unfold ll_fs_scaled_err_contribution, ll_fs_scaled_err_ind.
      cbv zeta. apply forward_ind_adds.
  - unfold ll_fs_ss_scaled_err_c, ll_fs_ss_scaled_err_loop. cbv zeta.
    rewrite Hneg. f_equal.
    rewrite for_loop_llval
      with (c := ll_fs_ss_scaled_err_contribution r Kaa Kab Kbb OPGP nInd nSnps).
    + apply H0.
    + intros i s _. unfold ll_fs_ss_scaled_err_contribution, ll_fs_ss_scaled_err_ind.
      apply forward_ind_adds.
  - unfold ll_fs_up_ss_scaled_err_c, ll_fs_up_ss_scaled_err_loop, omp_parallel_for.
    cbv zeta. rewrite Hneg. f_equal.
    rewrite for_loop_llval
      with (c := ll_fs_up_ss_scaled_err_contribution maxThreads r bcoef_mat ep
                   ref alt Kab config nInd nSnps nThreads).
    + apply H0.
    + intros i s _.
      unfold ll_fs_up_ss_scaled_err_contribution, ll_fs_up_ss_scaled_err_ind.
      cbv zeta. apply forward_ind_adds.
  - intros ind Hind Hsnps. split; [|split].
    + unfold ll_fs_scaled_err_c, ll_fs_scaled_err_loop, omp_parallel_for,
        ll_fs_scaled_err_contribution. cbv zeta.
      rewrite Hneg, for_loop_0_1. f_equal. f_equal.
      now apply ll_fs_scaled_err_ind_row.
    + unfold ll_fs_ss_scaled_err_c, ll_fs_ss_scaled_err_loop,
        ll_fs_ss_scaled_err_contribution. cbv zeta.
      rewrite Hneg, for_loop_0_1. f_equal. f_equal.
      apply ll_fs_ss_scaled_err_ind_row.
    + unfold ll_fs_up_ss_scaled_err_c, ll_fs_up_ss_scaled_err_loop, omp_parallel_for,
        ll_fs_up_ss_scaled_err_contribution. cbv zeta.
      rewrite Hneg, for_loop_0_1. f_equal. f_equal.
      now apply ll_fs_up_ss_scaled_err_ind_row.
Qed.

End RealReduction.

Lemma negated_sum_of_contributions_witness :
  (0 <= 1 < 2)%Z /\ (0 < 2)%Z /\
  ll_fs_scaled_err_c (pf := ExampleProbFun) 4 ex_r ex_ep
    (row 2 1 ex_ref) (row 2 1 ex_alt) (row 2 1 ex_bcoef) (row 2 1 ex_Kab)
    ex_code 1 2 0
  = (- ll_fs_scaled_err_contribution (pf := ExampleProbFun) ex_r ex_ep ex_ref ex_alt
         ex_bcoef ex_Kab ex_code 2 2 1)%R.
Proof.
  split; [lia|]. split; [lia|].
  apply (negated_sum_of_contributions (pf := ExampleProbFun) 4 ex_r ex_ep ex_ref
           ex_alt ex_bcoef ex_Kab ex_Kab ex_Kab ex_code ex_code 2 2 0); lia.
Defined.

(** ** Rescaling *)

Section RealRescaling.

Context {pf : ProbFun R}.
Implicit Types (st : @locals R) (tb : @tables R).

Local Open Scope R_scope.

Lemma sum_states_rescaled (d : Z -> R) :
  sum_states d <> 0 -> sum_states (fun s => d s / sum_states d) = 1.
Proof.
  intros H. unfold sum_states in *. field. exact H.
Qed.

(** When the block of a marker ends, [alphaDot] holds the four values whose
    sum was the weight of the step and [alphaTilde] their quotients by it. *)
Lemma forward_ind_rescaled (Q0 : Z -> R) (Q : Z -> Z -> R) (Tr : Z -> Z -> Z -> R)
    (k : Z) st :
  let st' := forward_ind Q0 Q Tr (k + 1) st in
  forall s, (0 <= s < 4)%Z ->
    alphaTilde st' s = alphaDot st' s / sum_states (alphaDot st').
Proof.
  intros st' s Hs. subst st'.
  destruct (Z_lt_le_dec k 1) as [Hlt|Hge].
  - rewrite forward_ind_one by lia.
    rewrite forward_first_alphaTilde, forward_first_alphaDot, acc4_sum_states by exact Hs.
    cbn [ddiv RealOps].
    f_equal; apply sum_states_ext; intros s' Hs'; now rewrite forward_first_alphaDot.
  - rewrite forward_ind_last by lia.
    rewrite forward_next_alphaTilde, forward_next_alphaDot, acc4_sum_states by exact Hs.
    cbn [ddiv RealOps].
    f_equal; apply sum_states_ext; intros s' Hs'; now rewrite forward_next_alphaDot.
Qed.

Lemma forward_ind_normalized (Q0 : Z -> R) (Q : Z -> Z -> R) (Tr : Z -> Z -> Z -> R)
    (k : Z) st :
  let st' := forward_ind Q0 Q Tr (k + 1) st in
  sum_states (alphaDot st') <> 0 -> sum_states (alphaTilde st') = 1.
Proof.
  intros st' H.
  rewrite <- (sum_states_rescaled (alphaDot st') H).
  apply sum_states_ext. intros s Hs. now apply forward_ind_rescaled.
Qed.

(** C5.  In each of the three functions, for every individual and every
    marker: if the weight of the step, the sum of the four [alphaDot], is
    positive, then the four [alphaTilde] left by the rescaling division sum
    to 1. *)
Theorem rescaled_forward_vector_sums_to_one
    (r : Z -> R) tb (Kab : Z -> R) (OPGP config : Z -> Z) (nInd nSnps ind snp : Z) st :
  (let st' := ll_fs_scaled_err_upto r tb Kab OPGP nInd ind snp st in
   0 < sum_states (alphaDot st') -> sum_states (alphaTilde st') = 1) /\
  (let st' := ll_fs_ss_scaled_err_upto r tb Kab OPGP nInd nSnps ind snp st in
   0 < sum_states (alphaDot st') -> sum_states (alphaTilde st') = 1) /\
  (let st' := ll_fs_up_ss_scaled_err_upto r tb Kab config nInd nSnps ind snp st in
   0 < sum_states (alphaDot st') -> sum_states (alphaTilde st') = 1).
Proof.
  unfold ll_fs_scaled_err_upto, ll_fs_ss_scaled_err_upto, ll_fs_up_ss_scaled_err_upto.
  repeat split; cbv zeta; intros H; apply forward_ind_normalized; lra.
Qed.

End RealRescaling.

(** The state after a marker is a state of the run: the body of the loop
    over individuals goes on from it with the remaining markers. *)
Lemma ll_fs_scaled_err_upto_run {T : Type} {ops : DoubleOps T} {pf : ProbFun T}
    pr tb pKab pOPGP nInd_c nSnps_c ind snp (st : @locals T) :
  0 <= snp < nSnps_c ->
  ll_fs_scaled_err_ind pr tb pKab pOPGP nInd_c nSnps_c ind st
  = for_loop (snp + 1) nSnps_c
      (forward_next (fs_Q pOPGP tb pKab nInd_c ind) (fs_Tr pr))
      (ll_fs_scaled_err_upto pr tb pKab pOPGP nInd_c ind snp st).
Proof. intros H. apply forward_ind_prefix. lia. Qed.

Lemma ll_fs_ss_scaled_err_upto_run {T : Type} {ops : DoubleOps T} {pf : ProbFun T}
    pr tb pKab pOPGP nInd_c nSnps_c ind snp (st : @locals T) :
  0 <= snp < nSnps_c ->
  ll_fs_ss_scaled_err_ind pr tb pKab pOPGP nInd_c nSnps_c ind st
  = for_loop (snp + 1) nSnps_c
      (forward_next (fs_Q pOPGP tb pKab nInd_c ind) (ss_Tr pr nSnps_c))
      (ll_fs_ss_scaled_err_upto pr tb pKab pOPGP nInd_c nSnps_c ind snp st).
Proof. intros H. apply forward_ind_prefix. lia. Qed.

Lemma ll_fs_up_ss_scaled_err_upto_run {T : Type} {ops : DoubleOps T} {pf : ProbFun T}
    pr tb pKab pconfig nInd_c nSnps_c ind snp (st : @locals T) :
  0 <= snp < nSnps_c ->
  ll_fs_up_ss_scaled_err_ind pr tb pKab pconfig nInd_c nSnps_c ind st
  = for_loop (snp + 1) nSnps_c
      (forward_next (up_Q pconfig tb pKab nInd_c ind) (ss_Tr pr nSnps_c))
      (ll_fs_up_ss_scaled_err_upto pr tb pKab pconfig nInd_c nSnps_c ind snp st).
Proof. intros H. apply forward_ind_prefix. lia. Qed.

(** ** The transition model of the specification *)

Section RealTransitions.

Local Open Scope R_scope.

(** C4.  For every source state [s1] and every recombination fraction (a
    pair of them in the sex-specific model), the four transition
    probabilities of the transition model of section 4.2 sum to 1; the
    range [[0, 1]] of the fractions plays no part. *)
Theorem transition_probabilities_sum_to_one (s1 : Z) (r r_pat r_mat : R) :
  sum_states (fun s2 => Tmat_spec s1 s2 r) = 1 /\
  sum_states (fun s2 => Tmat_ss_spec s1 s2 r_pat r_mat) = 1.
Proof.
  unfold sum_states, Tmat_spec, Tmat_ss_spec, bit_prob, pat_bit, mat_bit.
  destruct (Z.testbit s1 1), (Z.testbit s1 0); cbn; split; ring.
Qed.

End RealTransitions.

(** ** The densities in the tables *)

Section RealTables.

Local Open Scope R_scope.

Lemma powerRZ_to_nat (x : R) (n : Z) : (0 <= n)%Z -> powerRZ x n = x ^ Z.to_nat n.
Proof.
  intros H. rewrite pow_powerRZ. now rewrite Z2Nat.id.
Qed.

Lemma Kaa_cell_real (bcoef ep : R) (ref alt : Z) :
  (0 <= ref)%Z -> (0 <= alt)%Z ->
  Kaa_cell bcoef ep ref alt = bcoef * (1 - ep) ^ Z.to_nat ref * ep ^ Z.to_nat alt.
Proof.
  intros Hr Ha. unfold Kaa_cell. cbn [dmul dsub dpow dbl_one RealOps].
  now rewrite !powerRZ_to_nat.
Qed.

Lemma Kbb_cell_real (bcoef ep : R) (ref alt : Z) :
  (0 <= ref)%Z -> (0 <= alt)%Z ->
  Kbb_cell bcoef ep ref alt = bcoef * (1 - ep) ^ Z.to_nat alt * ep ^ Z.to_nat ref.
Proof.
  intros Hr Ha. unfold Kbb_cell. cbn [dmul dsub dpow dbl_one RealOps].
  now rewrite !powerRZ_to_nat.
Qed.

(** C2.  For every cell of the matrix whose two counts are not negative, the
    tables hold [Kaa = bcoef * (1 - ep)^ref * ep^alt] and
    [Kbb = bcoef * (1 - ep)^alt * ep^ref], with the error rate of the marker
    in [ll_fs_scaled_err_c] and the one error rate in
    [ll_fs_up_ss_scaled_err_c]; a power with exponent 0 is 1 whatever the
    base, so that a cell with no reads holds [bcoef] twice. *)
Theorem emission_densities
    (ep : Z -> R) (ref alt : Z -> Z) (bcoef_mat : Z -> R)
    (nInd nSnps nThreads_c ind snp : Z) :
  (0 <= ind < nInd)%Z -> (0 <= snp < nSnps)%Z ->
  let i := (ind + snp * nInd)%Z in
  (0 <= ref i)%Z -> (0 <= alt i)%Z ->
  let tb := emission_tables ep ref alt bcoef_mat nInd nSnps tables_uninit in
  let tb_up := emission_tables_up (ep 0%Z) ref alt bcoef_mat nThreads_c nInd nSnps
                 tables_uninit in
  (pKaa tb i
     = bcoef_mat i * (1 - ep snp) ^ Z.to_nat (ref i) * ep snp ^ Z.to_nat (alt i) /\
   pKbb tb i
     = bcoef_mat i * (1 - ep snp) ^ Z.to_nat (alt i) * ep snp ^ Z.to_nat (ref i)) /\
  (pKaa tb_up i
     = bcoef_mat i * (1 - ep 0%Z) ^ Z.to_nat (ref i) * ep 0%Z ^ Z.to_nat (alt i) /\
   pKbb tb_up i
     = bcoef_mat i * (1 - ep 0%Z) ^ Z.to_nat (alt i) * ep 0%Z ^ Z.to_nat (ref i)) /\
  (ref i = 0%Z -> alt i = 0%Z ->
   pKaa tb i = bcoef_mat i /\ pKbb tb i = bcoef_mat i /\
   pKaa tb_up i = bcoef_mat i /\ pKbb tb_up i = bcoef_mat i).
Proof.
  intros Hind Hsnp i Href Halt tb tb_up.
  destruct (emission_tables_cell ep ref alt bcoef_mat nInd nSnps tables_uninit
              ind snp Hind Hsnp) as [A B].
  destruct (emission_tables_up_cell (ep 0%Z) ref alt bcoef_mat nThreads_c nInd nSnps
              tables_uninit i) as [A' B']; [subst i; nia|].
  cbv zeta in A, B, A', B'. fold i in A, B. fold tb in A, B. fold tb_up in A', B'.
  rewrite Kaa_cell_real in A, A' by assumption.
  rewrite Kbb_cell_real in B, B' by assumption.
  repeat split; try assumption;
    match goal with
    | Hr : ref i = 0%Z, Ha : alt i = 0%Z |- _ =>
        rewrite ?A, ?B, ?A', ?B', Hr, Ha; simpl; ring
    end.
Qed.

End RealTables.

Lemma emission_densities_witness :
  (0 <= 1 < 2) /\ (0 <= 1 < 2) /\ 0 <= ex_ref 3 /\ 0 <= ex_alt 3 /\
  (pKaa (emission_tables ex_ep ex_ref ex_alt ex_bcoef 2 2 tables_uninit) 3
   = ex_bcoef 3 * (1 - ex_ep 1) ^ Z.to_nat (ex_ref 3) * ex_ep 1 ^ Z.to_nat (ex_alt 3))%R.
Proof.
  split; [lia|]. split; [lia|].
  split; [vm_compute; discriminate|]. split; [vm_compute; discriminate|].
  apply (emission_densities ex_ep ex_ref ex_alt ex_bcoef 2 2 1 1 1);
    [lia | lia | vm_compute; discriminate | vm_compute; discriminate].
Defined.

(** ** The number of threads *)

(** C7.  Whatever number of threads is requested, [nThreads_c] is set without
    any error path: to the maximum when the request is 0 or less, to the
    maximum when the request exceeds it, to the request otherwise; with a
    maximum of at least one thread, which is what [omp_get_max_threads]
    returns, the number used lies between 1 and the maximum. *)
Theorem thread_count_normalized (nThreads maxThreads : Z) :
  1 <= maxThreads ->
  (nThreads <= 0 -> set_up_threads nThreads maxThreads = maxThreads) /\
  (maxThreads < nThreads -> set_up_threads nThreads maxThreads = maxThreads) /\
  (1 <= nThreads <= maxThreads -> set_up_threads nThreads maxThreads = nThreads) /\
  1 <= set_up_threads nThreads maxThreads <= maxThreads.
Proof.
  intros Hmax. unfold set_up_threads. cbv zeta.
  destruct (Z.leb_spec nThreads 0) as [H0|H0];
    destruct (Z.gtb_spec nThreads maxThreads) as [H1|H1];
    repeat split; intros; lia.
Qed.

Lemma thread_count_normalized_witness :
  1 <= 8 /\
  set_up_threads 0 8 = 8 /\ set_up_threads (-3) 8 = 8 /\
  set_up_threads 10000 8 = 8 /\ set_up_threads 5 8 = 5 /\
  1 <= set_up_threads 10000 omp_get_max_threads_fallback
    <= omp_get_max_threads_fallback.
Proof.
  split; [lia|].
  split; [apply (proj1 (thread_count_normalized 0 8 ltac:(lia))); lia|].
  split; [apply (proj1 (thread_count_normalized (-3) 8 ltac:(lia))); lia|].
  split; [apply (proj1 (proj2 (thread_count_normalized 10000 8 ltac:(lia)))); lia|].
  split; [apply (proj1 (proj2 (proj2 (thread_count_normalized 5 8 ltac:(lia))))); lia|].
  apply (proj2 (proj2 (proj2
           (thread_count_normalized 10000 omp_get_max_threads_fallback
              ltac:(unfold omp_get_max_threads_fallback; lia))))).
Defined.

(** ** The parameter lists *)

(** The statement "each of the three functions accepts a thread-count
    parameter" fails on the phased sex-specific function: no parameter of
    [ll_fs_ss_scaled_err_c] is called [nThreads]. *)
Lemma not_every_function_takes_nThreads :
  ~ (forall f, has_parameter "nThreads" f = true).
Proof.
  intros H. specialize (H fs_ss_scaled_err). vm_compute in H. discriminate.
Qed.

(** C8, amended.  [ll_fs_scaled_err_c] and [ll_fs_up_ss_scaled_err_c] take
    ten arguments, the tenth of them the parameter [nThreads], and on a
    request of 0 the team of their parallel loop is the one of
    [maxThreads] threads, every thread available;
    [ll_fs_ss_scaled_err_c] takes seven arguments, and neither a parameter
    [nThreads] nor a third integer beside [nInd] and [nSnps] is among
    them. *)
Theorem nThreads_parameter {T : Type} {ops : DoubleOps T} {pf : ProbFun T}
    (team : Z -> Z -> list (list Z)) (maxThreads : Z)
    (r ep bcoef_mat Kaa Kab Kbb : Z -> T) (ref alt OPGP config : Z -> Z)
    (nInd nSnps nThreads : Z) :
  (nth_error (parameters fs_scaled_err) 9 = Some "nThreads"%string /\
   entry maxThreads fs_scaled_err r ep ref alt bcoef_mat Kab OPGP nInd nSnps nThreads
   = ll_fs_scaled_err_c maxThreads r ep ref alt bcoef_mat Kab OPGP nInd nSnps
       nThreads /\
   ll_fs_scaled_err_c_omp team maxThreads r ep ref alt bcoef_mat Kab OPGP nInd nSnps 0
   = dmul (ofZ (-1))
       (llval (omp_parallel_for_reduction (team maxThreads nInd)
                 (ll_fs_scaled_err_ind r
                    (emission_tables ep ref alt bcoef_mat nInd nSnps tables_uninit)
                    Kab OPGP nInd nSnps)
                 locals_init))) /\
  (nth_error (parameters fs_up_ss_scaled_err) 9 = Some "nThreads"%string /\
   entry maxThreads fs_up_ss_scaled_err r bcoef_mat ep ref alt Kab config nInd nSnps
     nThreads
   = ll_fs_up_ss_scaled_err_c maxThreads r bcoef_mat ep ref alt Kab config nInd nSnps
       nThreads /\
   ll_fs_up_ss_scaled_err_c_omp team maxThreads r bcoef_mat ep ref alt Kab config
     nInd nSnps 0
   = dmul (ofZ (-1))
       (llval (omp_parallel_for_reduction (team maxThreads nInd)
                 (ll_fs_up_ss_scaled_err_ind r
                    (emission_tables_up (ep 0) ref alt bcoef_mat maxThreads nInd nSnps
                       tables_uninit)
                    Kab config nInd nSnps)
                 locals_init))) /\
  (has_parameter "nThreads" fs_ss_scaled_err = false /\
   List.length (signature fs_ss_scaled_err) = 7%nat /\
   List.length (filter (fun p => match snd p with
                                 | integer_scalar => true
                                 | _ => false
                                 end) (signature fs_ss_scaled_err)) = 2%nat /\
   entry maxThreads fs_ss_scaled_err r Kaa Kab Kbb OPGP nInd nSnps
   = ll_fs_ss_scaled_err_c r Kaa Kab Kbb OPGP nInd nSnps).
Proof.
  split; [|split].
  - split; [reflexivity|]. split; reflexivity.
  - split; [reflexivity|]. split; reflexivity.
  - repeat split.
Qed.

(** ** The layout of the matrices *)

Lemma flat_cell {V : Type} (nInd : Z) (M : Z -> Z -> V) (ind snp : Z) :
  0 <= ind < nInd -> flat nInd M (ind + snp * nInd) = M ind snp.
Proof.
  intros H. unfold flat.
  rewrite Z.mod_add, Z.div_add, Z.mod_small, Z.div_small by lia.
  reflexivity.
Qed.

Section Layout.

Context {T : Type} {ops : DoubleOps T} {pf : ProbFun T}.
Implicit Types (st : @locals T) (tb : @tables T).

(** C9.  Let the matrices of counts, coefficients and densities be given by
    (individual, marker) and stored with the individual index running
    fastest, the cell of [ind] and [snp] at [ind + snp * nInd].  Then the
    loops that fill [pKaa] and [pKbb] store at that same index the densities
    of that cell, and in each of the three functions the emission calls of
    the individual [ind] read, at the first marker and at every other one,
    the three densities of the cell of [ind] at that marker. *)
Theorem individual_major_layout
    (r ep : Z -> T) (ref alt : Z -> Z -> Z) (bcoef_mat Kaa Kab Kbb : Z -> Z -> T)
    (OPGP config : Z -> Z) (nInd nSnps nThreads_c ind : Z) st :
  0 <= ind < nInd -> 0 < nSnps ->
  let tb := emission_tables ep (flat nInd ref) (flat nInd alt) (flat nInd bcoef_mat)
              nInd nSnps tables_uninit in
  let tb_up := emission_tables_up (ep 0) (flat nInd ref) (flat nInd alt)
                 (flat nInd bcoef_mat) nThreads_c nInd nSnps tables_uninit in
  (forall snp, 0 <= snp < nSnps ->
     pKaa tb (ind + snp * nInd) = Kaa_matrix bcoef_mat ep ref alt ind snp /\
     pKbb tb (ind + snp * nInd) = Kbb_matrix bcoef_mat ep ref alt ind snp /\
     pKaa tb_up (ind + snp * nInd)
       = Kaa_matrix bcoef_mat (fun _ => ep 0) ref alt ind snp /\
     pKbb tb_up (ind + snp * nInd)
       = Kbb_matrix bcoef_mat (fun _ => ep 0) ref alt ind snp) /\
  ll_fs_scaled_err_ind r tb (flat nInd Kab) OPGP nInd nSnps ind st
  = forward_ind
      (phased_lookup OPGP (Kaa_matrix bcoef_mat ep ref alt) Kab
         (Kbb_matrix bcoef_mat ep ref alt) ind 0)
      (phased_lookup OPGP (Kaa_matrix bcoef_mat ep ref alt) Kab
         (Kbb_matrix bcoef_mat ep ref alt) ind)
      (fs_Tr r) nSnps st /\
  ll_fs_ss_scaled_err_ind r (mkTables (flat nInd Kaa) (flat nInd Kbb)) (flat nInd Kab)
    OPGP nInd nSnps ind st
  = forward_ind (phased_lookup OPGP Kaa Kab Kbb ind 0)
      (phased_lookup OPGP Kaa Kab Kbb ind) (ss_Tr r nSnps) nSnps st /\
  ll_fs_up_ss_scaled_err_ind r tb_up (flat nInd Kab) config nInd nSnps ind st
  = forward_ind
      (unphased_lookup config (Kaa_matrix bcoef_mat (fun _ => ep 0) ref alt) Kab
         (Kbb_matrix bcoef_mat (fun _ => ep 0) ref alt) ind 0)
      (unphased_lookup config (Kaa_matrix bcoef_mat (fun _ => ep 0) ref alt) Kab
         (Kbb_matrix bcoef_mat (fun _ => ep 0) ref alt) ind)
      (ss_Tr r nSnps) nSnps st.
Proof.
  intros Hind Hsnps tb tb_up.
  assert (Cells : forall snp, 0 <= snp < nSnps ->
     pKaa tb (ind + snp * nInd) = Kaa_matrix bcoef_mat ep ref alt ind snp /\
     pKbb tb (ind + snp * nInd) = Kbb_matrix bcoef_mat ep ref alt ind snp /\
     pKaa tb_up (ind + snp * nInd)
       = Kaa_matrix bcoef_mat (fun _ => ep 0) ref alt ind snp /\
     pKbb tb_up (ind + snp * nInd)
       = Kbb_matrix bcoef_mat (fun _ => ep 0) ref alt ind snp).
  { intros snp Hsnp.
    destruct (emission_tables_cell ep (flat nInd ref) (flat nInd alt)
                (flat nInd bcoef_mat) nInd nSnps tables_uninit ind snp Hind Hsnp)
      as [A B].
    destruct (emission_tables_up_cell (ep 0) (flat nInd ref) (flat nInd alt)
                (flat nInd bcoef_mat) nThreads_c nInd nSnps tables_uninit
                (ind + snp * nInd)) as [A' B']; [nia|].
    cbv zeta in A, B. fold tb in A, B. cbv zeta in A', B'. fold tb_up in A', B'.
    rewrite !flat_cell in A, B, A', B' by exact Hind.
    unfold Kaa_matrix, Kbb_matrix. auto. }
  assert (Cells' : forall snp, 0 <= snp < nSnps ->
     pKaa tb (ind + nInd * snp) = Kaa_matrix bcoef_mat ep ref alt ind snp /\
     pKbb tb (ind + nInd * snp) = Kbb_matrix bcoef_mat ep ref alt ind snp /\
     pKaa tb_up (ind + nInd * snp)
       = Kaa_matrix bcoef_mat (fun _ => ep 0) ref alt ind snp /\
     pKbb tb_up (ind + nInd * snp)
       = Kbb_matrix bcoef_mat (fun _ => ep 0) ref alt ind snp).
  { intros snp Hsnp. replace (ind + nInd * snp) with (ind + snp * nInd) by lia.
    now apply Cells. }
  assert (Flat : forall (V : Type) (M : Z -> Z -> V) snp,
            flat nInd M (ind + nInd * snp) = M ind snp).
  { intros V M snp. replace (ind + nInd * snp) with (ind + snp * nInd) by lia.
    now apply flat_cell. }
  assert (Flat0 : forall (V : Type) (M : Z -> Z -> V), flat nInd M ind = M ind 0).
  { intros V M. rewrite <- (Flat V M 0). f_equal. lia. }
  destruct (Cells' 0) as (A0 & B0 & A0' & B0'); [lia|].
  replace (ind + nInd * 0) with ind in A0, B0, A0', B0' by lia.
  split; [exact Cells|].
  unfold ll_fs_scaled_err_ind, ll_fs_ss_scaled_err_ind, ll_fs_up_ss_scaled_err_ind.
  repeat split; apply forward_ind_ext; try reflexivity.
  - intros s Hs. unfold fs_Q0, phased_lookup. now rewrite A0, B0, Flat0.
  - intros snp s Hsnp Hs. unfold fs_Q, phased_lookup.
    destruct (Cells' snp) as (A & B & _); [lia|]. now rewrite A, B, Flat.
  - intros s Hs. unfold fs_Q0, phased_lookup. cbn [pKaa pKbb]. now rewrite !Flat0.
  - intros snp s Hsnp Hs. unfold fs_Q, phased_lookup. cbn [pKaa pKbb].
    now rewrite !Flat.
  - intros s Hs. unfold up_Q0, unphased_lookup. now rewrite A0', B0', Flat0.
  - intros snp s Hsnp Hs. unfold up_Q, unphased_lookup.
    destruct (Cells' snp) as (_ & _ & A & B); [lia|]. now rewrite A, B, Flat.
Qed.

(** A block of two sequences read at the offsets the code uses. *)
Lemma two_blocks_first {V : Type} (n : Z) (first second : Z -> V) (k : Z) :
  k < n -> two_blocks n first second k = first k.
Proof. intros H. unfold two_blocks. now destruct (Z.ltb_spec k n); [|lia]. Qed.

Lemma two_blocks_second {V : Type} (n : Z) (first second : Z -> V) (k : Z) :
  0 <= k -> two_blocks n first second (k + n) = second k.
Proof.
  intros H. unfold two_blocks.
  destruct (Z.ltb_spec (k + n) n); [lia|]. f_equal. lia.
Qed.

(** C10.  In both sex-specific functions, when [r] holds the paternal
    fractions of the [nSnps - 1] gaps followed by the maternal fractions of
    the same gaps, the transition call in front of marker [snp] receives the
    paternal fraction of the gap [snp - 1] and the maternal fraction of that
    gap, the latter read at [snp - 1 + (nSnps - 1)]; and no cell of [r]
    outside the first [2 * (nSnps - 1)] matters. *)
Theorem sex_specific_fractions_layout
    (r_pat r_mat : Z -> T) tb (Kab : Z -> T) (OPGP config : Z -> Z)
    (nInd nSnps ind : Z) st :
  let r := two_blocks (nSnps - 1) r_pat r_mat in
  (forall snp s1 s2, 1 <= snp < nSnps ->
     ss_Tr r nSnps snp s1 s2 = Tmat_ss s1 s2 (r_pat (snp - 1)) (r_mat (snp - 1)) /\
     r (snp - 1) = r_pat (snp - 1) /\
     r (snp - 1 + (nSnps - 1)) = r_mat (snp - 1)) /\
  ll_fs_ss_scaled_err_ind r tb Kab OPGP nInd nSnps ind st
  = forward_ind (fs_Q0 OPGP tb Kab ind) (fs_Q OPGP tb Kab nInd ind)
      (transition_sex_specific r_pat r_mat) nSnps st /\
  ll_fs_up_ss_scaled_err_ind r tb Kab config nInd nSnps ind st
  = forward_ind (up_Q0 config tb Kab ind) (up_Q config tb Kab nInd ind)
      (transition_sex_specific r_pat r_mat) nSnps st /\
  (forall r' : Z -> T,
     (forall k, 0 <= k < 2 * (nSnps - 1) -> r' k = r k) ->
     ll_fs_ss_scaled_err_ind r' tb Kab OPGP nInd nSnps ind st
     = ll_fs_ss_scaled_err_ind r tb Kab OPGP nInd nSnps ind st /\
     ll_fs_up_ss_scaled_err_ind r' tb Kab config nInd nSnps ind st
     = ll_fs_up_ss_scaled_err_ind r tb Kab config nInd nSnps ind st).
Proof.
  intros r.
  assert (Reads : forall snp, 1 <= snp < nSnps ->
            r (snp - 1) = r_pat (snp - 1) /\
            r (snp - 1 + (nSnps - 1)) = r_mat (snp - 1)).
  { intros snp Hsnp. unfold r. split.
    - apply two_blocks_first. lia.
    - apply two_blocks_second. lia. }
  assert (Calls : forall snp s1 s2, 1 <= snp < nSnps ->
            ss_Tr r nSnps snp s1 s2
            = Tmat_ss s1 s2 (r_pat (snp - 1)) (r_mat (snp - 1))).
  { intros snp s1 s2 Hsnp. unfold ss_Tr.
    destruct (Reads snp Hsnp) as [A B].
    replace (snp - 1 + nSnps - 1) with (snp - 1 + (nSnps - 1)) by lia.
    now rewrite A, B. }
  split; [|split; [|split]].
  - intros snp s1 s2 Hsnp. split; [now apply Calls|now apply Reads].
  - unfold ll_fs_ss_scaled_err_ind. apply forward_ind_ext; try reflexivity.
    intros snp s1 s2 Hsnp _ _. now apply Calls.
  - unfold ll_fs_up_ss_scaled_err_ind. apply forward_ind_ext; try reflexivity.
    intros snp s1 s2 Hsnp _ _. now apply Calls.
  - intros r' Hr'.
    unfold ll_fs_ss_scaled_err_ind, ll_fs_up_ss_scaled_err_ind.
    split; apply forward_ind_ext; try reflexivity;
      intros snp s1 s2 Hsnp _ _; unfold ss_Tr;
      rewrite (Hr' (snp - 1)), (Hr' (snp - 1 + nSnps - 1)) by lia; reflexivity.
Qed.

End Layout.

(** ** The automatic arrays *)

Lemma automatic_arrays_too_large (stack n : Z) :
  stack < 16 * n -> automatic_arrays_fit stack n = false.
Proof.
  intros H. unfold automatic_arrays_fit, sizeof_double.
  apply andb_false_iff. right. apply Z.leb_gt. lia.
Qed.

(** C6.  "For every input a scalar is returned, never an abort" against the
    code, at 1000 individuals and 1100 markers, whatever the data: [pKaa]
    and [pKbb] of [ll_fs_scaled_err_c] and of [ll_fs_up_ss_scaled_err_c]
    then take 2 * 8 * 1 100 000 bytes, more than twice the 8 MiB that a
    thread of a Linux process has for its stack, and the call returns no
    value; [ll_fs_ss_scaled_err_c], which declares no such array, returns
    its scalar at the same sizes. *)
Theorem automatic_arrays_overflow_the_stack
    {T : Type} {ops : DoubleOps T} {pf : ProbFun T} (maxThreads : Z)
    (r ep bcoef_mat Kaa Kab Kbb : Z -> T) (ref alt OPGP config : Z -> Z)
    (nThreads : Z) :
  ll_fs_scaled_err_c_run 8388608 maxThreads r ep ref alt bcoef_mat Kab OPGP
    1000 1100 nThreads = None /\
  ll_fs_up_ss_scaled_err_c_run 8388608 maxThreads r bcoef_mat ep ref alt Kab config
    1000 1100 nThreads = None /\
  ll_fs_ss_scaled_err_c_run r Kaa Kab Kbb OPGP 1000 1100
  = Some (ll_fs_ss_scaled_err_c r Kaa Kab Kbb OPGP 1000 1100).
Proof.
  unfold ll_fs_scaled_err_c_run, ll_fs_up_ss_scaled_err_c_run,
    ll_fs_ss_scaled_err_c_run.
  cbv zeta.
  rewrite (automatic_arrays_too_large 8388608 (1100 * 1000)) by lia.
  repeat split.
Qed.

(** ** The forward vectors do not depend on what the variables held *)

Section ForwardIndep.

Context {T : Type} {ops : DoubleOps T}.
Implicit Types (st : @locals T).

Lemma acc4_ext (f g : Z -> T) :
  (forall s, 0 <= s < 4 -> f s = g s) -> acc4 f = acc4 g.
Proof.
  intros H. unfold acc4. now rewrite (H 0), (H 1), (H 2), (H 3) by lia.
Qed.

Lemma next_dot_ext Q Tr snp (a b : Z -> T) s2 :
  (forall s, 0 <= s < 4 -> a s = b s) ->
  next_dot Q Tr snp a s2 = next_dot Q Tr snp b s2.
Proof.
  intros H. unfold next_dot. f_equal.
  apply acc4_ext. intros s1 Hs1. now rewrite H.
Qed.

Lemma forward_ind_indep Q0 Q Tr (k : nat) st st' :
  forall s, 0 <= s < 4 ->
    alphaDot (forward_ind Q0 Q Tr (1 + Z.of_nat k) st) s
    = alphaDot (forward_ind Q0 Q Tr (1 + Z.of_nat k) st') s /\
    alphaTilde (forward_ind Q0 Q Tr (1 + Z.of_nat k) st) s
    = alphaTilde (forward_ind Q0 Q Tr (1 + Z.of_nat k) st') s.
Proof.
  induction k as [|k IH]; intros s Hs.
  - rewrite !forward_ind_one by (simpl; lia).
    now rewrite !forward_first_alphaDot, !forward_first_alphaTilde.
  - replace (1 + Z.of_nat (Datatypes.S k)) with (1 + Z.of_nat k + 1) by lia.
    rewrite !forward_ind_last by lia.
    rewrite !forward_next_alphaDot, !forward_next_alphaTilde by exact Hs.
    assert (E : forall s2,
              next_dot Q Tr (1 + Z.of_nat k)
                (alphaTilde (forward_ind Q0 Q Tr (1 + Z.of_nat k) st)) s2
              = next_dot Q Tr (1 + Z.of_nat k)
                (alphaTilde (forward_ind Q0 Q Tr (1 + Z.of_nat k) st')) s2).
    { intros s2. apply next_dot_ext. intros s1 Hs1. now apply IH. }
    rewrite E. split; [reflexivity|].
    f_equal. apply acc4_ext. intros s2 _. apply E.
Qed.

(** The weight of the step of marker [k], the sum of the four [alphaDot] as
    the code accumulates it, is the same from any starting state. *)
Lemma forward_ind_weight_indep Q0 Q Tr (k : Z) st st' :
  acc4 (alphaDot (forward_ind Q0 Q Tr (k + 1) st))
  = acc4 (alphaDot (forward_ind Q0 Q Tr (k + 1) st')).
Proof.
  apply acc4_ext. intros s Hs.
  destruct (Z_lt_le_dec k 1) as [Hlt|Hge].
  - rewrite !forward_ind_one by lia. now rewrite !forward_first_alphaDot.
  - replace (k + 1) with (1 + Z.of_nat (Z.to_nat k)) by lia.
    now apply forward_ind_indep.
Qed.

(** What the step of marker [k] adds to [llval] is the logarithm of its
    weight. *)
Lemma forward_ind_step_llval Q0 Q Tr (k : Z) st :
  let before := if k <? 1 then st else forward_ind Q0 Q Tr k st in
  let after := forward_ind Q0 Q Tr (k + 1) st in
  llval after = dadd (llval before) (dlog (acc4 (alphaDot after))).
Proof.
  cbv zeta. destruct (Z.ltb_spec k 1) as [Hlt|Hge].
  - rewrite forward_ind_one by lia.
    rewrite forward_first_llval.
    f_equal; f_equal; apply acc4_ext; intros s Hs; now rewrite forward_first_alphaDot.
  - rewrite forward_ind_last by lia.
    rewrite forward_next_llval.
    f_equal; f_equal; apply acc4_ext; intros s Hs; now rewrite forward_next_alphaDot.
Qed.

End ForwardIndep.

(** ** A step of weight zero, on binary64 *)

Section Binary64.

(** [log] and [pow] of the C library and the content of unassigned
    variables are arbitrary, but for what Annex F of the C standard says of
    [log] at the zeros: "log(+-0) returns -infinity". *)
Variable log : spec_float -> spec_float.
Variable pow : spec_float -> Z -> spec_float.
Variable junk : spec_float.
Hypothesis log_zero : forall s, log (S754_zero s) = S754_infinity true.

Local Hint Extern 0 (DoubleOps spec_float) =>
  exact (Binary64Ops log pow junk) : typeclass_instances.

Context {pf : ProbFun spec_float}.
Implicit Types (st : @locals spec_float) (x y : spec_float).

Lemma SFadd_non_finite_l x y :
  non_finite x = true -> non_finite (SFadd 53 1024 x y) = true.
Proof.
  destruct x as [sx|sx| |sx mx ex]; try discriminate; intros _;
    destruct y as [sy|sy| |sy my ey]; try reflexivity;
    destruct sx, sy; reflexivity.
Qed.

Lemma SFadd_non_finite_r x y :
  non_finite y = true -> non_finite (SFadd 53 1024 x y) = true.
Proof.
  destruct y as [sy|sy| |sy my ey]; try discriminate; intros _;
    destruct x as [sx|sx| |sx mx ex]; try reflexivity;
    destruct sx, sy; reflexivity.
Qed.

Lemma negation_non_finite x :
  non_finite x = true -> non_finite (dmul (ofZ (-1)) x) = true.
Proof.
  destruct x as [sx|sx| |sx mx ex]; try discriminate; intros _; reflexivity.
Qed.

Lemma dlog_zero x : is_zero x = true -> dlog x = S754_infinity true.
Proof.
  destruct x as [sx|sx| |sx mx ex]; try discriminate; intros _.
  apply log_zero.
Qed.

Lemma forward_first_non_finite Q0 st :
  non_finite (llval st) = true -> non_finite (llval (forward_first Q0 st)) = true.
Proof. intros H. rewrite forward_first_llval. now apply SFadd_non_finite_l. Qed.

Lemma forward_next_non_finite Q Tr snp st :
  non_finite (llval st) = true ->
  non_finite (llval (forward_next Q Tr snp st)) = true.
Proof. intros H. rewrite forward_next_llval. now apply SFadd_non_finite_l. Qed.

Lemma for_loop_non_finite (body : Z -> @locals spec_float -> @locals spec_float)
    lo hi st :
  (forall i s, non_finite (llval s) = true -> non_finite (llval (body i s)) = true) ->
  non_finite (llval st) = true ->
  non_finite (llval (for_loop lo hi body st)) = true.
Proof.
  intros Hb H.
  destruct (Z_lt_le_dec hi lo) as [Hlt|Hle].
  - now rewrite for_loop_empty by lia.
  - apply for_loop_invariant
      with (P := fun (i : Z) s => non_finite (llval s) = true); auto.
Qed.

Lemma forward_ind_non_finite Q0 Q Tr nSnps_c st :
  non_finite (llval st) = true ->
  non_finite (llval (forward_ind Q0 Q Tr nSnps_c st)) = true.
Proof.
  intros H. unfold forward_ind.
  apply for_loop_non_finite.
  - intros i s. apply forward_next_non_finite.
  - now apply forward_first_non_finite.
Qed.

(** The step of weight zero adds minus infinity. *)
Lemma forward_ind_zero_weight_step Q0 Q Tr snp st :
  is_zero (acc4 (alphaDot (forward_ind Q0 Q Tr (snp + 1) locals_init))) = true ->
  llval (forward_ind Q0 Q Tr (snp + 1) st)
  = SFadd 53 1024
      (llval (if snp <? 1 then st else forward_ind Q0 Q Tr snp st))
      (S754_infinity true).
Proof.
  intros Hw.
  rewrite (forward_ind_weight_indep Q0 Q Tr snp locals_init st) in Hw.
  pose proof (forward_ind_step_llval Q0 Q Tr snp st) as E. cbv zeta in E.
  rewrite E. rewrite (dlog_zero _ Hw). reflexivity.
Qed.

(** From there on [llval] is an infinity or a NaN, to the end of the loop
    over individuals and through the final negation. *)
Lemma zero_weight_non_finite (Q0 : Z -> Z -> spec_float) (Q : Z -> Z -> Z -> spec_float)
    (Tr : Z -> Z -> Z -> spec_float) (nInd_c nSnps_c ind snp : Z) :
  0 <= ind < nInd_c -> 0 <= snp < nSnps_c ->
  is_zero (acc4 (alphaDot (forward_ind (Q0 ind) (Q ind) Tr (snp + 1) locals_init)))
  = true ->
  non_finite
    (dmul (ofZ (-1))
       (llval (for_loop 0 nInd_c
                 (fun i st => forward_ind (Q0 i) (Q i) Tr nSnps_c st) locals_init)))
  = true.
Proof.
  intros Hind Hsnp Hw.
  apply negation_non_finite.
  rewrite (for_loop_split 0 (ind + 1) nInd_c) by lia.
  apply for_loop_non_finite.
  { intros i s. apply forward_ind_non_finite. }
  rewrite for_loop_last by lia.
  replace (ind + 1 - 1) with ind by lia.
  rewrite (forward_ind_prefix (Q0 ind) (Q ind) Tr (snp + 1) nSnps_c) by lia.
  apply for_loop_non_finite.
  { intros i s. apply forward_next_non_finite. }
  rewrite (forward_ind_zero_weight_step _ _ _ _ _ Hw).
  now apply SFadd_non_finite_r.
Qed.

(** X17.  On binary64 and in each of the three functions: when, for some
    individual and marker, the weight of the step (the sum of the four
    [alphaDot]: [sum] of line 120 at the first marker, [w_new] of line 139
    at a later one) is a zero, the step adds [log 0], minus infinity, to
    [llval] with no test and no error path, and the value that the function
    computes is an infinity or a NaN. *)
Theorem zero_weight_yields_non_finite_scalar (maxThreads : Z)
    (r ep : Z -> spec_float) (ref alt : Z -> Z)
    (bcoef_mat Kaa Kab Kbb : Z -> spec_float) (OPGP config : Z -> Z)
    (nInd nSnps nThreads ind snp : Z) :
  0 <= ind < nInd -> 0 <= snp < nSnps ->
  (let tb := emission_tables ep ref alt bcoef_mat nInd nSnps tables_uninit in
   let upto k st := ll_fs_scaled_err_upto r tb Kab OPGP nInd ind k st in
   is_zero (acc4 (alphaDot (upto snp locals_init))) = true ->
   (forall st, llval (upto snp st)
               = SFadd 53 1024 (llval (if snp <? 1 then st else upto (snp - 1) st))
                       (S754_infinity true)) /\
   non_finite (ll_fs_scaled_err_c maxThreads r ep ref alt bcoef_mat Kab OPGP
                 nInd nSnps nThreads) = true) /\
  (let tb := mkTables Kaa Kbb in
   let upto k st := ll_fs_ss_scaled_err_upto r tb Kab OPGP nInd nSnps ind k st in
   is_zero (acc4 (alphaDot (upto snp locals_init))) = true ->
   (forall st, llval (upto snp st)
               = SFadd 53 1024 (llval (if snp <? 1 then st else upto (snp - 1) st))
                       (S754_infinity true)) /\
   non_finite (ll_fs_ss_scaled_err_c r Kaa Kab Kbb OPGP nInd nSnps) = true) /\
  (let tb := emission_tables_up (ep 0) ref alt bcoef_mat
               (set_up_threads nThreads maxThreads) nInd nSnps tables_uninit in
   let upto k st := ll_fs_up_ss_scaled_err_upto r tb Kab config nInd nSnps ind k st in
   is_zero (acc4 (alphaDot (upto snp locals_init))) = true ->
   (forall st, llval (upto snp st)
               = SFadd 53 1024 (llval (if snp <? 1 then st else upto (snp - 1) st))
                       (S754_infinity true)) /\
   non_finite (ll_fs_up_ss_scaled_err_c maxThreads r bcoef_mat ep ref alt Kab config
                 nInd nSnps nThreads) = true).
Proof.
  intros Hind Hsnp.
  unfold ll_fs_scaled_err_upto, ll_fs_ss_scaled_err_upto, ll_fs_up_ss_scaled_err_upto.
  split; [|split]; cbv zeta; intros Hw; split.
  - intros st. replace (snp - 1 + 1) with snp by lia.
    now apply forward_ind_zero_weight_step.
  - apply (zero_weight_non_finite
             (fun i => fs_Q0 OPGP _ Kab i) (fun i => fs_Q OPGP _ Kab nInd i)
             (fs_Tr r) nInd nSnps ind snp Hind Hsnp Hw).
  - intros st. replace (snp - 1 + 1) with snp by lia.
    now apply forward_ind_zero_weight_step.
  - apply (zero_weight_non_finite
             (fun i => fs_Q0 OPGP _ Kab i) (fun i => fs_Q OPGP _ Kab nInd i)
             (ss_Tr r nSnps) nInd nSnps ind snp Hind Hsnp Hw).
  - intros st. replace (snp - 1 + 1) with snp by lia.
    now apply forward_ind_zero_weight_step.
  - apply (zero_weight_non_finite
             (fun i => up_Q0 config _ Kab i) (fun i => up_Q config _ Kab nInd i)
             (ss_Tr r nSnps) nInd nSnps ind snp Hind Hsnp Hw).
Qed.

End Binary64.

(** ** The theorems at work on the examples *)

(** Unfolds the first two markers of a forward pass on the reals down to
    arithmetic on the cells. *)
Ltac two_markers :=
  unfold ll_fs_scaled_err_upto, ll_fs_ss_scaled_err_upto, ll_fs_up_ss_scaled_err_upto;
  change (1 + 1) with 2;
  rewrite (forward_ind_last _ _ _ 1) by lia;
  unfold sum_states;
  rewrite !forward_next_alphaDot by lia;
  unfold next_dot, acc4;
  rewrite forward_ind_one by lia;
  rewrite !forward_first_alphaTilde by lia;
  unfold first_dot, acc4, fs_Q, fs_Q0, up_Q, up_Q0, fs_Tr, ss_Tr;
  cbn -[Rplus Rmult Rdiv Rinv Rminus IZR];
  unfold Tmat_spec, Tmat_ss_spec, Qentry_spec, emissionClass_example, bit_prob,
    pat_bit, mat_bit;
  cbn -[Rplus Rmult Rdiv Rinv Rminus IZR];
  unfold ex_r; cbn -[Rplus Rmult Rdiv Rinv Rminus IZR].

Lemma rescaled_forward_vector_sums_to_one_witness :
  let fs := ll_fs_scaled_err_upto (pf := ExampleProbFun) ex_r ex_tables ex_Kab
              ex_code 2 0 1 locals_init in
  let ss := ll_fs_ss_scaled_err_upto (pf := ExampleProbFun) ex_r ex_tables ex_Kab
              ex_code 2 2 0 1 locals_init in
  let up := ll_fs_up_ss_scaled_err_upto (pf := ExampleProbFun) ex_r ex_tables ex_Kab
              ex_code 2 2 0 1 locals_init in
  ((0 < sum_states (alphaDot fs))%R /\ sum_states (alphaTilde fs) = 1%R) /\
  ((0 < sum_states (alphaDot ss))%R /\ sum_states (alphaTilde ss) = 1%R) /\
  ((0 < sum_states (alphaDot up))%R /\ sum_states (alphaTilde up) = 1%R).
Proof.
  intros fs ss up.
  assert (Hfs : (0 < sum_states (alphaDot fs))%R) by (subst fs; two_markers; lra).
  assert (Hss : (0 < sum_states (alphaDot ss))%R) by (subst ss; two_markers; lra).
  assert (Hup : (0 < sum_states (alphaDot up))%R) by (subst up; two_markers; lra).
  pose proof (rescaled_forward_vector_sums_to_one (pf := ExampleProbFun) ex_r
                ex_tables ex_Kab ex_code ex_code 2 2 0 1 locals_init)
    as (Tfs & Tss & Tup).
  split; [split; [exact Hfs|exact (Tfs Hfs)]|].
  split; [split; [exact Hss|exact (Tss Hss)]|].
  split; [exact Hup|exact (Tup Hup)].
Defined.

Lemma individual_major_layout_witness :
  0 <= 1 < 2 /\ 0 < 2 /\
  ll_fs_ss_scaled_err_ind (pf := ExampleProbFun) ex_r
    (mkTables (flat 2 ex_Kaa2) (flat 2 ex_Kbb2)) (flat 2 ex_Kab2) ex_code 2 2 1
    locals_init
  = forward_ind (phased_lookup (pf := ExampleProbFun) ex_code ex_Kaa2 ex_Kab2 ex_Kbb2 1 0)
      (phased_lookup (pf := ExampleProbFun) ex_code ex_Kaa2 ex_Kab2 ex_Kbb2 1)
      (ss_Tr (pf := ExampleProbFun) ex_r 2) 2 locals_init.
Proof.
  assert (Hind : 0 <= 1 < 2) by lia.
  assert (Hsnps : 0 < 2) by lia.
  pose proof (individual_major_layout (pf := ExampleProbFun) ex_r ex_ep
                (fun ind snp => ex_ref (ind + snp * 2))
                (fun ind snp => ex_alt (ind + snp * 2))
                (fun ind snp => ex_bcoef (ind + snp * 2)) ex_Kaa2 ex_Kab2 ex_Kbb2
                ex_code ex_code 2 2 1 1 locals_init Hind Hsnps) as H.
  cbv zeta in H. destruct H as (_ & _ & H & _).
  split; [exact Hind|]. split; [exact Hsnps|exact H].
Defined.

Lemma sex_specific_fractions_layout_witness :
  (forall k, 0 <= k < 2 * (2 - 1) ->
     ex_r_longer k = two_blocks (2 - 1) ex_r_pat ex_r_mat k) /\
  ll_fs_ss_scaled_err_ind (pf := ExampleProbFun) ex_r_longer ex_tables ex_Kab ex_code
    2 2 0 locals_init
  = ll_fs_ss_scaled_err_ind (pf := ExampleProbFun)
      (two_blocks (2 - 1) ex_r_pat ex_r_mat) ex_tables ex_Kab ex_code 2 2 0 locals_init.
Proof.
  assert (H : forall k, 0 <= k < 2 * (2 - 1) ->
                ex_r_longer k = two_blocks (2 - 1) ex_r_pat ex_r_mat k).
  { intros k Hk. unfold ex_r_longer.
    destruct (Z.ltb_spec k 2); [reflexivity|lia]. }
  split; [exact H|].
  apply (proj2 (proj2 (proj2
           (sex_specific_fractions_layout (pf := ExampleProbFun) ex_r_pat ex_r_mat
              ex_tables ex_Kab ex_code ex_code 2 2 0 locals_init)))
           ex_r_longer H).
Defined.

Lemma zero_weight_yields_non_finite_scalar_witness :
  (forall s, ex_log (S754_zero s) = S754_infinity true) /\
  0 <= 0 < 1 /\ 0 <= 1 < 2 /\
  is_zero
    (acc4 (ops := ExampleBinary64)
       (alphaDot (ll_fs_ss_scaled_err_upto (ops := ExampleBinary64)
                    (pf := ExampleProbFun64) ex64_r
                    (mkTables ex64_first_only ex64_first_only) ex64_first_only
                    ex_code 1 2 0 1 (locals_init (ops := ExampleBinary64)))))
  = true /\
  non_finite
    (ll_fs_scaled_err_c (ops := ExampleBinary64) (pf := ExampleProbFun64) 1
       ex64_r ex64_zero ex64_no_counts ex64_no_counts ex64_first_only
       ex64_first_only ex_code 1 2 0)
  = true /\
  non_finite
    (ll_fs_ss_scaled_err_c (ops := ExampleBinary64) (pf := ExampleProbFun64)
       ex64_r ex64_first_only ex64_first_only ex64_first_only ex_code 1 2)
  = true /\
  non_finite
    (ll_fs_up_ss_scaled_err_c (ops := ExampleBinary64) (pf := ExampleProbFun64) 1
       ex64_r ex64_first_only ex64_zero ex64_no_counts ex64_no_counts
       ex64_first_only ex_code 1 2 0)
  = true.
Proof.
  assert (Hlog : forall s, ex_log (S754_zero s) = S754_infinity true)
    by (intros s; reflexivity).
  assert (Hind : 0 <= 0 < 1) by lia.
  assert (Hsnp : 0 <= 1 < 2) by lia.
  pose proof (zero_weight_yields_non_finite_scalar ex_log ex_pow S754_nan Hlog
                (pf := ExampleProbFun64) 1 ex64_r ex64_zero ex64_no_counts
                ex64_no_counts ex64_first_only ex64_first_only ex64_first_only
                ex64_first_only ex_code ex_code 1 2 0 0 1
                Hind Hsnp) as (Tfs & Tss & Tup).
  split; [exact Hlog|]. split; [exact Hind|]. split; [exact Hsnp|].
  split; [vm_compute; reflexivity|].
  split; [apply Tfs; vm_compute; reflexivity|].
  split; [apply Tss; vm_compute; reflexivity|].
  apply Tup; vm_compute; reflexivity.
Defined.

(** On that input the first marker has weight 1, whose logarithm is 0, and
    the second marker weight 0: [llval] ends at minus infinity and each
    function computes plus infinity, which the two functions with automatic
    arrays return when the stack holds their four cells. *)
Example zero_weight_at_the_second_marker :
  ll_fs_scaled_err_c_run (ops := ExampleBinary64) (pf := ExampleProbFun64) 8388608 1
    ex64_r ex64_zero ex64_no_counts ex64_no_counts ex64_first_only
    ex64_first_only ex_code 1 2 0
  = Some (S754_infinity false) /\
  ll_fs_ss_scaled_err_c_run (ops := ExampleBinary64) (pf := ExampleProbFun64)
    ex64_r ex64_first_only ex64_first_only ex64_first_only ex_code 1 2
  = Some (S754_infinity false) /\
  ll_fs_up_ss_scaled_err_c_run (ops := ExampleBinary64) (pf := ExampleProbFun64)
    8388608 1
    ex64_r ex64_first_only ex64_zero ex64_no_counts ex64_no_counts
    ex64_first_only ex_code 1 2 0
  = Some (S754_infinity false).
Proof. repeat split; vm_compute; reflexivity. Qed.

(** With one read of each allele and an error rate of zero no genotype class
    explains the reads: the first marker has weight zero, and when a second
    marker follows the forward vector becomes 0/0 and the value is a NaN;
    with the first marker alone it is plus infinity. *)
Example zero_weight_then_nan :
  ll_fs_scaled_err_c (ops := ExampleBinary64) (pf := ExampleProbFun64) 1
    ex64_r ex64_zero ex64_counts ex64_counts ex64_one ex64_zero ex_code 1 2 0
  = S754_nan /\
  ll_fs_scaled_err_c (ops := ExampleBinary64) (pf := ExampleProbFun64) 1
    ex64_r ex64_zero ex64_counts ex64_counts ex64_one ex64_zero ex_code 1 1 0
  = S754_infinity false.
Proof. split; vm_compute; reflexivity. Qed.

(** ** Any schedule of the threads gives the sequential sum *)

Section RealSchedules.

Local Open Scope R_scope.

Lemma Rsum_list_app (f : Z -> R) (l l' : list Z) :
  Rsum_list f (l ++ l') = Rsum_list f l + Rsum_list f l'.
Proof.
  induction l as [|i l IH]; simpl.
  - ring.
  - rewrite IH. ring.
Qed.

Lemma Rsum_list_perm (f : Z -> R) (l l' : list Z) :
  Permutation l l' -> Rsum_list f l = Rsum_list f l'.
Proof.
  induction 1 as [|i l l' _ IH|i j l|l1 l2 l3 _ IH1 _ IH2]; simpl.
  - reflexivity.
  - now rewrite IH.
  - ring.
  - now rewrite IH1.
Qed.

Lemma Rsum_upto_list (f : Z -> R) (n : nat) :
  Rsum_upto f n = Rsum_list f (map Z.of_nat (seq 0 n)).
Proof.
  induction n as [|n IH].
  - reflexivity.
  - rewrite seq_S, map_app, Rsum_list_app, <- IH. simpl. ring.
Qed.

Lemma omp_thread_llval (body : Z -> @locals R -> @locals R) (c : Z -> R)
    (iterations : list Z) :
  (forall i st, llval (body i st) = llval st + c i) ->
  llval (omp_thread body iterations) = Rsum_list c iterations.
Proof.
  intros Hb. unfold omp_thread.
  assert (G : forall st, llval (fold_left (fun st i => body i st) iterations st)
                         = llval st + Rsum_list c iterations).
  { induction iterations as [|i l IH]; intros st; simpl.
    - ring.
    - rewrite IH, Hb. ring. }
  rewrite G. cbn [llval locals_init ofZ RealOps]. ring.
Qed.

(** Whatever the way the individuals are shared out among the threads, each
    of them run by one thread, once, the reduction leaves in [llval] what
    the sequential loop leaves there. *)
Lemma omp_reduction_any_schedule (body : Z -> @locals R -> @locals R) (c : Z -> R)
    (schedule : list (list Z)) (n : Z) (st : @locals R) :
  (forall i st, llval (body i st) = llval st + c i) ->
  Permutation (List.concat schedule) (map Z.of_nat (seq 0 (Z.to_nat n))) ->
  llval (omp_parallel_for_reduction schedule body st)
  = llval (for_loop 0 n body st).
Proof.
  intros Hb Hperm.
  rewrite (for_loop_llval body c n st) by (intros; apply Hb).
  rewrite Rsum_upto_list, <- (Rsum_list_perm c _ _ Hperm).
  unfold omp_parallel_for_reduction. cbn [llval set_llval].
  generalize (llval st). clear Hperm.
  induction schedule as [|t ts IH]; intros a; simpl.
  - ring.
  - rewrite IH, Rsum_list_app, (omp_thread_llval body c t Hb).
    cbn [dadd RealOps]. ring.
Qed.

(** X11.  The loop over individuals of [ll_fs_scaled_err_c], shared out
    among threads by any schedule that gives each individual to one thread,
    once, leaves in [llval] what the sequential loop leaves there. *)
Lemma ll_fs_scaled_err_any_schedule {pf : ProbFun R}
    (r : Z -> R) (tb : @tables R) (Kab : Z -> R) (OPGP : Z -> Z)
    (nInd nSnps nThreads_c : Z) (schedule : list (list Z)) :
  Permutation (List.concat schedule) (map Z.of_nat (seq 0 (Z.to_nat nInd))) ->
  llval (omp_parallel_for_reduction schedule
           (ll_fs_scaled_err_ind r tb Kab OPGP nInd nSnps) locals_init)
  = llval (ll_fs_scaled_err_loop r tb Kab OPGP nInd nSnps nThreads_c locals_init).
Proof.
  intros Hperm. unfold ll_fs_scaled_err_loop, omp_parallel_for.
  apply omp_reduction_any_schedule
    with (c := fun i => llval (ll_fs_scaled_err_ind r tb Kab OPGP nInd nSnps i
                                 locals_init)); [|exact Hperm].
  intros i st. apply forward_ind_adds.
Qed.

(** X12.  The same for the loop over individuals of
    [ll_fs_up_ss_scaled_err_c]. *)
Lemma ll_fs_up_ss_scaled_err_any_schedule {pf : ProbFun R}
    (r : Z -> R) (tb : @tables R) (Kab : Z -> R) (config : Z -> Z)
    (nInd nSnps nThreads_c : Z) (schedule : list (list Z)) :
  Permutation (List.concat schedule) (map Z.of_nat (seq 0 (Z.to_nat nInd))) ->
  llval (omp_parallel_for_reduction schedule
           (ll_fs_up_ss_scaled_err_ind r tb Kab config nInd nSnps) locals_init)
  = llval (ll_fs_up_ss_scaled_err_loop r tb Kab config nInd nSnps nThreads_c
             locals_init).
Proof.
  intros Hperm. unfold ll_fs_up_ss_scaled_err_loop, omp_parallel_for.
  apply omp_reduction_any_schedule
    with (c := fun i => llval (ll_fs_up_ss_scaled_err_ind r tb Kab config nInd nSnps i
                                 locals_init)); [|exact Hperm].
  intros i st. apply forward_ind_adds.
Qed.

End RealSchedules.

(** One individual at one marker, phased and sex-specific: the value is
    minus the logarithm of the mean of the four emissions. *)
Example one_individual_one_marker :
  ll_fs_ss_scaled_err_c (pf := ExampleProbFun) ex_r ex_Kaa ex_Kab ex_Kbb ex_code 1 1
  = (- ln ((1 + / 1024 + / 1024 + / 1000) / 4))%R.
Proof.
  unfold ll_fs_ss_scaled_err_c, ll_fs_ss_scaled_err_loop, ll_fs_ss_scaled_err_ind.
  rewrite for_loop_0_1, forward_ind_one by lia. cbv zeta.
  rewrite forward_first_llval.
  unfold acc4, first_dot, fs_Q0.
  cbn -[Rplus Rmult Rdiv Rinv Rminus IZR ln].
  unfold Qentry_spec, emissionClass_example.
  cbn -[Rplus Rmult Rdiv Rinv Rminus IZR ln].
  replace (0 + 0.25 * 1 + 0.25 * / 1024 + 0.25 * / 1024 + 0.25 * / 1000)%R
    with ((1 + / 1024 + / 1024 + / 1000) / 4)%R by lra.
  lra.
Qed.

(** * Further properties of the three functions *)

(** ** Two runs side by side *)

Lemma for_loop_related {S S' : Type} (Rel : S -> S' -> Prop) (lo hi : Z)
    (body : Z -> S -> S) (body' : Z -> S' -> S') (st : S) (st' : S') :
  (forall i s s', lo <= i < hi -> Rel s s' -> Rel (body i s) (body' i s')) ->
  Rel st st' ->
  Rel (for_loop lo hi body st) (for_loop lo hi body' st').
Proof.
  intros Hb H0.
  destruct (Z_lt_le_dec hi lo) as [Hlt|Hle].
  - now rewrite !for_loop_empty by lia.
  - apply for_loop_invariant
      with (P := fun i s' => Rel (for_loop lo i body st) s') (body := body').
    + exact Hle.
    + now rewrite for_loop_empty by lia.
    + intros i s' Hi IH. rewrite for_loop_last by lia.
      replace (i + 1 - 1) with i by lia. now apply Hb.
Qed.

Section Frames.

Context {T : Type} {ops : DoubleOps T} {pf : ProbFun T}.
Implicit Types (st : @locals T) (tb : @tables T).

(** Of the variables the body of the loop over individuals starts from, only
    [llval] has a say in the [llval] it ends with. *)
Lemma forward_ind_llval_indep Q0 Q Tr (nSnps_c : Z) st st' :
  llval st = llval st' ->
  llval (forward_ind Q0 Q Tr nSnps_c st) = llval (forward_ind Q0 Q Tr nSnps_c st').
Proof.
  intros Hll.
  assert (G : forall k : nat,
            llval (forward_ind Q0 Q Tr (1 + Z.of_nat k) st)
            = llval (forward_ind Q0 Q Tr (1 + Z.of_nat k) st')).
  { induction k as [|k IH].
    - rewrite !forward_ind_one by (simpl; lia).
      now rewrite !forward_first_llval, Hll.
    - replace (1 + Z.of_nat (Datatypes.S k)) with (1 + Z.of_nat k + 1) by lia.
      rewrite !forward_ind_last by lia.
      rewrite !forward_next_llval, IH. f_equal. f_equal.
      apply acc4_ext. intros s2 _. apply next_dot_ext.
      intros s1 Hs1. now apply forward_ind_indep. }
  destruct (Z_lt_le_dec nSnps_c 1) as [Hlt|Hge].
  - rewrite !forward_ind_one by lia. now rewrite !forward_first_llval, Hll.
  - replace nSnps_c with (1 + Z.of_nat (Z.to_nat (nSnps_c - 1))) by lia. apply G.
Qed.

(** Two loops over individuals whose emission and transition calls return
    the same values end with the same [llval], from any two states that
    agree on [llval]. *)
Lemma individuals_llval_agree (Q0 Q0' : Z -> Z -> T) (Q Q' : Z -> Z -> Z -> T)
    (Tr Tr' : Z -> Z -> Z -> T) (nInd_c nSnps_c : Z) st st' :
  (forall ind s, 0 <= ind < nInd_c -> 0 <= s < 4 -> Q0 ind s = Q0' ind s) ->
  (forall ind snp s, 0 <= ind < nInd_c -> 1 <= snp < nSnps_c -> 0 <= s < 4 ->
     Q ind snp s = Q' ind snp s) ->
  (forall snp s1 s2, 1 <= snp < nSnps_c -> 0 <= s1 < 4 -> 0 <= s2 < 4 ->
     Tr snp s1 s2 = Tr' snp s1 s2) ->
  llval st = llval st' ->
  llval (for_loop 0 nInd_c (fun ind s => forward_ind (Q0 ind) (Q ind) Tr nSnps_c s) st)
  = llval (for_loop 0 nInd_c
             (fun ind s => forward_ind (Q0' ind) (Q' ind) Tr' nSnps_c s) st').
Proof.
  intros H0 HQ HT Hll.
  apply for_loop_related with (Rel := fun s s' => llval s = llval s'); [|exact Hll].
  intros ind s s' Hind Hs.
  rewrite (forward_ind_ext (Q0 ind) (Q0' ind) (Q ind) (Q' ind) Tr Tr').
  - now apply forward_ind_llval_indep.
  - intros; now apply H0.
  - intros; now apply HQ.
  - exact HT.
Qed.

(** The cells of the tables, from any content of the arrays before the
    loops, at the index written either way round. *)
Lemma emission_tables_at pep pref palt pbcoef_mat nInd_c nSnps_c tb ind snp idx :
  0 <= ind < nInd_c -> 0 <= snp < nSnps_c -> idx = ind + snp * nInd_c ->
  pKaa (emission_tables pep pref palt pbcoef_mat nInd_c nSnps_c tb) idx
  = Kaa_cell (pbcoef_mat idx) (pep snp) (pref idx) (palt idx) /\
  pKbb (emission_tables pep pref palt pbcoef_mat nInd_c nSnps_c tb) idx
  = Kbb_cell (pbcoef_mat idx) (pep snp) (pref idx) (palt idx).
Proof.
  intros Hind Hsnp ->.
  exact (emission_tables_cell pep pref palt pbcoef_mat nInd_c nSnps_c tb ind snp
           Hind Hsnp).
Qed.

Lemma emission_tables_up_at ep_c pref palt pbcoef_mat nThreads_c nInd_c nSnps_c tb
    ind snp idx :
  0 <= ind < nInd_c -> 0 <= snp < nSnps_c -> idx = ind + snp * nInd_c ->
  pKaa (emission_tables_up ep_c pref palt pbcoef_mat nThreads_c nInd_c nSnps_c tb) idx
  = Kaa_cell (pbcoef_mat idx) ep_c (pref idx) (palt idx) /\
  pKbb (emission_tables_up ep_c pref palt pbcoef_mat nThreads_c nInd_c nSnps_c tb) idx
  = Kbb_cell (pbcoef_mat idx) ep_c (pref idx) (palt idx).
Proof.
  intros Hind Hsnp ->.
  apply (emission_tables_up_cell ep_c pref palt pbcoef_mat nThreads_c nInd_c nSnps_c
           tb (ind + snp * nInd_c)).
  nia.
Qed.

Lemma cell_in_bounds (nInd_c nSnps_c ind snp : Z) :
  0 <= ind < nInd_c -> 0 <= snp < nSnps_c ->
  0 <= ind + snp * nInd_c < nInd_c * nSnps_c.
Proof. intros; nia. Qed.

End Frames.

(** ** What the functions read *)

Section Bounds.

Context {T : Type} {ops : DoubleOps T} {pf : ProbFun T}.
Implicit Types (st : @locals T) (tb : @tables T).

(** X1.  With at least one marker, [ll_fs_scaled_err_c] reads [r] at the
    offsets [0 .. nSnps - 2] only, [ep] and [OPGP] at [0 .. nSnps - 1] only,
    and the four matrices at [0 .. nInd * nSnps - 1] only: two calls whose
    arrays agree there return the same value. *)
Theorem ll_fs_scaled_err_c_reads_in_bounds (maxThreads : Z)
    (r r' ep ep' : Z -> T) (ref ref' alt alt' : Z -> Z)
    (bcoef_mat bcoef_mat' Kab Kab' : Z -> T) (OPGP OPGP' : Z -> Z)
    (nInd nSnps nThreads : Z) :
  0 < nSnps ->
  (forall k, 0 <= k < nSnps - 1 -> r' k = r k) ->
  (forall k, 0 <= k < nSnps -> ep' k = ep k /\ OPGP' k = OPGP k) ->
  (forall i, 0 <= i < nInd * nSnps ->
     ref' i = ref i /\ alt' i = alt i /\ bcoef_mat' i = bcoef_mat i /\ Kab' i = Kab i) ->
  ll_fs_scaled_err_c maxThreads r' ep' ref' alt' bcoef_mat' Kab' OPGP' nInd nSnps nThreads
  = ll_fs_scaled_err_c maxThreads r ep ref alt bcoef_mat Kab OPGP nInd nSnps nThreads.
Proof.
  intros Hsnps Hr Hep Hm.
  assert (Cell : forall ind snp idx, 0 <= ind < nInd -> 0 <= snp < nSnps ->
            idx = ind + snp * nInd ->
            pKaa (emission_tables ep' ref' alt' bcoef_mat' nInd nSnps tables_uninit) idx
            = pKaa (emission_tables ep ref alt bcoef_mat nInd nSnps tables_uninit) idx /\
            pKbb (emission_tables ep' ref' alt' bcoef_mat' nInd nSnps tables_uninit) idx
            = pKbb (emission_tables ep ref alt bcoef_mat nInd nSnps tables_uninit) idx /\
            Kab' idx = Kab idx).
  { intros ind snp idx Hind Hsnp Hidx.
    destruct (emission_tables_at ep' ref' alt' bcoef_mat' nInd nSnps tables_uninit
                ind snp idx Hind Hsnp Hidx) as [A' B'].
    destruct (emission_tables_at ep ref alt bcoef_mat nInd nSnps tables_uninit
                ind snp idx Hind Hsnp Hidx) as [A B].
    destruct (Hm idx) as (E1 & E2 & E3 & E4).
    { subst idx. now apply cell_in_bounds. }
    destruct (Hep snp Hsnp) as [E5 _].
    rewrite A', B', A, B, E1, E2, E3, E4, E5. auto. }
  unfold ll_fs_scaled_err_c, ll_fs_scaled_err_loop, omp_parallel_for,
    ll_fs_scaled_err_ind. cbv zeta.
  f_equal. f_equal. apply for_loop_ext. intros ind st Hind.
  apply forward_ind_ext.
  - intros s Hs. unfold fs_Q0.
    destruct (Cell ind 0 ind) as (A & B & C); [lia|lia|lia|].
    destruct (Hep 0) as [_ E]; [lia|].
    now rewrite A, B, C, E.
  - intros snp s Hsnp Hs. unfold fs_Q.
    destruct (Cell ind snp (ind + nInd * snp)) as (A & B & C); [lia|lia|lia|].
    destruct (Hep snp) as [_ E]; [lia|].
    now rewrite A, B, C, E.
  - intros snp s1 s2 Hsnp _ _. unfold fs_Tr. now rewrite Hr by lia.
Qed.

(** X2.  With at least one marker, [ll_fs_ss_scaled_err_c] reads [r] at the
    offsets [0 .. 2 * (nSnps - 1) - 1] only, [OPGP] at [0 .. nSnps - 1] only
    and the three matrices at [0 .. nInd * nSnps - 1] only. *)
Theorem ll_fs_ss_scaled_err_c_reads_in_bounds
    (r r' Kaa Kaa' Kab Kab' Kbb Kbb' : Z -> T) (OPGP OPGP' : Z -> Z)
    (nInd nSnps : Z) :
  0 < nSnps ->
  (forall k, 0 <= k < 2 * (nSnps - 1) -> r' k = r k) ->
  (forall k, 0 <= k < nSnps -> OPGP' k = OPGP k) ->
  (forall i, 0 <= i < nInd * nSnps ->
     Kaa' i = Kaa i /\ Kab' i = Kab i /\ Kbb' i = Kbb i) ->
  ll_fs_ss_scaled_err_c r' Kaa' Kab' Kbb' OPGP' nInd nSnps
  = ll_fs_ss_scaled_err_c r Kaa Kab Kbb OPGP nInd nSnps.
Proof.
  intros Hsnps Hr Hc Hm.
  unfold ll_fs_ss_scaled_err_c, ll_fs_ss_scaled_err_loop, ll_fs_ss_scaled_err_ind.
  cbv zeta. f_equal. f_equal. apply for_loop_ext. intros ind st Hind.
  apply forward_ind_ext.
  - intros s Hs. unfold fs_Q0. cbn [pKaa pKbb].
    destruct (Hm ind) as (A & B & C); [nia|].
    now rewrite A, B, C, Hc by lia.
  - intros snp s Hsnp Hs. unfold fs_Q. cbn [pKaa pKbb].
    destruct (Hm (ind + nInd * snp)) as (A & B & C); [nia|].
    now rewrite A, B, C, Hc by lia.
  - intros snp s1 s2 Hsnp _ _. unfold ss_Tr.
    now rewrite (Hr (snp - 1)), (Hr (snp - 1 + nSnps - 1)) by lia.
Qed.

(** X3.  With at least one marker, [ll_fs_up_ss_scaled_err_c] reads [ep] at
    the offset 0 only, [r] at [0 .. 2 * (nSnps - 1) - 1] only, [config] at
    [0 .. nSnps - 1] only and the four matrices at [0 .. nInd * nSnps - 1]
    only. *)
Theorem ll_fs_up_ss_scaled_err_c_reads_in_bounds (maxThreads : Z)
    (r r' bcoef_mat bcoef_mat' ep ep' : Z -> T) (ref ref' alt alt' : Z -> Z)
    (Kab Kab' : Z -> T) (config config' : Z -> Z) (nInd nSnps nThreads : Z) :
  0 < nSnps ->
  (forall k, 0 <= k < 2 * (nSnps - 1) -> r' k = r k) ->
  ep' 0 = ep 0 ->
  (forall k, 0 <= k < nSnps -> config' k = config k) ->
  (forall i, 0 <= i < nInd * nSnps ->
     ref' i = ref i /\ alt' i = alt i /\ bcoef_mat' i = bcoef_mat i /\ Kab' i = Kab i) ->
  ll_fs_up_ss_scaled_err_c maxThreads r' bcoef_mat' ep' ref' alt' Kab' config'
    nInd nSnps nThreads
  = ll_fs_up_ss_scaled_err_c maxThreads r bcoef_mat ep ref alt Kab config
      nInd nSnps nThreads.
Proof.
  intros Hsnps Hr Hep Hc Hm.
  set (nT := set_up_threads nThreads maxThreads).
  assert (Cell : forall ind snp idx, 0 <= ind < nInd -> 0 <= snp < nSnps ->
            idx = ind + snp * nInd ->
            pKaa (emission_tables_up (ep' 0) ref' alt' bcoef_mat' nT nInd nSnps
                    tables_uninit) idx
            = pKaa (emission_tables_up (ep 0) ref alt bcoef_mat nT nInd nSnps
                      tables_uninit) idx /\
            pKbb (emission_tables_up (ep' 0) ref' alt' bcoef_mat' nT nInd nSnps
                    tables_uninit) idx
            = pKbb (emission_tables_up (ep 0) ref alt bcoef_mat nT nInd nSnps
                      tables_uninit) idx /\
            Kab' idx = Kab idx).
  { intros ind snp idx Hind Hsnp Hidx.
    destruct (emission_tables_up_at (ep' 0) ref' alt' bcoef_mat' nT nInd nSnps
                tables_uninit ind snp idx Hind Hsnp Hidx) as [A' B'].
    destruct (emission_tables_up_at (ep 0) ref alt bcoef_mat nT nInd nSnps
                tables_uninit ind snp idx Hind Hsnp Hidx) as [A B].
    destruct (Hm idx) as (E1 & E2 & E3 & E4).
    { subst idx. now apply cell_in_bounds. }
    rewrite A', B', A, B, E1, E2, E3, E4, Hep. auto. }
  unfold ll_fs_up_ss_scaled_err_c, ll_fs_up_ss_scaled_err_loop, omp_parallel_for,
    ll_fs_up_ss_scaled_err_ind. cbv zeta. fold nT.
  f_equal. f_equal. apply for_loop_ext. intros ind st Hind.
  apply forward_ind_ext.
  - intros s Hs. unfold up_Q0.
    destruct (Cell ind 0 ind) as (A & B & C); [lia|lia|lia|].
    now rewrite A, B, C, Hc by lia.
  - intros snp s Hsnp Hs. unfold up_Q.
    destruct (Cell ind snp (ind + nInd * snp)) as (A & B & C); [lia|lia|lia|].
    now rewrite A, B, C, Hc by lia.
  - intros snp s1 s2 Hsnp _ _. unfold ss_Tr.
    now rewrite (Hr (snp - 1)), (Hr (snp - 1 + nSnps - 1)) by lia.
Qed.

(** X4.  With at least one marker, no variable is read before it is
    assigned: whatever [pKaa], [pKbb], [sum], [w_new], [alphaTilde] and
    [alphaDot] hold when they are declared, the loops of each function leave
    in [llval], started at zero, the value the function returns up to the
    final negation. *)
Theorem unassigned_variables_are_not_read (maxThreads : Z)
    (r ep : Z -> T) (ref alt : Z -> Z) (bcoef_mat Kaa Kab Kbb : Z -> T)
    (OPGP config : Z -> Z) (nInd nSnps nThreads : Z) tb st :
  0 < nSnps ->
  llval st = ofZ 0 ->
  let nThreads_c := set_up_threads nThreads maxThreads in
  dmul (ofZ (-1))
    (llval (ll_fs_scaled_err_loop r
              (emission_tables ep ref alt bcoef_mat nInd nSnps tb)
              Kab OPGP nInd nSnps nThreads_c st))
  = ll_fs_scaled_err_c maxThreads r ep ref alt bcoef_mat Kab OPGP nInd nSnps nThreads
  /\
  dmul (ofZ (-1))
    (llval (ll_fs_ss_scaled_err_loop r (mkTables Kaa Kbb) Kab OPGP nInd nSnps st))
  = ll_fs_ss_scaled_err_c r Kaa Kab Kbb OPGP nInd nSnps
  /\
  dmul (ofZ (-1))
    (llval (ll_fs_up_ss_scaled_err_loop r
              (emission_tables_up (ep 0) ref alt bcoef_mat nThreads_c nInd nSnps tb)
              Kab config nInd nSnps nThreads_c st))
  = ll_fs_up_ss_scaled_err_c maxThreads r bcoef_mat ep ref alt Kab config
      nInd nSnps nThreads.
Proof.
  intros Hsnps Hll nT.
  assert (Cell : forall ind snp idx, 0 <= ind < nInd -> 0 <= snp < nSnps ->
            idx = ind + snp * nInd ->
            (pKaa (emission_tables ep ref alt bcoef_mat nInd nSnps tb) idx
             = pKaa (emission_tables ep ref alt bcoef_mat nInd nSnps tables_uninit) idx /\
             pKbb (emission_tables ep ref alt bcoef_mat nInd nSnps tb) idx
             = pKbb (emission_tables ep ref alt bcoef_mat nInd nSnps tables_uninit) idx)).
  { intros ind snp idx Hind Hsnp Hidx.
    destruct (emission_tables_at ep ref alt bcoef_mat nInd nSnps tb
                ind snp idx Hind Hsnp Hidx) as [A' B'].
    destruct (emission_tables_at ep ref alt bcoef_mat nInd nSnps tables_uninit
                ind snp idx Hind Hsnp Hidx) as [A B].
    now rewrite A', B', A, B. }
  assert (CellUp : forall ind snp idx, 0 <= ind < nInd -> 0 <= snp < nSnps ->
            idx = ind + snp * nInd ->
            (pKaa (emission_tables_up (ep 0) ref alt bcoef_mat nT nInd nSnps tb) idx
             = pKaa (emission_tables_up (ep 0) ref alt bcoef_mat nT nInd nSnps
                       tables_uninit) idx /\
             pKbb (emission_tables_up (ep 0) ref alt bcoef_mat nT nInd nSnps tb) idx
             = pKbb (emission_tables_up (ep 0) ref alt bcoef_mat nT nInd nSnps
                       tables_uninit) idx)).
  { intros ind snp idx Hind Hsnp Hidx.
    destruct (emission_tables_up_at (ep 0) ref alt bcoef_mat nT nInd nSnps tb
                ind snp idx Hind Hsnp Hidx) as [A' B'].
    destruct (emission_tables_up_at (ep 0) ref alt bcoef_mat nT nInd nSnps
                tables_uninit ind snp idx Hind Hsnp Hidx) as [A B].
    now rewrite A', B', A, B. }
  unfold ll_fs_scaled_err_c, ll_fs_ss_scaled_err_c, ll_fs_up_ss_scaled_err_c,
    ll_fs_scaled_err_loop, ll_fs_ss_scaled_err_loop, ll_fs_up_ss_scaled_err_loop,
    omp_parallel_for, ll_fs_scaled_err_ind, ll_fs_ss_scaled_err_ind,
    ll_fs_up_ss_scaled_err_ind.
  cbv zeta. fold nT.
  split; [|split]; f_equal.
  - apply (individuals_llval_agree
             (fun ind => fs_Q0 OPGP _ Kab ind) (fun ind => fs_Q0 OPGP _ Kab ind)
             (fun ind => fs_Q OPGP _ Kab nInd ind) (fun ind => fs_Q OPGP _ Kab nInd ind)
             (fs_Tr r) (fs_Tr r)); try exact Hll; try reflexivity.
    + intros ind s Hind Hs. unfold fs_Q0.
      destruct (Cell ind 0 ind) as [A B]; [lia|lia|lia|]. now rewrite A, B.
    + intros ind snp s Hind Hsnp Hs. unfold fs_Q.
      destruct (Cell ind snp (ind + nInd * snp)) as [A B]; [lia|lia|lia|].
      now rewrite A, B.
  - apply (individuals_llval_agree
             (fun ind => fs_Q0 OPGP _ Kab ind) (fun ind => fs_Q0 OPGP _ Kab ind)
             (fun ind => fs_Q OPGP _ Kab nInd ind) (fun ind => fs_Q OPGP _ Kab nInd ind)
             (ss_Tr r nSnps) (ss_Tr r nSnps)); try exact Hll; reflexivity.
  - apply (individuals_llval_agree
             (fun ind => up_Q0 config _ Kab ind) (fun ind => up_Q0 config _ Kab ind)
             (fun ind => up_Q config _ Kab nInd ind)
             (fun ind => up_Q config _ Kab nInd ind)
             (ss_Tr r nSnps) (ss_Tr r nSnps)); try exact Hll; try reflexivity.
    + intros ind s Hind Hs. unfold up_Q0.
      destruct (CellUp ind 0 ind) as [A B]; [lia|lia|lia|]. now rewrite A, B.
    + intros ind snp s Hind Hsnp Hs. unfold up_Q.
      destruct (CellUp ind snp (ind + nInd * snp)) as [A B]; [lia|lia|lia|].
      now rewrite A, B.
Qed.

End Bounds.

(** ** No individuals, no markers: the function without automatic arrays *)

Section Empty.

Context {T : Type} {ops : DoubleOps T} {pf : ProbFun T}.
Implicit Types (st : @locals T) (tb : @tables T).

Lemma no_individuals (r Kaa Kab Kbb : Z -> T) (OPGP : Z -> Z) (nInd nSnps : Z) :
  nInd <= 0 ->
  ll_fs_ss_scaled_err_c r Kaa Kab Kbb OPGP nInd nSnps = dmul (ofZ (-1)) (ofZ 0).
Proof.
  intros H. unfold ll_fs_ss_scaled_err_c, ll_fs_ss_scaled_err_loop.
  cbv zeta. now rewrite for_loop_empty by lia.
Qed.

(** X6.  With [nSnps] at 0 or less [ll_fs_ss_scaled_err_c] does not return
    at once: for each individual the block of the first marker runs all the
    same, on [OPGP[0]] and on the cells [ind] of [Kaa], [Kab] and [Kbb], and
    the value returned is the one returned for [nSnps] at 1. *)
Theorem no_marker_still_runs_first_marker
    (r Kaa Kab Kbb : Z -> T) (OPGP : Z -> Z) (nInd nSnps : Z) :
  nSnps <= 0 ->
  ll_fs_ss_scaled_err_c r Kaa Kab Kbb OPGP nInd nSnps
  = dmul (ofZ (-1))
      (llval (for_loop 0 nInd
                (fun ind st =>
                   forward_first
                     (fun s1 => Qentry (OPGP 0) (Kaa ind) (Kab ind) (Kbb ind) (s1 + 1))
                     st)
                locals_init))
  /\
  ll_fs_ss_scaled_err_c r Kaa Kab Kbb OPGP nInd nSnps
  = ll_fs_ss_scaled_err_c r Kaa Kab Kbb OPGP nInd 1.
Proof.
  intros H.
  unfold ll_fs_ss_scaled_err_c, ll_fs_ss_scaled_err_loop, ll_fs_ss_scaled_err_ind.
  cbv zeta.
  split; f_equal; f_equal.
  - apply for_loop_ext. intros ind st _. now rewrite forward_ind_one by lia.
  - apply for_loop_ext. intros ind st _. now rewrite !forward_ind_one by lia.
Qed.

End Empty.

(** X5.  With [nInd] at 0 or less, [ll_fs_ss_scaled_err_c] returns [-1 * 0]
    whatever the other arguments are: zero on the reals, and on binary64 the
    negative zero. *)
Theorem no_individual_returns_minus_zero (nInd nSnps : Z) (OPGP : Z -> Z) :
  nInd <= 0 ->
  (forall (pf : ProbFun R) (r Kaa Kab Kbb : Z -> R),
     ll_fs_ss_scaled_err_c r Kaa Kab Kbb OPGP nInd nSnps = 0%R) /\
  (forall log pow junk (pf : ProbFun spec_float) (r Kaa Kab Kbb : Z -> spec_float),
     ll_fs_ss_scaled_err_c (ops := Binary64Ops log pow junk) r Kaa Kab Kbb OPGP
       nInd nSnps = S754_zero true).
Proof.
  intros H. split.
  - intros pf r Kaa Kab Kbb.
    rewrite (no_individuals r Kaa Kab Kbb OPGP nInd nSnps H).
    cbn [dmul ofZ RealOps]. ring.
  - intros log pow junk pf r Kaa Kab Kbb.
    rewrite (no_individuals (ops := Binary64Ops log pow junk) r Kaa Kab Kbb OPGP
               nInd nSnps H).
    reflexivity.
Qed.

Lemma no_individual_returns_minus_zero_witness :
  0 <= 0 /\
  ll_fs_ss_scaled_err_c (ops := ExampleBinary64) (pf := ExampleProbFun64)
    ex64_r ex64_one ex64_one ex64_one ex_code 0 2
  = S754_zero true.
Proof.
  split; [lia|].
  apply (proj2 (no_individual_returns_minus_zero 0 2 ex_code ltac:(lia))
           ex_log ex_pow S754_nan ExampleProbFun64 ex64_r ex64_one ex64_one ex64_one).
Defined.

Lemma no_marker_still_runs_first_marker_witness :
  0 <= 0 /\
  ll_fs_ss_scaled_err_c (pf := ExampleProbFun) ex_r ex_Kaa ex_Kab ex_Kbb ex_code 2 0
  = ll_fs_ss_scaled_err_c (pf := ExampleProbFun) ex_r ex_Kaa ex_Kab ex_Kbb ex_code 2 1.
Proof.
  split; [lia|].
  apply (proj2 (no_marker_still_runs_first_marker (pf := ExampleProbFun) ex_r
                  ex_Kaa ex_Kab ex_Kbb ex_code 2 0 ltac:(lia))).
Defined.

(** ** More on the emission tables *)

Section TablesMore.

Context {T : Type} {ops : DoubleOps T}.
Implicit Types (tb : @tables T).

(** X7.  The two tables are each other's mirror image: exchanging the
    reference and the alternate counts exchanges [pKaa] and [pKbb], cell by
    cell, in both fill loops. *)
Theorem exchanging_counts_exchanges_tables
    (ep : Z -> T) (ref alt : Z -> Z) (bcoef_mat : Z -> T)
    (nInd nSnps nThreads_c ind snp : Z) tb tb' :
  0 <= ind < nInd -> 0 <= snp < nSnps ->
  let i := ind + snp * nInd in
  (pKaa (emission_tables ep alt ref bcoef_mat nInd nSnps tb) i
   = pKbb (emission_tables ep ref alt bcoef_mat nInd nSnps tb') i /\
   pKbb (emission_tables ep alt ref bcoef_mat nInd nSnps tb) i
   = pKaa (emission_tables ep ref alt bcoef_mat nInd nSnps tb') i) /\
  (pKaa (emission_tables_up (ep 0) alt ref bcoef_mat nThreads_c nInd nSnps tb) i
   = pKbb (emission_tables_up (ep 0) ref alt bcoef_mat nThreads_c nInd nSnps tb') i /\
   pKbb (emission_tables_up (ep 0) alt ref bcoef_mat nThreads_c nInd nSnps tb) i
   = pKaa (emission_tables_up (ep 0) ref alt bcoef_mat nThreads_c nInd nSnps tb') i).
Proof.
  intros Hind Hsnp i.
  destruct (emission_tables_at ep alt ref bcoef_mat nInd nSnps tb ind snp i
              Hind Hsnp eq_refl) as [A1 B1].
  destruct (emission_tables_at ep ref alt bcoef_mat nInd nSnps tb' ind snp i
              Hind Hsnp eq_refl) as [A2 B2].
  destruct (emission_tables_up_at (ep 0) alt ref bcoef_mat nThreads_c nInd nSnps tb
              ind snp i Hind Hsnp eq_refl) as [A3 B3].
  destruct (emission_tables_up_at (ep 0) ref alt bcoef_mat nThreads_c nInd nSnps tb'
              ind snp i Hind Hsnp eq_refl) as [A4 B4].
  rewrite A1, B1, A2, B2, A3, B3, A4, B4.
  repeat split.
Qed.

(** X8.  When all markers have the error rate of the first one, the loops of
    [ll_fs_scaled_err_c] and the loop of [ll_fs_up_ss_scaled_err_c] fill the
    tables alike. *)
Theorem constant_error_rate_tables_agree
    (ep : Z -> T) (ref alt : Z -> Z) (bcoef_mat : Z -> T)
    (nInd nSnps nThreads_c ind snp : Z) tb tb' :
  0 <= ind < nInd -> 0 <= snp < nSnps ->
  ep snp = ep 0 ->
  let i := ind + snp * nInd in
  pKaa (emission_tables ep ref alt bcoef_mat nInd nSnps tb) i
  = pKaa (emission_tables_up (ep 0) ref alt bcoef_mat nThreads_c nInd nSnps tb') i /\
  pKbb (emission_tables ep ref alt bcoef_mat nInd nSnps tb) i
  = pKbb (emission_tables_up (ep 0) ref alt bcoef_mat nThreads_c nInd nSnps tb') i.
Proof.
  intros Hind Hsnp Hep i.
  destruct (emission_tables_at ep ref alt bcoef_mat nInd nSnps tb ind snp i
              Hind Hsnp eq_refl) as [A1 B1].
  destruct (emission_tables_up_at (ep 0) ref alt bcoef_mat nThreads_c nInd nSnps tb'
              ind snp i Hind Hsnp eq_refl) as [A2 B2].
  rewrite A1, B1, A2, B2, Hep. split; reflexivity.
Qed.

End TablesMore.

Section RealTablesMore.

Local Open Scope R_scope.

Lemma pow_between_0_1 (x : R) (n : nat) : 0 <= x <= 1 -> 0 <= x ^ n <= 1.
Proof.
  intros [H0 H1]. split.
  - now apply pow_le.
  - rewrite <- (pow1 n). now apply pow_incr.
Qed.

(** X9.  On the reals, with an error rate between 0 and 1, a coefficient
    that is not negative and counts that are not negative, the two densities
    of a cell lie between 0 and the coefficient, in both fill loops. *)
Theorem densities_between_zero_and_coefficient
    (ep : Z -> R) (ref alt : Z -> Z) (bcoef_mat : Z -> R)
    (nInd nSnps nThreads_c ind snp : Z) :
  (0 <= ind < nInd)%Z -> (0 <= snp < nSnps)%Z ->
  let i := (ind + snp * nInd)%Z in
  (0 <= ref i)%Z -> (0 <= alt i)%Z ->
  0 <= bcoef_mat i -> 0 <= ep snp <= 1 -> 0 <= ep 0%Z <= 1 ->
  let tb := emission_tables ep ref alt bcoef_mat nInd nSnps tables_uninit in
  let tb_up := emission_tables_up (ep 0%Z) ref alt bcoef_mat nThreads_c nInd nSnps
                 tables_uninit in
  (0 <= pKaa tb i <= bcoef_mat i /\ 0 <= pKbb tb i <= bcoef_mat i) /\
  (0 <= pKaa tb_up i <= bcoef_mat i /\ 0 <= pKbb tb_up i <= bcoef_mat i).
Proof.
  intros Hind Hsnp i Href Halt Hb Hep Hep0 tb tb_up.
  destruct (emission_tables_at ep ref alt bcoef_mat nInd nSnps tables_uninit ind snp i
              Hind Hsnp eq_refl) as [A B].
  destruct (emission_tables_up_at (ep 0%Z) ref alt bcoef_mat nThreads_c nInd nSnps
              tables_uninit ind snp i Hind Hsnp eq_refl) as [A' B'].
  fold tb in A, B. fold tb_up in A', B'.
  rewrite Kaa_cell_real in A, A' by assumption.
  rewrite Kbb_cell_real in B, B' by assumption.
  rewrite A, B, A', B'.
  assert (G : forall x y b : R, 0 <= b -> 0 <= x <= 1 -> 0 <= y <= 1 ->
                0 <= b * x * y <= b).
  { intros x y b Hb' [Hx0 Hx1] [Hy0 Hy1].
    assert (0 <= b * x) by now apply Rmult_le_pos.
    assert (b * x <= b) by nra.
    split; [now apply Rmult_le_pos|nra]. }
  repeat split; apply G; try assumption; apply pow_between_0_1; lra.
Qed.

End RealTablesMore.

Lemma exchanging_counts_exchanges_tables_witness :
  0 <= 1 < 2 /\ 0 <= 1 < 2 /\
  pKaa (emission_tables ex_ep ex_alt ex_ref ex_bcoef 2 2 tables_uninit) (1 + 1 * 2)
  = pKbb (emission_tables ex_ep ex_ref ex_alt ex_bcoef 2 2 tables_uninit) (1 + 1 * 2).
Proof.
  split; [lia|]. split; [lia|].
  apply (proj1 (proj1
           (exchanging_counts_exchanges_tables ex_ep ex_ref ex_alt ex_bcoef 2 2 1 1 1
              tables_uninit tables_uninit ltac:(lia) ltac:(lia)))).
Defined.

Lemma constant_error_rate_tables_agree_witness :
  0 <= 1 < 2 /\ 0 <= 1 < 2 /\ ex_ep 1 = ex_ep 0 /\
  pKaa (emission_tables ex_ep ex_ref ex_alt ex_bcoef 2 2 tables_uninit) (1 + 1 * 2)
  = pKaa (emission_tables_up (ex_ep 0) ex_ref ex_alt ex_bcoef 1 2 2 tables_uninit)
         (1 + 1 * 2).
Proof.
  split; [lia|]. split; [lia|]. split; [reflexivity|].
  apply (proj1
           (constant_error_rate_tables_agree ex_ep ex_ref ex_alt ex_bcoef 2 2 1 1 1
              tables_uninit tables_uninit ltac:(lia) ltac:(lia) eq_refl)).
Defined.

Lemma densities_between_zero_and_coefficient_witness :
  (0 <= 1 < 2) /\ (0 <= 1 < 2) /\ 0 <= ex_ref 3 /\ 0 <= ex_alt 3 /\
  (0 <= ex_bcoef 3)%R /\ (0 <= ex_ep 1 <= 1)%R /\ (0 <= ex_ep 0 <= 1)%R /\
  (0 <= pKaa (emission_tables ex_ep ex_ref ex_alt ex_bcoef 2 2 tables_uninit) 3
   <= ex_bcoef 3)%R.
Proof.
  assert (H1 : 0 <= 1 < 2) by lia.
  assert (H2 : 0 <= ex_ref 3) by (vm_compute; discriminate).
  assert (H3 : 0 <= ex_alt 3) by (vm_compute; discriminate).
  assert (H4 : (0 <= ex_bcoef 3)%R)
    by (unfold ex_bcoef; cbn -[Rplus Rmult Rdiv Rinv Rminus IZR]; lra).
  assert (H5 : (0 <= ex_ep 1 <= 1)%R) by (unfold ex_ep; lra).
  assert (H6 : (0 <= ex_ep 0 <= 1)%R) by (unfold ex_ep; lra).
  repeat (split; [assumption|]).
  apply (proj1 (proj1
           (densities_between_zero_and_coefficient ex_ep ex_ref ex_alt ex_bcoef
              2 2 1 1 1 H1 H1 H2 H3 H4 H5 H6))).
Defined.

(** ** The shared and the sex-specific model *)

(** X10.  Whenever [Tmat_ss], called with the same fraction twice, returns
    what [Tmat] returns for that fraction, [ll_fs_scaled_err_c] is
    [ll_fs_ss_scaled_err_c] called on the tables [pKaa] and [pKbb] of the
    former and on the fractions [r] written twice in a row, once as the
    paternal and once as the maternal block. *)
Theorem shared_fractions_as_sex_specific
    {T : Type} {ops : DoubleOps T} {pf : ProbFun T} (maxThreads : Z)
    (r ep : Z -> T) (ref alt : Z -> Z) (bcoef_mat Kab : Z -> T) (OPGP : Z -> Z)
    (nInd nSnps nThreads : Z) :
  (forall s1 s2 x, 0 <= s1 < 4 -> 0 <= s2 < 4 -> Tmat_ss s1 s2 x x = Tmat s1 s2 x) ->
  let tb := emission_tables ep ref alt bcoef_mat nInd nSnps tables_uninit in
  ll_fs_ss_scaled_err_c (two_blocks (nSnps - 1) r r) (pKaa tb) Kab (pKbb tb) OPGP
    nInd nSnps
  = ll_fs_scaled_err_c maxThreads r ep ref alt bcoef_mat Kab OPGP nInd nSnps nThreads.
Proof.
  intros Hss tb.
  unfold ll_fs_ss_scaled_err_c, ll_fs_scaled_err_c, ll_fs_ss_scaled_err_loop,
    ll_fs_scaled_err_loop, omp_parallel_for, ll_fs_ss_scaled_err_ind,
    ll_fs_scaled_err_ind.
  cbv zeta. fold tb. f_equal. f_equal.
  apply for_loop_ext. intros ind st Hind.
  apply forward_ind_ext; try reflexivity.
  intros snp s1 s2 Hsnp Hs1 Hs2. unfold ss_Tr, fs_Tr.
  rewrite two_blocks_first by lia.
  replace (snp - 1 + nSnps - 1) with (snp - 1 + (nSnps - 1)) by lia.
  rewrite two_blocks_second by lia.
  now apply Hss.
Qed.

Lemma shared_fractions_as_sex_specific_witness :
  (forall s1 s2 x, 0 <= s1 < 4 -> 0 <= s2 < 4 ->
     Tmat_ss (ProbFun := ExampleProbFun) s1 s2 x x
     = Tmat (ProbFun := ExampleProbFun) s1 s2 x) /\
  ll_fs_ss_scaled_err_c (pf := ExampleProbFun) (two_blocks (2 - 1) ex_r ex_r)
    (pKaa (emission_tables ex_ep ex_ref ex_alt ex_bcoef 2 2 tables_uninit)) ex_Kab
    (pKbb (emission_tables ex_ep ex_ref ex_alt ex_bcoef 2 2 tables_uninit)) ex_code
    2 2
  = ll_fs_scaled_err_c (pf := ExampleProbFun) 4 ex_r ex_ep ex_ref ex_alt ex_bcoef
      ex_Kab ex_code 2 2 0.
Proof.
  assert (H : forall s1 s2 x, 0 <= s1 < 4 -> 0 <= s2 < 4 ->
                Tmat_ss (ProbFun := ExampleProbFun) s1 s2 x x
                = Tmat (ProbFun := ExampleProbFun) s1 s2 x)
    by (intros; reflexivity).
  split; [exact H|].
  exact (shared_fractions_as_sex_specific (pf := ExampleProbFun) 4 ex_r ex_ep ex_ref
           ex_alt ex_bcoef ex_Kab ex_code 2 2 0 H).
Defined.

(** ** The schedules and the thread count on the examples *)

Lemma ll_fs_scaled_err_any_schedule_witness :
  Permutation (List.concat [[1]; [0]]) (map Z.of_nat (seq 0 (Z.to_nat 2))) /\
  llval (omp_parallel_for_reduction [[1]; [0]]
           (ll_fs_scaled_err_ind (pf := ExampleProbFun) ex_r ex_tables ex_Kab ex_code
              2 2) locals_init)
  = llval (ll_fs_scaled_err_loop (pf := ExampleProbFun) ex_r ex_tables ex_Kab ex_code
             2 2 2 locals_init).
Proof.
  assert (H : Permutation (List.concat [[1]; [0]])
                (map Z.of_nat (seq 0 (Z.to_nat 2)))) by apply perm_swap.
  split; [exact H|].
  exact (ll_fs_scaled_err_any_schedule (pf := ExampleProbFun) ex_r ex_tables ex_Kab
           ex_code 2 2 2 [[1]; [0]] H).
Defined.

Lemma ll_fs_up_ss_scaled_err_any_schedule_witness :
  Permutation (List.concat [[1]; [0]]) (map Z.of_nat (seq 0 (Z.to_nat 2))) /\
  llval (omp_parallel_for_reduction [[1]; [0]]
           (ll_fs_up_ss_scaled_err_ind (pf := ExampleProbFun) ex_r ex_tables ex_Kab
              ex_code 2 2) locals_init)
  = llval (ll_fs_up_ss_scaled_err_loop (pf := ExampleProbFun) ex_r ex_tables ex_Kab
             ex_code 2 2 2 locals_init).
Proof.
  assert (H : Permutation (List.concat [[1]; [0]])
                (map Z.of_nat (seq 0 (Z.to_nat 2)))) by apply perm_swap.
  split; [exact H|].
  exact (ll_fs_up_ss_scaled_err_any_schedule (pf := ExampleProbFun) ex_r ex_tables
           ex_Kab ex_code 2 2 2 [[1]; [0]] H).
Defined.

(** X15.  Compiled without OpenMP, where [omp_get_max_threads] is the
    function of lines 29-31, every request ends as one thread; and in
    general a request of one thread or more ends as the smaller of the
    request and the maximum, and setting up the threads a second time from
    the result changes nothing. *)
Theorem thread_set_up_without_openmp (nThreads maxThreads : Z) :
  set_up_threads nThreads omp_get_max_threads_fallback = 1 /\
  set_up_threads (set_up_threads nThreads maxThreads) maxThreads
  = set_up_threads nThreads maxThreads /\
  (1 <= nThreads -> set_up_threads nThreads maxThreads = Z.min nThreads maxThreads).
Proof.
  unfold set_up_threads, omp_get_max_threads_fallback. cbv zeta.
  repeat split.
  - destruct (Z.leb_spec nThreads 0); [reflexivity|].
    destruct (Z.gtb_spec nThreads 1); lia.
  - destruct (Z.leb_spec nThreads 0) as [H0|H0];
      destruct (Z.gtb_spec nThreads maxThreads) as [H1|H1];
      destruct (Z.leb_spec maxThreads 0) as [H2|H2];
      destruct (Z.gtb_spec maxThreads maxThreads) as [H3|H3]; try lia;
      try reflexivity;
      destruct (Z.leb_spec nThreads 0); try lia;
      destruct (Z.gtb_spec nThreads maxThreads); lia.
  - intros H. destruct (Z.leb_spec nThreads 0); [lia|].
    destruct (Z.gtb_spec nThreads maxThreads); lia.
Qed.

Lemma thread_set_up_without_openmp_witness :
  1 <= 3 /\ set_up_threads 3 8 = Z.min 3 8.
Proof.
  split; [lia|].
  apply (proj2 (proj2 (thread_set_up_without_openmp 3 8))). lia.
Defined.

(** ** Rescaling does not change the likelihood *)

Section RealUnscaled.

Context {pf : ProbFun R}.
Implicit Types (st : @locals R) (tb : @tables R).

Local Open Scope R_scope.

Lemma ln_quotient (x y : R) : 0 < x -> 0 < y -> ln (x / y) = ln x - ln y.
Proof.
  intros Hx Hy. unfold Rdiv.
  rewrite ln_mult by (try apply Rinv_0_lt_compat; assumption).
  rewrite ln_Rinv by assumption. ring.
Qed.

Lemma sum_states_quotient (f : Z -> R) (c : R) :
  sum_states (fun s => f s / c) = sum_states f / c.
Proof. unfold sum_states, Rdiv. ring. Qed.

(** As long as the weights of the steps are positive, the rescaled vector
    is the unscaled one divided by its sum, and [llval] has grown by the
    logarithm of that sum. *)
Lemma forward_ind_unscaled (Q0 : Z -> R) (Q : Z -> Z -> R) (Tr : Z -> Z -> Z -> R)
    (k : nat) st :
  (forall j, (j <= k)%nat ->
     0 < sum_states (alphaDot (forward_ind Q0 Q Tr (Z.of_nat j + 1) st))) ->
  let U := forward_unscaled Q0 Q Tr k in
  0 < sum_states U /\
  llval (forward_ind Q0 Q Tr (Z.of_nat k + 1) st) = llval st + ln (sum_states U) /\
  (forall s, (0 <= s < 4)%Z ->
     alphaTilde (forward_ind Q0 Q Tr (Z.of_nat k + 1) st) s = U s / sum_states U).
Proof.
  induction k as [|k IH]; intros Hw; cbv zeta.
  - specialize (Hw O (Nat.le_refl _)).
    change (Z.of_nat 0 + 1)%Z with 1%Z in *.
    rewrite forward_ind_one in * by lia.
    assert (E : sum_states (alphaDot (forward_first Q0 st))
                = sum_states (forward_unscaled Q0 Q Tr 0)).
    { apply sum_states_ext. intros s Hs. now rewrite forward_first_alphaDot. }
    rewrite E in Hw.
    assert (E' : acc4 (first_dot Q0) = sum_states (forward_unscaled Q0 Q Tr 0)).
    { rewrite acc4_sum_states. reflexivity. }
    split; [exact Hw|]. split.
    + rewrite forward_first_llval, E'. reflexivity.
    + intros s Hs. rewrite forward_first_alphaTilde, E' by exact Hs. reflexivity.
  - destruct IH as (IHpos & IHl & IHa).
    { intros j Hj. apply Hw. lia. }
    specialize (Hw (Datatypes.S k) (Nat.le_refl _)).
    replace (Z.of_nat (Datatypes.S k) + 1)%Z with (Z.of_nat k + 1 + 1)%Z in * by lia.
    rewrite forward_ind_last in * by lia.
    set (stk := forward_ind Q0 Q Tr (Z.of_nat k + 1) st) in *.
    set (U := forward_unscaled Q0 Q Tr k) in *.
    set (U' := forward_unscaled Q0 Q Tr (Datatypes.S k)).
    assert (Edot : forall s2, next_dot Q Tr (Z.of_nat k + 1) (alphaTilde stk) s2
                              = U' s2 / sum_states U).
    { intros s2. unfold next_dot. rewrite acc4_sum_states.
      rewrite (sum_states_ext _ (fun s1 => Tr (Z.of_nat k + 1)%Z s1 s2 * U s1
                                           / sum_states U)).
      - rewrite sum_states_quotient. unfold U'. cbn [forward_unscaled dmul RealOps].
        fold U. unfold Rdiv. ring.
      - intros s1 Hs1. cbn [dmul RealOps]. rewrite IHa by exact Hs1.
        unfold Rdiv. ring. }
    assert (Ew : acc4 (next_dot Q Tr (Z.of_nat k + 1) (alphaTilde stk))
                 = sum_states U' / sum_states U).
    { rewrite acc4_sum_states, <- sum_states_quotient.
      apply sum_states_ext. intros s2 _. apply Edot. }
    assert (Ew' : sum_states (alphaDot (forward_next Q Tr (Z.of_nat k + 1) stk))
                  = sum_states U' / sum_states U).
    { rewrite <- Ew, acc4_sum_states. apply sum_states_ext.
      intros s Hs. now rewrite forward_next_alphaDot. }
    rewrite Ew' in Hw.
    assert (Hpos' : 0 < sum_states U').
    { replace (sum_states U') with (sum_states U' / sum_states U * sum_states U)
        by (field; lra).
      now apply Rmult_lt_0_compat. }
    split; [exact Hpos'|]. split.
    + rewrite forward_next_llval, Ew, IHl. cbn [dadd dlog RealOps].
      rewrite ln_quotient by assumption. ring.
    + intros s Hs. rewrite forward_next_alphaTilde, Ew, Edot by exact Hs.
      cbn [ddiv RealOps]. field. split; lra.
Qed.

(** X13.  In each of the three functions and for every individual: when
    the weight of every step is positive, the body of the loop over
    individuals adds to [llval] the logarithm of the likelihood computed
    without any rescaling, the sum over the four states of the unscaled
    forward probabilities at the last marker. *)
Theorem rescaling_keeps_the_likelihood
    (r : Z -> R) tb (Kab : Z -> R) (OPGP config : Z -> Z) (nInd nSnps ind : Z) st :
  (0 < nSnps)%Z ->
  ((forall snp, (0 <= snp < nSnps)%Z ->
      0 < sum_states (alphaDot (ll_fs_scaled_err_upto r tb Kab OPGP nInd ind snp st))) ->
   llval (ll_fs_scaled_err_ind r tb Kab OPGP nInd nSnps ind st)
   = llval st
     + ln (sum_states (forward_unscaled (fs_Q0 OPGP tb Kab ind)
                         (fs_Q OPGP tb Kab nInd ind) (fs_Tr r)
                         (Z.to_nat (nSnps - 1))))) /\
  ((forall snp, (0 <= snp < nSnps)%Z ->
      0 < sum_states (alphaDot (ll_fs_ss_scaled_err_upto r tb Kab OPGP nInd nSnps
                                  ind snp st))) ->
   llval (ll_fs_ss_scaled_err_ind r tb Kab OPGP nInd nSnps ind st)
   = llval st
     + ln (sum_states (forward_unscaled (fs_Q0 OPGP tb Kab ind)
                         (fs_Q OPGP tb Kab nInd ind) (ss_Tr r nSnps)
                         (Z.to_nat (nSnps - 1))))) /\
  ((forall snp, (0 <= snp < nSnps)%Z ->
      0 < sum_states (alphaDot (ll_fs_up_ss_scaled_err_upto r tb Kab config nInd nSnps
                                  ind snp st))) ->
   llval (ll_fs_up_ss_scaled_err_ind r tb Kab config nInd nSnps ind st)
   = llval st
     + ln (sum_states (forward_unscaled (up_Q0 config tb Kab ind)
                         (up_Q config tb Kab nInd ind) (ss_Tr r nSnps)
                         (Z.to_nat (nSnps - 1))))).
Proof.
  intros Hsnps.
  unfold ll_fs_scaled_err_upto, ll_fs_ss_scaled_err_upto, ll_fs_up_ss_scaled_err_upto,
    ll_fs_scaled_err_ind, ll_fs_ss_scaled_err_ind, ll_fs_up_ss_scaled_err_ind.
  assert (G : forall Q0 Q Tr,
            (forall snp, (0 <= snp < nSnps)%Z ->
               0 < sum_states (alphaDot (forward_ind Q0 Q Tr (snp + 1) st))) ->
            llval (forward_ind Q0 Q Tr nSnps st)
            = llval st
              + ln (sum_states (forward_unscaled Q0 Q Tr (Z.to_nat (nSnps - 1))))).
  { intros Q0 Q Tr Hw.
    destruct (forward_ind_unscaled Q0 Q Tr (Z.to_nat (nSnps - 1)) st) as (_ & E & _).
    - intros j Hj. apply Hw. lia.
    - now replace (Z.of_nat (Z.to_nat (nSnps - 1)) + 1)%Z with nSnps in E by lia. }
  repeat split; intros Hw; now apply G.
Qed.

End RealUnscaled.

(** Unfolds the first marker of a forward pass on the reals down to
    arithmetic on the cells. *)
Ltac one_marker :=
  unfold ll_fs_scaled_err_upto, ll_fs_ss_scaled_err_upto, ll_fs_up_ss_scaled_err_upto;
  change (0 + 1) with 1;
  rewrite forward_ind_one by lia;
  unfold sum_states;
  rewrite !forward_first_alphaDot by lia;
  unfold first_dot, fs_Q0, up_Q0;
  cbn -[Rplus Rmult Rdiv Rinv Rminus IZR];
  unfold Qentry_spec, emissionClass_example;
  cbn -[Rplus Rmult Rdiv Rinv Rminus IZR].

Lemma rescaling_keeps_the_likelihood_witness :
  0 < 2 /\
  (forall snp, 0 <= snp < 2 ->
     (0 < sum_states (alphaDot (ll_fs_scaled_err_upto (pf := ExampleProbFun) ex_r
                                  ex_tables ex_Kab ex_code 2 0 snp locals_init)))%R) /\
  (forall snp, 0 <= snp < 2 ->
     (0 < sum_states (alphaDot (ll_fs_ss_scaled_err_upto (pf := ExampleProbFun) ex_r
                                  ex_tables ex_Kab ex_code 2 2 0 snp locals_init)))%R) /\
  (forall snp, 0 <= snp < 2 ->
     (0 < sum_states (alphaDot (ll_fs_up_ss_scaled_err_upto (pf := ExampleProbFun) ex_r
                                  ex_tables ex_Kab ex_code 2 2 0 snp locals_init)))%R) /\
  llval (ll_fs_scaled_err_ind (pf := ExampleProbFun) ex_r ex_tables ex_Kab ex_code
           2 2 0 locals_init)
  = (llval (@locals_init R _)
     + ln (sum_states (forward_unscaled (fs_Q0 (pf := ExampleProbFun) ex_code ex_tables
                                           ex_Kab 0)
                         (fs_Q (pf := ExampleProbFun) ex_code ex_tables ex_Kab 2 0)
                         (fs_Tr (pf := ExampleProbFun) ex_r) (Z.to_nat (2 - 1)))))%R /\
  llval (ll_fs_ss_scaled_err_ind (pf := ExampleProbFun) ex_r ex_tables ex_Kab ex_code
           2 2 0 locals_init)
  = (llval (@locals_init R _)
     + ln (sum_states (forward_unscaled (fs_Q0 (pf := ExampleProbFun) ex_code ex_tables
                                           ex_Kab 0)
                         (fs_Q (pf := ExampleProbFun) ex_code ex_tables ex_Kab 2 0)
                         (ss_Tr (pf := ExampleProbFun) ex_r 2) (Z.to_nat (2 - 1)))))%R /\
  llval (ll_fs_up_ss_scaled_err_ind (pf := ExampleProbFun) ex_r ex_tables ex_Kab ex_code
           2 2 0 locals_init)
  = (llval (@locals_init R _)
     + ln (sum_states (forward_unscaled (up_Q0 (pf := ExampleProbFun) ex_code ex_tables
                                           ex_Kab 0)
                         (up_Q (pf := ExampleProbFun) ex_code ex_tables ex_Kab 2 0)
                         (ss_Tr (pf := ExampleProbFun) ex_r 2) (Z.to_nat (2 - 1)))))%R.
Proof.
  assert (Hsnps : 0 < 2) by lia.
  assert (Cases : forall snp, 0 <= snp < 2 -> snp = 0 \/ snp = 1) by (intros; lia).
  assert (Hfs : forall snp, 0 <= snp < 2 ->
     (0 < sum_states (alphaDot (ll_fs_scaled_err_upto (pf := ExampleProbFun) ex_r
                                  ex_tables ex_Kab ex_code 2 0 snp locals_init)))%R).
  { intros snp Hsnp. destruct (Cases snp Hsnp) as [-> | ->].
    - one_marker; lra.
    - two_markers; lra. }
  assert (Hss : forall snp, 0 <= snp < 2 ->
     (0 < sum_states (alphaDot (ll_fs_ss_scaled_err_upto (pf := ExampleProbFun) ex_r
                                  ex_tables ex_Kab ex_code 2 2 0 snp locals_init)))%R).
  { intros snp Hsnp. destruct (Cases snp Hsnp) as [-> | ->].
    - one_marker; lra.
    - two_markers; lra. }
  assert (Hup : forall snp, 0 <= snp < 2 ->
     (0 < sum_states (alphaDot (ll_fs_up_ss_scaled_err_upto (pf := ExampleProbFun) ex_r
                                  ex_tables ex_Kab ex_code 2 2 0 snp locals_init)))%R).
  { intros snp Hsnp. destruct (Cases snp Hsnp) as [-> | ->].
    - one_marker; lra.
    - two_markers; lra. }
  pose proof (rescaling_keeps_the_likelihood (pf := ExampleProbFun) ex_r ex_tables
                ex_Kab ex_code ex_code 2 2 0 locals_init Hsnps) as (Tfs & Tss & Tup).
  split; [exact Hsnps|]. split; [exact Hfs|]. split; [exact Hss|].
  split; [exact Hup|].
  split; [exact (Tfs Hfs)|]. split; [exact (Tss Hss)|exact (Tup Hup)].
Defined.

Lemma ll_fs_scaled_err_c_reads_in_bounds_witness :
  0 < 2 /\
  (forall k, 0 <= k < 2 - 1 -> ex_r_other k = ex_r k) /\
  (forall i, 0 <= i < 2 * 2 -> ex_Kab_other i = ex_Kab i) /\
  ll_fs_scaled_err_c (pf := ExampleProbFun) 4 ex_r_other ex_ep ex_ref ex_alt ex_bcoef
    ex_Kab_other ex_code 2 2 0
  = ll_fs_scaled_err_c (pf := ExampleProbFun) 4 ex_r ex_ep ex_ref ex_alt ex_bcoef
      ex_Kab ex_code 2 2 0.
Proof.
  assert (Hr : forall k, 0 <= k < 2 - 1 -> ex_r_other k = ex_r k).
  { intros k Hk. unfold ex_r_other. destruct (Z.ltb_spec k 1); [reflexivity|lia]. }
  assert (HK : forall i, 0 <= i < 2 * 2 -> ex_Kab_other i = ex_Kab i).
  { intros i Hi. unfold ex_Kab_other. destruct (Z.ltb_spec i 4); [reflexivity|lia]. }
  split; [lia|]. split; [exact Hr|]. split; [exact HK|].
  apply (ll_fs_scaled_err_c_reads_in_bounds (pf := ExampleProbFun) 4 ex_r ex_r_other
           ex_ep ex_ep ex_ref ex_ref ex_alt ex_alt ex_bcoef ex_bcoef ex_Kab ex_Kab_other
           ex_code ex_code 2 2 0).
  - lia.
  - exact Hr.
  - intros k _. split; reflexivity.
  - intros i Hi. repeat split. now apply HK.
Defined.

Lemma ll_fs_ss_scaled_err_c_reads_in_bounds_witness :
  0 < 2 /\
  (forall k, 0 <= k < 2 * (2 - 1) ->
     ex_r_longer k = two_blocks 1 ex_r_pat ex_r_mat k) /\
  (forall i, 0 <= i < 2 * 2 -> ex_Kab_other i = ex_Kab i) /\
  ll_fs_ss_scaled_err_c (pf := ExampleProbFun) ex_r_longer ex_Kaa ex_Kab_other ex_Kbb
    ex_code 2 2
  = ll_fs_ss_scaled_err_c (pf := ExampleProbFun) (two_blocks 1 ex_r_pat ex_r_mat)
      ex_Kaa ex_Kab ex_Kbb ex_code 2 2.
Proof.
  assert (Hr : forall k, 0 <= k < 2 * (2 - 1) ->
                 ex_r_longer k = two_blocks 1 ex_r_pat ex_r_mat k).
  { intros k Hk. unfold ex_r_longer. destruct (Z.ltb_spec k 2); [reflexivity|lia]. }
  assert (HK : forall i, 0 <= i < 2 * 2 -> ex_Kab_other i = ex_Kab i).
  { intros i Hi. unfold ex_Kab_other. destruct (Z.ltb_spec i 4); [reflexivity|lia]. }
  split; [lia|]. split; [exact Hr|]. split; [exact HK|].
  apply (ll_fs_ss_scaled_err_c_reads_in_bounds (pf := ExampleProbFun)
           (two_blocks 1 ex_r_pat ex_r_mat) ex_r_longer ex_Kaa ex_Kaa ex_Kab ex_Kab_other
           ex_Kbb ex_Kbb ex_code ex_code 2 2).
  - lia.
  - exact Hr.
  - reflexivity.
  - intros i Hi. repeat split. now apply HK.
Defined.

Lemma ll_fs_up_ss_scaled_err_c_reads_in_bounds_witness :
  0 < 2 /\
  (forall k, 0 <= k < 2 * (2 - 1) ->
     ex_r_longer k = two_blocks 1 ex_r_pat ex_r_mat k) /\
  (forall i, 0 <= i < 2 * 2 -> ex_Kab_other i = ex_Kab i) /\
  ll_fs_up_ss_scaled_err_c (pf := ExampleProbFun) 4 ex_r_longer ex_bcoef ex_ep ex_ref
    ex_alt ex_Kab_other ex_code 2 2 0
  = ll_fs_up_ss_scaled_err_c (pf := ExampleProbFun) 4 (two_blocks 1 ex_r_pat ex_r_mat)
      ex_bcoef ex_ep ex_ref ex_alt ex_Kab ex_code 2 2 0.
Proof.
  assert (Hr : forall k, 0 <= k < 2 * (2 - 1) ->
                 ex_r_longer k = two_blocks 1 ex_r_pat ex_r_mat k).
  { intros k Hk. unfold ex_r_longer. destruct (Z.ltb_spec k 2); [reflexivity|lia]. }
  assert (HK : forall i, 0 <= i < 2 * 2 -> ex_Kab_other i = ex_Kab i).
  { intros i Hi. unfold ex_Kab_other. destruct (Z.ltb_spec i 4); [reflexivity|lia]. }
  split; [lia|]. split; [exact Hr|]. split; [exact HK|].
  apply (ll_fs_up_ss_scaled_err_c_reads_in_bounds (pf := ExampleProbFun) 4
           (two_blocks 1 ex_r_pat ex_r_mat) ex_r_longer ex_bcoef ex_bcoef ex_ep ex_ep
           ex_ref ex_ref ex_alt ex_alt ex_Kab ex_Kab_other ex_code ex_code 2 2 0).
  - lia.
  - exact Hr.
  - reflexivity.
  - reflexivity.
  - intros i Hi. repeat split. now apply HK.
Defined.

Lemma unassigned_variables_are_not_read_witness :
  0 < 2 /\ llval ex_locals_leftover = ofZ 0 /\
  dmul (ofZ (-1))
    (llval (ll_fs_scaled_err_loop (pf := ExampleProbFun) ex_r
              (emission_tables ex_ep ex_ref ex_alt ex_bcoef 2 2 ex_tables_leftover)
              ex_Kab ex_code 2 2 (set_up_threads 0 4) ex_locals_leftover))
  = ll_fs_scaled_err_c (pf := ExampleProbFun) 4 ex_r ex_ep ex_ref ex_alt ex_bcoef
      ex_Kab ex_code 2 2 0.
Proof.
  assert (H1 : 0 < 2) by lia.
  assert (H2 : llval ex_locals_leftover = ofZ 0) by reflexivity.
  split; [exact H1|]. split; [exact H2|].
  exact (proj1 (unassigned_variables_are_not_read (pf := ExampleProbFun) 4 ex_r ex_ep
                  ex_ref ex_alt ex_bcoef ex_Kaa ex_Kab ex_Kbb ex_code ex_code 2 2 0
                  ex_tables_leftover ex_locals_leftover H1 H2)).
Defined.

(** ** The order of the individuals *)

Section FlatRows.

Context {T : Type} {ops : DoubleOps T} {pf : ProbFun T}.
Implicit Types (st : @locals T).

Lemma flat_at {V : Type} (nInd : Z) (M : Z -> Z -> V) (ind snp : Z) :
  0 <= ind < nInd -> flat nInd M (ind + nInd * snp) = M ind snp.
Proof.
  intros H. replace (ind + nInd * snp) with (ind + snp * nInd) by lia.
  now apply flat_cell.
Qed.

Lemma flat_at_first {V : Type} (nInd : Z) (M : Z -> Z -> V) (ind : Z) :
  0 <= ind < nInd -> flat nInd M ind = M ind 0.
Proof.
  intros H. rewrite <- (flat_at nInd M ind 0 H). f_equal. lia.
Qed.

(** The loop bodies on matrices stored with the individual index running
    fastest, in terms of the matrices. *)
Lemma ll_fs_scaled_err_ind_flat
    (r ep : Z -> T) (ref alt : Z -> Z -> Z) (bcoef_mat Kab : Z -> Z -> T)
    (OPGP : Z -> Z) (nInd nSnps ind : Z) st :
  0 <= ind < nInd -> 0 < nSnps ->
  ll_fs_scaled_err_ind r
    (emission_tables ep (flat nInd ref) (flat nInd alt) (flat nInd bcoef_mat)
       nInd nSnps tables_uninit)
    (flat nInd Kab) OPGP nInd nSnps ind st
  = forward_ind
      (phased_lookup OPGP (Kaa_matrix bcoef_mat ep ref alt) Kab
         (Kbb_matrix bcoef_mat ep ref alt) ind 0)
      (phased_lookup OPGP (Kaa_matrix bcoef_mat ep ref alt) Kab
         (Kbb_matrix bcoef_mat ep ref alt) ind)
      (fs_Tr r) nSnps st.
Proof.
  intros Hind Hsnps.
  assert (Cell : forall snp idx, 0 <= snp < nSnps -> idx = ind + snp * nInd ->
            pKaa (emission_tables ep (flat nInd ref) (flat nInd alt)
                    (flat nInd bcoef_mat) nInd nSnps tables_uninit) idx
            = Kaa_matrix bcoef_mat ep ref alt ind snp /\
            pKbb (emission_tables ep (flat nInd ref) (flat nInd alt)
                    (flat nInd bcoef_mat) nInd nSnps tables_uninit) idx
            = Kbb_matrix bcoef_mat ep ref alt ind snp /\
            flat nInd Kab idx = Kab ind snp).
  { intros snp idx Hsnp Hidx.
    destruct (emission_tables_at ep (flat nInd ref) (flat nInd alt)
                (flat nInd bcoef_mat) nInd nSnps tables_uninit ind snp idx
                Hind Hsnp Hidx) as [A B].
    rewrite A, B. subst idx. rewrite !flat_cell by exact Hind.
    unfold Kaa_matrix, Kbb_matrix. auto. }
  unfold ll_fs_scaled_err_ind. apply forward_ind_ext; try reflexivity.
  - intros s Hs. unfold fs_Q0, phased_lookup.
    destruct (Cell 0 ind) as (A & B & C); [lia|lia|]. now rewrite A, B, C.
  - intros snp s Hsnp Hs. unfold fs_Q, phased_lookup.
    destruct (Cell snp (ind + nInd * snp)) as (A & B & C); [lia|lia|].
    now rewrite A, B, C.
Qed.

Lemma ll_fs_ss_scaled_err_ind_flat
    (r : Z -> T) (Kaa Kab Kbb : Z -> Z -> T) (OPGP : Z -> Z) (nInd nSnps ind : Z) st :
  0 <= ind < nInd ->
  ll_fs_ss_scaled_err_ind r (mkTables (flat nInd Kaa) (flat nInd Kbb)) (flat nInd Kab)
    OPGP nInd nSnps ind st
  = forward_ind (phased_lookup OPGP Kaa Kab Kbb ind 0)
      (phased_lookup OPGP Kaa Kab Kbb ind) (ss_Tr r nSnps) nSnps st.
Proof.
  intros Hind.
  unfold ll_fs_ss_scaled_err_ind. apply forward_ind_ext; try reflexivity.
  - intros s Hs. unfold fs_Q0, phased_lookup. cbn [pKaa pKbb].
    now rewrite !flat_at_first.
  - intros snp s Hsnp Hs. unfold fs_Q, phased_lookup. cbn [pKaa pKbb].
    now rewrite !flat_at.
Qed.

Lemma ll_fs_up_ss_scaled_err_ind_flat
    (r : Z -> T) (ep_c : T) (ref alt : Z -> Z -> Z) (bcoef_mat Kab : Z -> Z -> T)
    (config : Z -> Z) (nThreads_c nInd nSnps ind : Z) st :
  0 <= ind < nInd -> 0 < nSnps ->
  ll_fs_up_ss_scaled_err_ind r
    (emission_tables_up ep_c (flat nInd ref) (flat nInd alt) (flat nInd bcoef_mat)
       nThreads_c nInd nSnps tables_uninit)
    (flat nInd Kab) config nInd nSnps ind st
  = forward_ind
      (unphased_lookup config (Kaa_matrix bcoef_mat (fun _ => ep_c) ref alt) Kab
         (Kbb_matrix bcoef_mat (fun _ => ep_c) ref alt) ind 0)
      (unphased_lookup config (Kaa_matrix bcoef_mat (fun _ => ep_c) ref alt) Kab
         (Kbb_matrix bcoef_mat (fun _ => ep_c) ref alt) ind)
      (ss_Tr r nSnps) nSnps st.
Proof.
  intros Hind Hsnps.
  assert (Cell : forall snp idx, 0 <= snp < nSnps -> idx = ind + snp * nInd ->
            pKaa (emission_tables_up ep_c (flat nInd ref) (flat nInd alt)
                    (flat nInd bcoef_mat) nThreads_c nInd nSnps tables_uninit) idx
            = Kaa_matrix bcoef_mat (fun _ => ep_c) ref alt ind snp /\
            pKbb (emission_tables_up ep_c (flat nInd ref) (flat nInd alt)
                    (flat nInd bcoef_mat) nThreads_c nInd nSnps tables_uninit) idx
            = Kbb_matrix bcoef_mat (fun _ => ep_c) ref alt ind snp /\
            flat nInd Kab idx = Kab ind snp).
  { intros snp idx Hsnp Hidx.
    destruct (emission_tables_up_at ep_c (flat nInd ref) (flat nInd alt)
                (flat nInd bcoef_mat) nThreads_c nInd nSnps tables_uninit ind snp idx
                Hind Hsnp Hidx) as [A B].
    rewrite A, B. subst idx. rewrite !flat_cell by exact Hind.
    unfold Kaa_matrix, Kbb_matrix. auto. }
  unfold ll_fs_up_ss_scaled_err_ind. apply forward_ind_ext; try reflexivity.
  - intros s Hs. unfold up_Q0, unphased_lookup.
    destruct (Cell 0 ind) as (A & B & C); [lia|lia|]. now rewrite A, B, C.
  - intros snp s Hsnp Hs. unfold up_Q, unphased_lookup.
    destruct (Cell snp (ind + nInd * snp)) as (A & B & C); [lia|lia|].
    now rewrite A, B, C.
Qed.

End FlatRows.

Section RealOrder.

Context {pf : ProbFun R}.

Local Open Scope R_scope.

Lemma Rsum_list_map (f : Z -> R) (g : Z -> Z) (l : list Z) :
  Rsum_list f (map g l) = Rsum_list (fun i => f (g i)) l.
Proof.
  induction l as [|i l IH]; simpl; [reflexivity|]. now rewrite IH.
Qed.

(** The value of a loop over individuals whose bodies are forward passes,
    as a sum over the list of the individuals. *)
Lemma individuals_sum (body : Z -> @locals R -> @locals R) (c : Z -> R) (nInd : Z) :
  (forall ind st, (0 <= ind < nInd)%Z -> llval (body ind st) = llval st + c ind) ->
  dmul (ofZ (-1)) (llval (for_loop 0 nInd body locals_init))
  = - Rsum_list c (map Z.of_nat (seq 0 (Z.to_nat nInd))).
Proof.
  intros Hb.
  rewrite (for_loop_llval body c nInd locals_init Hb), Rsum_upto_list.
  cbn [dmul ofZ llval locals_init RealOps]. ring.
Qed.

Lemma permuted_sum (c : Z -> R) (sigma : Z -> Z) (l : list Z) :
  Permutation (map sigma l) l ->
  Rsum_list (fun i => c (sigma i)) l = Rsum_list c l.
Proof.
  intros H. rewrite <- Rsum_list_map. now apply Rsum_list_perm.
Qed.

(** X14.  On the reals the order of the individuals does not matter: with
    the matrices stored with the individual index running fastest and at
    least one marker, handing the individuals over in another order, the
    same in every matrix, leaves the value of each of the three functions
    unchanged. *)
Theorem order_of_individuals_is_immaterial (maxThreads : Z) (sigma : Z -> Z)
    (r ep : Z -> R) (ref alt : Z -> Z -> Z) (bcoef_mat Kaa Kab Kbb : Z -> Z -> R)
    (OPGP config : Z -> Z) (nInd nSnps nThreads : Z) :
  (0 < nSnps)%Z ->
  Permutation (map sigma (map Z.of_nat (seq 0 (Z.to_nat nInd))))
              (map Z.of_nat (seq 0 (Z.to_nat nInd))) ->
  let moved {V : Type} (M : Z -> Z -> V) : Z -> Z -> V := fun ind snp => M (sigma ind) snp in
  ll_fs_scaled_err_c maxThreads r ep (flat nInd (moved ref)) (flat nInd (moved alt))
    (flat nInd (moved bcoef_mat)) (flat nInd (moved Kab)) OPGP nInd nSnps nThreads
  = ll_fs_scaled_err_c maxThreads r ep (flat nInd ref) (flat nInd alt)
      (flat nInd bcoef_mat) (flat nInd Kab) OPGP nInd nSnps nThreads
  /\
  ll_fs_ss_scaled_err_c r (flat nInd (moved Kaa)) (flat nInd (moved Kab))
    (flat nInd (moved Kbb)) OPGP nInd nSnps
  = ll_fs_ss_scaled_err_c r (flat nInd Kaa) (flat nInd Kab) (flat nInd Kbb) OPGP
      nInd nSnps
  /\
  ll_fs_up_ss_scaled_err_c maxThreads r (flat nInd (moved bcoef_mat)) ep
    (flat nInd (moved ref)) (flat nInd (moved alt)) (flat nInd (moved Kab)) config
    nInd nSnps nThreads
  = ll_fs_up_ss_scaled_err_c maxThreads r (flat nInd bcoef_mat) ep (flat nInd ref)
      (flat nInd alt) (flat nInd Kab) config nInd nSnps nThreads.
Proof.
  intros Hsnps Hperm moved.
  set (idx := map Z.of_nat (seq 0 (Z.to_nat nInd))) in *.
  (* the contribution of an individual, in terms of the matrices *)
  pose (c_fs := fun ind =>
    llval (forward_ind
             (phased_lookup OPGP (Kaa_matrix bcoef_mat ep ref alt) Kab
                (Kbb_matrix bcoef_mat ep ref alt) ind 0)
             (phased_lookup OPGP (Kaa_matrix bcoef_mat ep ref alt) Kab
                (Kbb_matrix bcoef_mat ep ref alt) ind)
             (fs_Tr r) nSnps locals_init)).
  pose (c_ss := fun ind =>
    llval (forward_ind (phased_lookup OPGP Kaa Kab Kbb ind 0)
             (phased_lookup OPGP Kaa Kab Kbb ind) (ss_Tr r nSnps) nSnps locals_init)).
  pose (c_up := fun ind =>
    llval (forward_ind
             (unphased_lookup config (Kaa_matrix bcoef_mat (fun _ => ep 0%Z) ref alt)
                Kab (Kbb_matrix bcoef_mat (fun _ => ep 0%Z) ref alt) ind 0)
             (unphased_lookup config (Kaa_matrix bcoef_mat (fun _ => ep 0%Z) ref alt)
                Kab (Kbb_matrix bcoef_mat (fun _ => ep 0%Z) ref alt) ind)
             (ss_Tr r nSnps) nSnps locals_init)).
  split; [|split].
  - transitivity (- Rsum_list (fun ind => c_fs (sigma ind)) idx).
    + unfold ll_fs_scaled_err_c, ll_fs_scaled_err_loop, omp_parallel_for. cbv zeta.
      apply individuals_sum. intros ind st Hind.
      rewrite ll_fs_scaled_err_ind_flat by assumption.
      rewrite forward_ind_adds. reflexivity.
    + rewrite (permuted_sum c_fs sigma idx Hperm). symmetry.
      unfold ll_fs_scaled_err_c, ll_fs_scaled_err_loop, omp_parallel_for. cbv zeta.
      apply individuals_sum. intros ind st Hind.
      rewrite ll_fs_scaled_err_ind_flat by assumption.
      rewrite forward_ind_adds. reflexivity.
  - transitivity (- Rsum_list (fun ind => c_ss (sigma ind)) idx).
    + unfold ll_fs_ss_scaled_err_c, ll_fs_ss_scaled_err_loop. cbv zeta.
      apply individuals_sum. intros ind st Hind.
      rewrite ll_fs_ss_scaled_err_ind_flat by assumption.
      rewrite forward_ind_adds. reflexivity.
    + rewrite (permuted_sum c_ss sigma idx Hperm). symmetry.
      unfold ll_fs_ss_scaled_err_c, ll_fs_ss_scaled_err_loop. cbv zeta.
      apply individuals_sum. intros ind st Hind.
      rewrite ll_fs_ss_scaled_err_ind_flat by assumption.
      rewrite forward_ind_adds. reflexivity.
  - transitivity (- Rsum_list (fun ind => c_up (sigma ind)) idx).
    + unfold ll_fs_up_ss_scaled_err_c, ll_fs_up_ss_scaled_err_loop, omp_parallel_for.
      cbv zeta. apply individuals_sum. intros ind st Hind.
      rewrite ll_fs_up_ss_scaled_err_ind_flat by assumption.
      rewrite forward_ind_adds. reflexivity.
    + rewrite (permuted_sum c_up sigma idx Hperm). symmetry.
      unfold ll_fs_up_ss_scaled_err_c, ll_fs_up_ss_scaled_err_loop, omp_parallel_for.
      cbv zeta. apply individuals_sum. intros ind st Hind.
      rewrite ll_fs_up_ss_scaled_err_ind_flat by assumption.
      rewrite forward_ind_adds. reflexivity.
Qed.

End RealOrder.

Lemma order_of_individuals_is_immaterial_witness :
  0 < 2 /\
  Permutation (map ex_swap (map Z.of_nat (seq 0 (Z.to_nat 2))))
              (map Z.of_nat (seq 0 (Z.to_nat 2))) /\
  ll_fs_ss_scaled_err_c (pf := ExampleProbFun) ex_r
    (flat 2 (fun ind snp => ex_Kaa2 (ex_swap ind) snp))
    (flat 2 (fun ind snp => ex_Kab2 (ex_swap ind) snp))
    (flat 2 (fun ind snp => ex_Kbb2 (ex_swap ind) snp)) ex_code 2 2
  = ll_fs_ss_scaled_err_c (pf := ExampleProbFun) ex_r (flat 2 ex_Kaa2) (flat 2 ex_Kab2)
      (flat 2 ex_Kbb2) ex_code 2 2.
Proof.
  assert (H1 : 0 < 2) by lia.
  assert (H2 : Permutation (map ex_swap (map Z.of_nat (seq 0 (Z.to_nat 2))))
                 (map Z.of_nat (seq 0 (Z.to_nat 2)))) by apply perm_swap.
  split; [exact H1|]. split; [exact H2|].
  pose proof (order_of_individuals_is_immaterial (pf := ExampleProbFun) 4 ex_swap
                ex_r ex_ep (fun _ _ => 1) (fun _ _ => 1) ex_Kab2 ex_Kaa2 ex_Kab2 ex_Kbb2
                ex_code ex_code 2 2 0 H1 H2) as H.
  cbv zeta in H. destruct H as (_ & H & _). exact H.
Defined.

(** ** A step that goes wrong is never covered up, on binary64 *)

Section Binary64Propagation.

Variable log : spec_float -> spec_float.
Variable pow : spec_float -> Z -> spec_float.
Variable junk : spec_float.

Local Hint Extern 0 (DoubleOps spec_float) =>
  exact (Binary64Ops log pow junk) : typeclass_instances.

Context {pf : ProbFun spec_float}.
Implicit Types (st : @locals spec_float).

Lemma non_finite_step_non_finite_result
    (Q0 : Z -> Z -> spec_float) (Q : Z -> Z -> Z -> spec_float)
    (Tr : Z -> Z -> Z -> spec_float) (nInd_c nSnps_c ind snp : Z) :
  0 <= ind < nInd_c -> 0 <= snp < nSnps_c ->
  non_finite
    (log (acc4 (alphaDot (forward_ind (Q0 ind) (Q ind) Tr (snp + 1) locals_init))))
  = true ->
  non_finite
    (dmul (ofZ (-1))
       (llval (for_loop 0 nInd_c
                 (fun i st => forward_ind (Q0 i) (Q i) Tr nSnps_c st) locals_init)))
  = true.
Proof.
  intros Hind Hsnp Hw.
  apply negation_non_finite.
  rewrite (for_loop_split 0 (ind + 1) nInd_c) by lia.
  apply for_loop_non_finite.
  { intros i s. apply forward_ind_non_finite. }
  rewrite for_loop_last by lia.
  replace (ind + 1 - 1) with ind by lia.
  rewrite (forward_ind_prefix (Q0 ind) (Q ind) Tr (snp + 1) nSnps_c) by lia.
  apply for_loop_non_finite.
  { intros i s. apply forward_next_non_finite. }
  match goal with
  | |- non_finite (llval (forward_ind _ _ _ _ ?s)) = true =>
      pose proof (forward_ind_step_llval (Q0 ind) (Q ind) Tr snp s) as E;
      rewrite (forward_ind_weight_indep (Q0 ind) (Q ind) Tr snp locals_init s) in Hw
  end.
  cbv zeta in E. rewrite E.
  apply SFadd_non_finite_r. exact Hw.
Qed.

(** X16.  On binary64 and whatever [log] and [pow] compute: when, for some
    individual and marker, the logarithm of the weight of the step is an
    infinity or a NaN, no later marker and no later individual brings
    [llval] back to a finite value, and each of the three functions returns
    an infinity or a NaN. *)
Theorem non_finite_step_is_never_covered_up (maxThreads : Z)
    (r ep : Z -> spec_float) (ref alt : Z -> Z)
    (bcoef_mat Kaa Kab Kbb : Z -> spec_float) (OPGP config : Z -> Z)
    (nInd nSnps nThreads ind snp : Z) :
  0 <= ind < nInd -> 0 <= snp < nSnps ->
  (let tb := emission_tables ep ref alt bcoef_mat nInd nSnps tables_uninit in
   non_finite (log (acc4 (alphaDot (ll_fs_scaled_err_upto r tb Kab OPGP nInd ind snp
                                      locals_init)))) = true ->
   non_finite (ll_fs_scaled_err_c maxThreads r ep ref alt bcoef_mat Kab OPGP
                 nInd nSnps nThreads) = true) /\
  (non_finite (log (acc4 (alphaDot (ll_fs_ss_scaled_err_upto r (mkTables Kaa Kbb) Kab
                                      OPGP nInd nSnps ind snp locals_init)))) = true ->
   non_finite (ll_fs_ss_scaled_err_c r Kaa Kab Kbb OPGP nInd nSnps) = true) /\
  (let tb := emission_tables_up (ep 0) ref alt bcoef_mat
               (set_up_threads nThreads maxThreads) nInd nSnps tables_uninit in
   non_finite (log (acc4 (alphaDot (ll_fs_up_ss_scaled_err_upto r tb Kab config nInd
                                      nSnps ind snp locals_init)))) = true ->
   non_finite (ll_fs_up_ss_scaled_err_c maxThreads r bcoef_mat ep ref alt Kab config
                 nInd nSnps nThreads) = true).
Proof.
  intros Hind Hsnp.
  unfold ll_fs_scaled_err_upto, ll_fs_ss_scaled_err_upto, ll_fs_up_ss_scaled_err_upto.
  split; [|split]; cbv zeta; intros Hw.
  - apply (non_finite_step_non_finite_result
             (fun i => fs_Q0 OPGP _ Kab i) (fun i => fs_Q OPGP _ Kab nInd i)
             (fs_Tr r) nInd nSnps ind snp Hind Hsnp Hw).
  - apply (non_finite_step_non_finite_result
             (fun i => fs_Q0 OPGP _ Kab i) (fun i => fs_Q OPGP _ Kab nInd i)
             (ss_Tr r nSnps) nInd nSnps ind snp Hind Hsnp Hw).
  - apply (non_finite_step_non_finite_result
             (fun i => up_Q0 config _ Kab i) (fun i => up_Q config _ Kab nInd i)
             (ss_Tr r nSnps) nInd nSnps ind snp Hind Hsnp Hw).
Qed.

End Binary64Propagation.

Lemma non_finite_step_is_never_covered_up_witness :
  0 <= 0 < 1 /\ 0 <= 1 < 2 /\
  non_finite
    (ex_log (acc4 (ops := ExampleBinary64)
               (alphaDot (ll_fs_ss_scaled_err_upto (ops := ExampleBinary64)
                            (pf := ExampleProbFun64) ex64_r
                            (mkTables ex64_first_only ex64_first_only)
                            ex64_first_only ex_code 1 2 0 1
                            (locals_init (ops := ExampleBinary64)))))) = true /\
  non_finite
    (ll_fs_ss_scaled_err_c (ops := ExampleBinary64) (pf := ExampleProbFun64)
       ex64_r ex64_first_only ex64_first_only ex64_first_only ex_code 1 2) = true.
Proof.
  assert (H1 : 0 <= 0 < 1) by lia.
  assert (H2 : 0 <= 1 < 2) by lia.
  assert (H3 : non_finite
    (ex_log (acc4 (ops := ExampleBinary64)
               (alphaDot (ll_fs_ss_scaled_err_upto (ops := ExampleBinary64)
                            (pf := ExampleProbFun64) ex64_r
                            (mkTables ex64_first_only ex64_first_only)
                            ex64_first_only ex_code 1 2 0 1
                            (locals_init (ops := ExampleBinary64)))))) = true)
    by (vm_compute; reflexivity).
  split; [exact H1|]. split; [exact H2|]. split; [exact H3|].
  exact (proj1 (proj2
           (non_finite_step_is_never_covered_up ex_log ex_pow S754_nan
              (pf := ExampleProbFun64) 1 ex64_r ex64_zero ex64_no_counts
              ex64_no_counts ex64_first_only ex64_first_only ex64_first_only
              ex64_first_only ex_code ex_code 1 2 0 0 1 H1 H2))
           H3).
Defined.
